(** * The log sequencer of Trillian: [IntegrateBatch] and its helpers

    A shallow embedding of [log/sequencer.go] together with the collaborators
    it talks to (storage transaction, compact Merkle range, hasher, signer,
    time source, quota manager), and the properties of one integration
    batch. *)

From Stdlib Require Import ZArith List Lia Bool String Sorted.
From Stdlib.Strings Require Import Byte.
From Stdlib Require Import Floats.
From stdpp Require Import base option list gmap.
From Equations Require Import Equations.

Local Open Scope Z_scope.

(** ** Machine integers

    Go's [uint64], [int64] and [int] (64 bits here) are integers of [Z] with
    the wrap-around of every conversion and addition written out. *)

Definition u64 (z : Z) : Z := z mod 2 ^ 64.
Definition i64 (z : Z) : Z := (z + 2 ^ 63) mod 2 ^ 64 - 2 ^ 63.

Definition MaxInt64 : Z := 2 ^ 63 - 1.
Definition MinInt64 : Z := - 2 ^ 63.

(** [bits.OnesCount64] and [bits.TrailingZeros64] on a value of [u64]. *)
Fixpoint pos_ones (p : positive) : nat :=
  match p with
  | xH => 1
  | xO p' => pos_ones p'
  | xI p' => S (pos_ones p')
  end.

Definition OnesCount64 (z : Z) : nat :=
  match z with
  | Zpos p => pos_ones p
  | _ => 0
  end.

Fixpoint pos_trailing_zeros (p : positive) : Z :=
  match p with
  | xO p' => 1 + pos_trailing_zeros p'
  | _ => 0
  end.

Definition TrailingZeros64 (z : Z) : Z :=
  match z with
  | Zpos p => pos_trailing_zeros p
  | _ => 64
  end.

(** ** Errors

    A Go [error] is one of: the sentinel [storage.ErrTreeNeedsInit], an error
    value made by a collaborator (storage, signer, quota manager), or the
    result of [fmt.Errorf] at a place of the code: [Errorf] when no error is
    among the arguments, [Wrapf] when one is formatted in with [%v]. *)
Inductive error : Type :=
| ErrTreeNeedsInit
| ErrExternal (code : Z)
| Errorf (format : string)
| Wrapf (format : string) (cause : error).

Inductive result (A : Type) : Type :=
| Ok (a : A)
| Err (e : error).
Arguments Ok {A} a.
Arguments Err {A} e.

(** ** The reference Merkle tree hash (RFC 6962, section 2.1)

    The leaves are already leaf hashes; the hash of the empty list is the
    hasher's empty-root constant, the hash of one leaf is the leaf hash, and
    a longer list is split at the largest power of two smaller than its
    length. *)

Definition split_point (n : nat) : nat := (2 ^ Nat.log2 (n - 1))%nat.

Section MerkleReference.
Context {H : Type} (HashChildren : H -> H -> H) (EmptyRoot : H).

Equations? merkle_root (l : list H) : H by wf (length l) lt :=
  merkle_root [] := EmptyRoot;
  merkle_root [x] := x;
  merkle_root (x :: y :: l) :=
    let k := split_point (length (x :: y :: l)) in
    HashChildren (merkle_root (take k (x :: y :: l)))
                 (merkle_root (drop k (x :: y :: l))).
Proof.
  - rewrite length_take. subst k. unfold split_point.
    replace (S (S (length l)) - 1)%nat with (S (length l)) by lia.
    assert (Hk : (2 ^ Nat.log2 (S (length l)) <= S (length l))%nat)
      by (apply Nat.log2_spec; lia).
    lia.
  - rewrite length_drop. subst k. unfold split_point.
    replace (S (S (length l)) - 1)%nat with (S (length l)) by lia.
    assert (Hk : (0 < 2 ^ Nat.log2 (S (length l)))%nat)
      by (apply Nat.neq_0_lt_0, Nat.pow_nonzero; lia).
    simpl length. lia.
Qed.

(** The hashes of the perfect subtrees that tile [leaves] from the left,
    one per set bit of the length, highest level first: [p] counts the
    blocks of [2 ^ lvl] leaves that [leaves] is made of. *)
Fixpoint border_pos (lvl : nat) (p : positive) (leaves : list H) : list H :=
  match p with
  | xH => [merkle_root leaves]
  | xO p' => border_pos (S lvl) p' leaves
  | xI p' =>
      let k := (length leaves - 2 ^ lvl)%nat in
      border_pos (S lvl) p' (take k leaves) ++ [merkle_root (drop k leaves)]
  end.

Definition border (leaves : list H) : list H :=
  match Z.of_nat (length leaves) with
  | Zpos p => border_pos 0 p leaves
  | _ => []
  end.
End MerkleReference.

(** ** Package [merkle/compact] *)
Module compact.

(** [compact.NodeID]: level 0 is a leaf; the node of level [L] at index [i]
    covers the leaves from [i * 2^L] up to [(i+1) * 2^L]. *)
Record NodeID : Type := NewNodeID { Level : Z; Index : Z }.

#[global] Instance NodeID_eq_dec : EqDecision NodeID.
Proof. solve_decision. Defined.

#[global] Instance NodeID_countable : Countable NodeID.
Proof.
  refine (inj_countable' (fun id => (Level id, Index id))
                         (fun p => NewNodeID (fst p) (snd p)) _).
  intros []; reflexivity.
Defined.

(** Modelled from the spec: [RangeNodesForPrefix], which is not among the
    sources. It returns the IDs of the nodes whose hashes populate the
    compact range of a tree of the given size, one per set bit of the size,
    from the highest level to the lowest. The node of a set bit at level
    [L] is the last complete node of that level: its index is the number
    of complete level-[L] blocks minus one. *)
Fixpoint range_nodes_pos (lvl : Z) (p : positive) : list NodeID :=
  match p with
  | xH => [NewNodeID lvl 0]
  | xO p' => range_nodes_pos (lvl + 1) p'
  | xI p' => range_nodes_pos (lvl + 1) p' ++ [NewNodeID lvl (Zpos p - 1)]
  end.

Definition RangeNodesForPrefix (size : Z) : list NodeID :=
  match size with
  | Zpos p => range_nodes_pos 0 p
  | _ => []
  end.

Section Range.
Context {H : Type} (Hash : H -> H -> H).

(** Modelled from the spec: the compact range, which is not among the
    sources. It starts at offset 0, ends at [End] and holds one hash per
    set bit of [End], listed from the highest level to the lowest. *)
Record Range : Type := mkRange { End : Z; hashes : list H }.

(** Modelled from the spec: [NewEmptyRange(0)]. *)
Definition NewEmptyRange : Range := mkRange 0 [].

(** Modelled from the spec: [NewRange(0, end, hashes)], which wants
    [len(hashes) = popcount(end)]. *)
Definition NewRange (end_ : Z) (hs : list H) : result Range :=
  if decide (length hs = OnesCount64 end_) then Ok (mkRange end_ hs)
  else Err (Errorf "invalid hashes: got %d values, want %d").

(** The visitor ([store] in the sequencer) acts on a state [S]; [novisit]
    stands for the [nil] visitor. *)
Section Visitor.
Context {S : Type} (visit : NodeID -> H -> S -> S).

(** Modelled from the spec: the merges of [append]. [lhs] holds the
    hashes still on the left of the seed, lowest level first, and
    [index] the number of complete blocks of the seed's level to the
    left of it. While that number is odd the rightmost accumulated
    hash has the level of the seed: the two collapse into their
    parent, which is reported to the visitor. At most 64 merges. *)
Fixpoint appendMerge (fuel : nat) (level index : Z) (lhs : list H)
         (seed : H) (s : S) : result (list H * S) :=
  match fuel with
  | O => Ok (reverse lhs ++ [seed], s)
  | Datatypes.S fuel' =>
      if Z.odd index then
        match lhs with
        | [] => Err (Errorf "corrupted lhs range")
        | h :: lhs' =>
            let seed' := Hash h seed in
            let index' := Z.shiftr index 1 in
            appendMerge fuel' (level + 1) index' lhs' seed'
                        (visit (NewNodeID (level + 1) index') seed' s)
        end
      else Ok (reverse lhs ++ [seed], s)
  end.

(** Modelled from the spec: [append(leaf_hash, store)]. *)
Definition Append (r : Range) (hash : H) (s : S) : result (Range * S) :=
  match appendMerge 64 0 (End r) (reverse (hashes r)) hash s with
  | Ok (hs, s') => Ok (mkRange (u64 (End r + 1)) hs, s')
  | Err e => Err e
  end.

(** Modelled from the spec: the loop of [get_root_hash]. The hashes are
    folded from the lowest level upwards; each step makes the parent
    of the two rightmost subtrees, an ephemeral node whose level is
    one more than the level of the left one. *)
Fixpoint rootLoop (lhs : list H) (size : Z) (hash : H) (s : S) : H * S :=
  match lhs with
  | [] => (hash, s)
  | h :: lhs' =>
      let hash' := Hash h hash in
      let size' := Z.land size (size - 1) in
      let level := TrailingZeros64 size' + 1 in
      rootLoop lhs' size' hash'
               (visit (NewNodeID level (Z.shiftr size' level)) hash' s)
  end.

(** Modelled from the spec: [get_root_hash(store)]; [None] is the
    [nil] hash of an empty range. *)
Definition GetRootHash (r : Range) (s : S) : option H * S :=
  match reverse (hashes r) with
  | [] => (None, s)
  | h :: lhs =>
      let '(hash, s') := rootLoop lhs (End r) h s in (Some hash, s')
  end.
End Visitor.

Definition novisit : NodeID -> H -> unit -> unit := fun _ _ s => s.
End Range.
End compact.

(** ** Data of packages [trillian], [types], [storage] and [quota] *)

(** Go's [[]byte]: [None] is the [nil] slice. *)
Definition bytes : Type := option (list Byte.byte).

#[global] Instance byte_eq_dec : EqDecision Byte.byte := Byte.byte_eq_dec.

(** [bytes.Equal]: a [nil] slice equals an empty one. *)
Definition bytes_Equal (a b : bytes) : bool :=
  bool_decide (default [] a = default [] b).

(** A [time.Time] is the count of nanoseconds since the Unix epoch, a
    [time.Duration] a count of nanoseconds held in an [int64]. *)
Definition Time : Type := Z.
Definition Duration : Type := Z.

Definition UnixNano (t : Time) : Z := i64 t.
Definition Time_Add (t : Time) (d : Duration) : Time := t + d.

(** [t.Sub(u)] saturates at the ends of [int64]. *)
Definition Time_Sub (t u : Time) : Duration :=
  Z.max MinInt64 (Z.min MaxInt64 (t - u)).

(** [timestamp.Timestamp] of protobuf and the two conversions of [ptypes]:
    both refuse seconds outside of years 1 to 9999 and nanoseconds outside
    of one second. *)
Record Timestamp : Type := mkTimestamp { Seconds : Z; Nanos : Z }.

Definition minValidSeconds : Z := -62135596800.
Definition maxValidSeconds : Z := 253402300800.

Definition validateTimestamp (ts : Timestamp) : bool :=
  (minValidSeconds <=? Seconds ts) && (Seconds ts <? maxValidSeconds)
  && (0 <=? Nanos ts) && (Nanos ts <? 1000000000).

Definition TimestampProto (t : Time) : result Timestamp :=
  let ts := mkTimestamp (t / 1000000000) (t mod 1000000000) in
  if validateTimestamp ts then Ok ts
  else Err (Errorf "timestamp: seconds out of range").

Definition ptypes_Timestamp (ts : Timestamp) : result Time :=
  if validateTimestamp ts then Ok (Seconds ts * 1000000000 + Nanos ts)
  else Err (Errorf "timestamp: out of range").

Record LogLeaf : Type := mkLogLeaf {
  MerkleLeafHash : bytes;
  LeafIndex : Z;
  QueueTimestamp : option Timestamp;
  IntegrateTimestamp : option Timestamp
}.

Record LogRootV1 : Type := mkLogRootV1 {
  TreeSize : Z;
  RootHash : bytes;
  TimestampNanos : Z;
  Revision : Z
}.

Record SignedLogRoot : Type := mkSignedLogRoot {
  LogRoot : bytes;
  LogRootSignature : bytes
}.

Inductive TreeType : Type :=
| TreeType_UNKNOWN_TREE_TYPE
| TreeType_LOG
| TreeType_MAP
| TreeType_PREORDERED_LOG.

Record Tree : Type := mkTree { TreeId : Z; TreeType_ : TreeType }.

(** [hashers.LogHasher], as far as the sequencer uses it. *)
Record LogHasher : Type := mkLogHasher {
  HashChildren : bytes -> bytes -> bytes;
  EmptyRoot : bytes
}.

Module storage.
(** Modelled from the spec: the storage node ID, which is not among the
    sources. It is the path prefix of a node in a tree of depth
    [maxPathBits]: the first [PrefixLenBits] bits of [Path]. *)
Record NodeID : Type := mkNodeID { Path : Z; PrefixLenBits : Z }.

(** Modelled from the spec: [NewNodeIDForTreeCoords]; the conversion is
    total for a level of at most the depth. *)
Definition NewNodeIDForTreeCoords (depth index maxPathBits : Z) : result NodeID :=
  if (depth <? 0) || (maxPathBits <? depth) then
    Err (Errorf "depth/index combination out of range")
  else Ok (mkNodeID (u64 (Z.shiftl (u64 index) depth)) (maxPathBits - depth)).

(** Modelled from the spec: equivalence is equality of the path bit
    strings. *)
Definition Equivalent (a b : NodeID) : bool :=
  (PrefixLenBits a =? PrefixLenBits b)
  && (Z.shiftr (Path a) (64 - PrefixLenBits a) =? Z.shiftr (Path b) (64 - PrefixLenBits b)).

Record Node : Type := mkNode { NodeID_ : NodeID; Hash : bytes; NodeRevision : Z }.
End storage.

Module quota.
Inductive Group : Type := Global | Tree | User.
Inductive Kind : Type := Read | Write.
(** The zero value of [TreeID] is 0, as in the two global specs. *)
Record Spec : Type := mkSpec { Group_ : Group; Kind_ : Kind; TreeID : Z }.
End quota.

(** ** Metrics and the record of what a call did *)

Inductive Metric : Type :=
| seqBatches | seqTreeSize | seqLatency | seqDequeueLatency
| seqGetRootLatency | seqInitTreeLatency | seqWriteTreeLatency
| seqUpdateLeavesLatency | seqSetNodesLatency | seqStoreRootLatency
| seqCounter | seqMergeDelay | seqTimestamp.

(** The calls to the collaborators (clock, storage, signer, quota manager),
    each with what it was given and what it answered, and the updates of the
    metrics. A metric value is kept as the
    integer it is converted from: a size, a count, or a duration in
    nanoseconds where the source observes seconds. *)
Inductive Event : Type :=
| EvNow (t : Time)
| EvBegin (r : option error)
| EvCommit (r : option error)
| EvRollback
| EvLatestSignedLogRoot (r : result SignedLogRoot)
| EvGetMerkleNodes (rev : Z) (ids : list storage.NodeID) (r : result (list storage.Node))
| EvDequeueLeaves (limit : Z) (cutoff : Time) (r : result (list LogLeaf))
| EvUpdateSequencedLeaves (leaves : list LogLeaf) (r : option error)
| EvWriteRevision (r : result Z)
| EvSetMerkleNodes (nodes : list storage.Node) (r : option error)
| EvStoreSignedLogRoot (slr : SignedLogRoot) (r : option error)
| EvSignLogRoot (root : LogRootV1) (r : result SignedLogRoot)
| EvPutTokens (tokens : Z) (specs : list quota.Spec) (r : option error)
| EvIncReplenished (tokens : Z) (specs : list quota.Spec) (success : bool)
| EvMetric (m : Metric) (label : Z) (value : Z).

(** ** Floating point of [replenishQuota] *)

(** [float64(n)] for an [int] that is positive. *)
Definition float64_of_int (n : Z) : float := PrimFloat.of_uint63 (Uint63.of_Z n).

(** [int(f)]: the fraction is discarded. Go leaves the result open when the
    value does not fit; the amd64 instruction answers the least [int64]. *)
Definition int_of_float64 (f : float) : Z :=
  match Prim2SF f with
  | S754_zero _ => 0
  | S754_finite sgn m e =>
      let a := if 0 <=? e then Zpos m * 2 ^ e else Zpos m / 2 ^ (- e) in
      let v := if sgn then - a else a in
      if (MinInt64 <=? v) && (v <=? MaxInt64) then v else MinInt64
  | _ => MinInt64
  end.

(** ** The collaborators

    The storage, the clock, the signer and the quota manager are reached
    through interfaces only. Each is a family of operations on a state [W]
    of the world outside of the sequencer, about which nothing is assumed:
    an operation may answer anything and change that state at will. *)

Record LogTreeTX (W : Type) : Type := mkLogTreeTX {
  LatestSignedLogRoot : W -> result SignedLogRoot * W;
  GetMerkleNodes : Z -> list storage.NodeID -> W -> result (list storage.Node) * W;
  DequeueLeaves : Z -> Time -> W -> result (list LogLeaf) * W;
  UpdateSequencedLeaves : list LogLeaf -> W -> option error * W;
  WriteRevision : W -> result Z * W;
  SetMerkleNodes : list storage.Node -> W -> option error * W;
  StoreSignedLogRoot : SignedLogRoot -> W -> option error * W;
  Commit : W -> option error * W;
  Rollback : W -> W
}.
Arguments LatestSignedLogRoot {W}.
Arguments GetMerkleNodes {W}.
Arguments DequeueLeaves {W}.
Arguments UpdateSequencedLeaves {W}.
Arguments WriteRevision {W}.
Arguments SetMerkleNodes {W}.
Arguments StoreSignedLogRoot {W}.
Arguments Commit {W}.
Arguments Rollback {W}.

Record LogStorage (W : Type) : Type := mkLogStorage {
  Begin : Tree -> W -> option error * W;
  Tx : LogTreeTX W
}.
Arguments Begin {W}.
Arguments Tx {W}.

(** [type Sequencer struct]; the time source is its [Now], the signer its
    [SignLogRoot], the quota manager its [PutTokens]. *)
Record Sequencer (W : Type) : Type := mkSequencer {
  hasher : LogHasher;
  timeSource : W -> Time * W;
  logStorage : LogStorage W;
  signer : LogRootV1 -> W -> result SignedLogRoot * W;
  qm : Z -> list quota.Spec -> W -> option error * W
}.
Arguments hasher {W}.
Arguments timeSource {W}.
Arguments logStorage {W}.
Arguments signer {W}.
Arguments qm {W}.

(** What the code runs in: the outside world and the package variable
    [QuotaIncreaseFactor]. *)
Record World (W : Type) : Type := mkWorld {
  ext : W;
  QuotaIncreaseFactor : float
}.
Arguments mkWorld {W}.
Arguments ext {W}.
Arguments QuotaIncreaseFactor {W}.

(** [maxTreeDepth] *)
Definition maxTreeDepth : Z := 64.

(** A computation reads and changes the world and records what it did. *)
Definition M (W A : Type) : Type := World W -> A * World W * list Event.

Definition ret {W A} (a : A) : M W A := fun w => (a, w, []).

Definition bind {W A B} (m : M W A) (f : A -> M W B) : M W B :=
  fun w =>
    let '(a, w1, t1) := m w in
    let '(b, w2, t2) := f a w1 in
    (b, w2, t1 ++ t2).

Notation "'let*' x ':=' m 'in' k" := (bind m (fun x => k))
  (at level 10, x name, m at level 100, k at level 200).

Definition emit {W} (e : Event) : M W unit := fun w => (tt, w, [e]).

(** A call to a collaborator, recorded by [ev]. *)
Definition call {W A} (f : W -> A * W) (ev : A -> list Event) : M W A :=
  fun w =>
    let '(a, x) := f (ext w) in
    (a, mkWorld x (QuotaIncreaseFactor w), ev a).

Fixpoint mapM_result {A B} (f : A -> result B) (l : list A) : result (list B) :=
  match l with
  | [] => Ok []
  | a :: l' =>
      match f a with
      | Err e => Err e
      | Ok b =>
          match mapM_result f l' with
          | Err e => Err e
          | Ok bs => Ok (b :: bs)
          end
      end
  end.

(** ** The sequencer *)

(** [func quotaIncreaseFactor() float64] *)
Definition quotaIncreaseFactor {W} : M W float :=
  fun w =>
    if (QuotaIncreaseFactor w <? 1)%float
    then (1%float, mkWorld (ext w) 1%float, [])
    else (QuotaIncreaseFactor w, w, []).

Record sequencingTaskData : Type := mksequencingTaskData {
  label : Z;
  treeSize : Z
}.

(** The variables of [IntegrateBatch] that its transaction body assigns:
    [numLeaves], [newLogRoot] and [newSLR]. *)
Definition Captured : Type := (Z * option LogRootV1 * option SignedLogRoot)%type.

Section Sequencer.
Context {W : Type} (s : Sequencer W).

(** [LogRootV1.UnmarshalBinary], of package [types]: the decoding of the
    log root that a signed log root carries. *)
Context (UnmarshalBinary : bytes -> result LogRootV1).

Local Abbreviation M := (M W).

Definition Now : M Time := call (timeSource s) (fun t => [EvNow t]).

(** [m.Observe(clock.SecondsSince(s.timeSource, start), label)] *)
Definition observeSince (m : Metric) (label : Z) (start : Time) : M unit :=
  let* now := Now in
  emit (EvMetric m label (Time_Sub now start)).

(** [func (s Sequencer) initCompactRangeFromStorage] *)
Fixpoint nodeIDsMatch (nodes : list storage.Node) (storIDs : list storage.NodeID) : bool :=
  match nodes, storIDs with
  | node :: nodes', id :: storIDs' =>
      storage.Equivalent (storage.NodeID_ node) id && nodeIDsMatch nodes' storIDs'
  | _, _ => true
  end.

Definition initCompactRangeFromStorage (root : LogRootV1)
  : M (result (compact.Range (H := bytes))) :=
  if TreeSize root =? 0 then ret (Ok compact.NewEmptyRange)
  else
    let ids := compact.RangeNodesForPrefix (TreeSize root) in
    match mapM_result
            (fun id => storage.NewNodeIDForTreeCoords
                         (i64 (compact.Level id)) (i64 (compact.Index id)) maxTreeDepth)
            ids with
    | Err err => ret (Err (Wrapf "failed to create nodeID: %v" err))
    | Ok storIDs =>
        let* got := call (GetMerkleNodes (Tx (logStorage s)) (i64 (Revision root)) storIDs)
                         (fun r => [EvGetMerkleNodes (i64 (Revision root)) storIDs r]) in
        match got with
        | Err err => ret (Err (Wrapf "failed to get Merkle nodes: %v" err))
        | Ok nodes =>
            if negb (length nodes =? length storIDs)%nat then
              ret (Err (Errorf "failed to get %d nodes at rev %d, got %d"))
            else if negb (nodeIDsMatch nodes storIDs) then
              ret (Err (Errorf "node ID mismatch at %d"))
            else
              let hashes := map storage.Hash nodes in
              match compact.NewRange (TreeSize root) hashes with
              | Err err => ret (Err (Wrapf "failed to create compact.Range: %v" err))
              | Ok cr =>
                  let '(hash, _) :=
                    compact.GetRootHash (HashChildren (hasher s)) compact.novisit cr tt in
                  if negb (bytes_Equal (from_option id None hash) (RootHash root)) then
                    ret (Err (Errorf "root hash mismatch: got %x, want %x"))
                  else ret (Ok cr)
              end
        end
    end.

(** [func (s Sequencer) buildNodesFromNodeMap]; the nodes come in the
    order in which the map is ranged over, which Go leaves open. *)
Definition buildNodesFromNodeMap (nodeMap : gmap compact.NodeID bytes) (newVersion : Z)
  : result (list storage.Node) :=
  mapM_result
    (fun '(id, hash) =>
       match storage.NewNodeIDForTreeCoords
               (i64 (compact.Level id)) (i64 (compact.Index id)) maxTreeDepth with
       | Err err => Err err
       | Ok nodeID => Ok (storage.mkNode nodeID hash newVersion)
       end)
    (map_to_list nodeMap).

(** [func (s Sequencer) prepareLeaves]: the loop over the leaves, and the
    function. The leaves are pointers in the source and are updated in
    place; here the updated leaves are returned. *)
Fixpoint prepareLeavesLoop (now : Time) (integrateAt : Timestamp) (begin : Z)
         (label : Z) (i : Z) (leaves : list LogLeaf) : M (result (list LogLeaf)) :=
  match leaves with
  | [] => ret (Ok [])
  | leaf :: rest =>
      let got := LeafIndex leaf in
      let want := u64 (begin + u64 i) in
      if (got <? 0) || negb (got =? i64 want) then
        ret (Err (Errorf "got invalid leaf index: %v, want: %v"))
      else
        let leaf' := mkLogLeaf (MerkleLeafHash leaf) (LeafIndex leaf)
                               (QueueTimestamp leaf) (Some integrateAt) in
        let* err :=
          match QueueTimestamp leaf with
          | Some qts =>
              if negb (Seconds qts =? 0) then
                match ptypes_Timestamp qts with
                | Err _ => ret (Some (Errorf "got invalid queue timestamp: %v"))
                | Ok queueTS =>
                    let* _ := emit (EvMetric seqMergeDelay label (Time_Sub now queueTS)) in
                    ret None
                end
              else ret None
          | None => ret None
          end in
        match err with
        | Some e => ret (Err e)
        | None =>
            let* rest' := prepareLeavesLoop now integrateAt begin label (i + 1) rest in
            match rest' with
            | Err e => ret (Err e)
            | Ok rest' => ret (Ok (leaf' :: rest'))
            end
        end
  end.

Definition prepareLeaves (leaves : list LogLeaf) (begin : Z) (label : Z)
  : M (result (list LogLeaf)) :=
  let* now := Now in
  match TimestampProto now with
  | Err err => ret (Err (Wrapf "got invalid integrate timestamp: %v" err))
  | Ok integrateAt => prepareLeavesLoop now integrateAt begin label 0 leaves
  end.

(** [store] of [updateCompactRange]: [nodeMap[id] = hash]. *)
Definition store (id : compact.NodeID) (hash : bytes)
           (nodeMap : gmap compact.NodeID bytes) : gmap compact.NodeID bytes :=
  <[id := hash]> nodeMap.

(** [func (s Sequencer) updateCompactRange]: its loop, and the function;
    the range is a pointer in the source, here the updated range is
    returned as well. *)
Fixpoint updateCompactRangeLoop (cr : compact.Range) (leaves : list LogLeaf)
         (nodeMap : gmap compact.NodeID bytes)
  : result (compact.Range * gmap compact.NodeID bytes) :=
  match leaves with
  | [] => Ok (cr, nodeMap)
  | leaf :: rest =>
      let idx := LeafIndex leaf in
      let size := compact.End cr in
      if (idx <? 0) || negb (idx =? i64 size) then
        Err (Errorf "leaf index mismatch: got %d, want %d")
      else
        let nodeMap1 := store (compact.NewNodeID 0 (u64 idx)) (MerkleLeafHash leaf) nodeMap in
        match compact.Append (HashChildren (hasher s)) store cr (MerkleLeafHash leaf) nodeMap1 with
        | Err err => Err err
        | Ok (cr', nodeMap2) => updateCompactRangeLoop cr' rest nodeMap2
        end
  end.

Definition updateCompactRange (cr : compact.Range) (leaves : list LogLeaf)
  : result (gmap compact.NodeID bytes * bytes * compact.Range) :=
  match updateCompactRangeLoop cr leaves ∅ with
  | Err err => Err err
  | Ok (cr', nodeMap) =>
      let '(hash, nodeMap') :=
        compact.GetRootHash (HashChildren (hasher s)) store cr' nodeMap in
      Ok (nodeMap', from_option id None hash, cr')
  end.

(** [type sequencingTask interface] *)
Record sequencingTask : Type := mksequencingTask {
  fetch : Z -> Time -> M (result (list LogLeaf));
  update : list LogLeaf -> M (option error)
}.

(** The loop of [logSequencingTask.fetch] that assigns the indices. *)
Fixpoint assignLeafIndices (treeSize : Z) (i : Z) (leaves : list LogLeaf)
  : result (list LogLeaf) :=
  match leaves with
  | [] => Ok []
  | leaf :: rest =>
      let leaf' := mkLogLeaf (MerkleLeafHash leaf) (i64 (u64 (treeSize + u64 i)))
                             (QueueTimestamp leaf) (IntegrateTimestamp leaf) in
      if LeafIndex leaf' <? 0 then Err (Errorf "%v: leaf index overflow: %d")
      else
        match assignLeafIndices treeSize (i + 1) rest with
        | Err e => Err e
        | Ok rest' => Ok (leaf' :: rest')
        end
  end.

(** [func (s *logSequencingTask) fetch] and [update] *)
Definition logSequencingTask_fetch (d : sequencingTaskData) (limit : Z) (cutoff : Time)
  : M (result (list LogLeaf)) :=
  let* start := Now in
  let* got := call (DequeueLeaves (Tx (logStorage s)) limit cutoff)
                   (fun r => [EvDequeueLeaves limit cutoff r]) in
  match got with
  | Err err => ret (Err (Wrapf "%v: Sequencer failed to dequeue leaves: %v" err))
  | Ok leaves =>
      let* _ := observeSince seqDequeueLatency (label d) start in
      ret (assignLeafIndices (treeSize d) 0 leaves)
  end.

Definition logSequencingTask_update (d : sequencingTaskData) (leaves : list LogLeaf)
  : M (option error) :=
  let* start := Now in
  let* err := call (UpdateSequencedLeaves (Tx (logStorage s)) leaves)
                   (fun r => [EvUpdateSequencedLeaves leaves r]) in
  match err with
  | Some err => ret (Some (Wrapf "%v: Sequencer failed to update sequenced leaves: %v" err))
  | None =>
      let* _ := observeSince seqUpdateLeavesLatency (label d) start in
      ret None
  end.

Definition logSequencingTask (d : sequencingTaskData) : sequencingTask :=
  mksequencingTask (logSequencingTask_fetch d) (logSequencingTask_update d).

(** [func (s *preorderedLogSequencingTask) fetch] and [update] *)
Definition preorderedLogSequencingTask_fetch (d : sequencingTaskData) (limit : Z)
           (cutoff : Time) : M (result (list LogLeaf)) :=
  let* start := Now in
  let* got := call (DequeueLeaves (Tx (logStorage s)) limit cutoff)
                   (fun r => [EvDequeueLeaves limit cutoff r]) in
  match got with
  | Err err => ret (Err (Wrapf "%v: Sequencer failed to load sequenced leaves: %v" err))
  | Ok leaves =>
      let* _ := observeSince seqDequeueLatency (label d) start in
      ret (Ok leaves)
  end.

Definition preorderedLogSequencingTask_update (d : sequencingTaskData)
           (leaves : list LogLeaf) : M (option error) :=
  ret None.

Definition preorderedLogSequencingTask (d : sequencingTaskData) : sequencingTask :=
  mksequencingTask (preorderedLogSequencingTask_fetch d)
                   (preorderedLogSequencingTask_update d).

(** [func (s Sequencer) replenishQuota] *)
Definition replenishSpecs (treeID : Z) : list quota.Spec :=
  [ quota.mkSpec quota.Tree quota.Read treeID;
    quota.mkSpec quota.Tree quota.Write treeID;
    quota.mkSpec quota.Global quota.Read 0;
    quota.mkSpec quota.Global quota.Write 0 ].

Definition replenishQuota (numLeaves : Z) (treeID : Z) : M unit :=
  if 0 <? numLeaves then
    let* factor := quotaIncreaseFactor in
    let tokens := int_of_float64 (float64_of_int numLeaves * factor)%float in
    let specs := replenishSpecs treeID in
    let* err := call (qm s tokens specs) (fun r => [EvPutTokens tokens specs r]) in
    emit (EvIncReplenished tokens specs (bool_decide (err = None)))
  else ret tt.

(** The function that [IntegrateBatch] hands to [ReadWriteTransaction],
    from the rebuilding of the compact range on: what it does when there
    are leaves to integrate or a root to sign again. *)
Definition txBodyIntegrate (tree : Tree) (currentRoot : LogRootV1) (st : sequencingTask)
           (sequencedLeaves : list LogLeaf) : M (option error * Captured) :=
  let label := TreeId tree in
  let tx := Tx (logStorage s) in
  let numLeaves := Z.of_nat (length sequencedLeaves) in
  let* stageStart := Now in
  let* cr := initCompactRangeFromStorage currentRoot in
  match cr with
  | Err err => ret (Some (Wrapf "%v: compact range init failed: %v" err), (numLeaves, None, None))
  | Ok cr =>
  let* _ := observeSince seqInitTreeLatency label stageStart in
  let* stageStart := Now in
  let* newVersion := call (WriteRevision tx) (fun r => [EvWriteRevision r]) in
  match newVersion with
  | Err err => ret (Some err, (numLeaves, None, None))
  | Ok newVersion =>
  if negb (newVersion =? i64 (i64 (Revision currentRoot) + 1)) then
    ret (Some (Errorf "%v: got writeRevision of %v, but expected %v"), (numLeaves, None, None))
  else
  let* prepared := prepareLeaves sequencedLeaves (compact.End cr) label in
  match prepared with
  | Err err => ret (Some err, (numLeaves, None, None))
  | Ok sequencedLeaves =>
  match updateCompactRange cr sequencedLeaves with
  | Err err => ret (Some err, (numLeaves, None, None))
  | Ok (nodeMap, newRoot, cr) =>
  let* _ := observeSince seqWriteTreeLatency label stageStart in
  let* err := update st sequencedLeaves in
  match err with
  | Some err => ret (Some err, (numLeaves, None, None))
  | None =>
  let* stageStart := Now in
  match buildNodesFromNodeMap nodeMap newVersion with
  | Err err =>
      ret (Some (Wrapf "%v: Failed to build target nodes in sequencer: %v" err),
           (numLeaves, None, None))
  | Ok targetNodes =>
  let* err := call (SetMerkleNodes tx targetNodes)
                   (fun r => [EvSetMerkleNodes targetNodes r]) in
  match err with
  | Some err =>
      ret (Some (Wrapf "%v: Sequencer failed to set Merkle nodes: %v" err),
           (numLeaves, None, None))
  | None =>
  let* _ := observeSince seqSetNodesLatency label stageStart in
  let* stageStart := Now in
  let newRoot := if compact.End cr =? 0 then EmptyRoot (hasher s) else newRoot in
  let* now := Now in
  let newLogRoot :=
    mkLogRootV1 (compact.End cr) newRoot (u64 (UnixNano now)) (u64 newVersion) in
  let* _ := emit (EvMetric seqTreeSize label (TreeSize newLogRoot)) in
  let* _ := emit (EvMetric seqTimestamp label
                           (Z.quot (i64 (TimestampNanos newLogRoot)) 1000000)) in
  if TimestampNanos newLogRoot <=? TimestampNanos currentRoot then
    ret (Some (Errorf "%v: refusing to sign root with timestamp earlier than previous root (%d <= %d)"),
         (numLeaves, Some newLogRoot, None))
  else
  let* signed := call (signer s newLogRoot) (fun r => [EvSignLogRoot newLogRoot r]) in
  match signed with
  | Err err =>
      ret (Some (Wrapf "%v: signer failed to sign root: %v" err),
           (numLeaves, Some newLogRoot, None))
  | Ok newSLR =>
  let* err := call (StoreSignedLogRoot tx newSLR)
                   (fun r => [EvStoreSignedLogRoot newSLR r]) in
  match err with
  | Some err =>
      ret (Some (Wrapf "%v: failed to write updated tree root: %v" err),
           (numLeaves, Some newLogRoot, Some newSLR))
  | None =>
  let* _ := observeSince seqStoreRootLatency label stageStart in
  ret (None, (numLeaves, Some newLogRoot, Some newSLR))
  end end end end end end end end end.

(** The function that [IntegrateBatch] hands to [ReadWriteTransaction],
    before its two deferred calls: up to the empty-batch check here, the
    rest in [txBodyIntegrate]. It answers its error together with the
    captured variables as it leaves them. *)
Definition txBodyMain (tree : Tree) (limit : Z)
           (guardWindow maxRootDurationInterval : Duration) (start : Time)
  : M (option error * Captured) :=
  let label := TreeId tree in
  let tx := Tx (logStorage s) in
  let* stageStart := Now in
  let* sth := call (LatestSignedLogRoot tx) (fun r => [EvLatestSignedLogRoot r]) in
  match sth with
  | Err err =>
      ret (Some (Wrapf "%v: Sequencer failed to get latest root: %v" err), (0, None, None))
  | Ok sth =>
  match UnmarshalBinary (LogRoot sth) with
  | Err err =>
      ret (Some (Wrapf "%v: Sequencer failed to unmarshal latest root: %v" err), (0, None, None))
  | Ok currentRoot =>
  let* _ := observeSince seqGetRootLatency label stageStart in
  let* _ := emit (EvMetric seqTreeSize label (TreeSize currentRoot)) in
  match RootHash currentRoot with
  | None => ret (Some ErrTreeNeedsInit, (0, None, None))
  | Some _ =>
  let taskData := mksequencingTaskData label (TreeSize currentRoot) in
  match
    match TreeType_ tree with
    | TreeType_LOG => Some (logSequencingTask taskData)
    | TreeType_PREORDERED_LOG => Some (preorderedLogSequencingTask taskData)
    | _ => None
    end
  with
  | None => ret (Some (Errorf "IntegrateBatch not supported for TreeType %v"), (0, None, None))
  | Some st =>
  let* fetched := fetch st limit (Time_Add start (i64 (- guardWindow))) in
  match fetched with
  | Err err =>
      ret (Some (Wrapf "%v: Sequencer failed to load sequenced batch: %v" err), (0, None, None))
  | Ok sequencedLeaves =>
  let numLeaves := Z.of_nat (length sequencedLeaves) in
  let* nothingToDo :=
    if numLeaves =? 0 then
      let* now := Now in
      let nowNanos := UnixNano now in
      let interval := i64 (nowNanos - i64 (TimestampNanos currentRoot)) in
      ret ((maxRootDurationInterval =? 0) || (interval <? maxRootDurationInterval))
    else ret false in
  if nothingToDo then ret (None, (numLeaves, None, None))
  else txBodyIntegrate tree currentRoot st sequencedLeaves
  end end end end end.

(** The body with its deferred calls: [seqLatency.Observe] runs first,
    [seqBatches.Inc] last. *)
Definition txBody (tree : Tree) (limit : Z)
           (guardWindow maxRootDurationInterval : Duration) (start : Time)
  : M (option error * Captured) :=
  let* r := txBodyMain tree limit guardWindow maxRootDurationInterval start in
  let* _ := observeSince seqLatency (TreeId tree) start in
  let* _ := emit (EvMetric seqBatches (TreeId tree) 1) in
  ret r.

(** Modelled from the spec: [ReadWriteTransaction] of the log storage,
    which is not among the sources. It opens a transaction on the tree and
    runs the body in it. An error of the body aborts the transaction and
    is returned; otherwise the transaction is committed, and the error of
    the commit, if any, is returned. When the transaction cannot be opened
    the body does not run. *)
Definition ReadWriteTransaction (tree : Tree) (f : M (option error * Captured))
  : M (option error * Captured) :=
  let* began := call (Begin (logStorage s) tree) (fun r => [EvBegin r]) in
  match began with
  | Some err => ret (Some err, (0, None, None))
  | None =>
      let* r := f in
      match fst r with
      | Some err =>
          let* _ := call (fun x => (tt, Rollback (Tx (logStorage s)) x))
                         (fun _ => [EvRollback]) in
          ret r
      | None =>
          let* err := call (Commit (Tx (logStorage s))) (fun r => [EvCommit r]) in
          ret (err, snd r)
      end
  end.

(** [func (s Sequencer) IntegrateBatch] *)
Definition IntegrateBatch (tree : Tree) (limit : Z)
           (guardWindow maxRootDurationInterval : Duration) : M (Z * option error) :=
  let* start := Now in
  let label := TreeId tree in
  let* r := ReadWriteTransaction tree
              (txBody tree limit guardWindow maxRootDurationInterval start) in
  let '(err, (numLeaves, newLogRoot, newSLR)) := r in
  match err with
  | Some err => ret (0, Some err)
  | None =>
      let* _ := replenishQuota numLeaves (TreeId tree) in
      let* _ := emit (EvMetric seqCounter label numLeaves) in
      ret (numLeaves, None)
  end.
End Sequencer.

(** ** An in-memory log to run the sequencer on

    A fake clock, an in-memory storage with a queue of pending leaves, a
    signer and a quota manager that can be told to fail, and a hasher that
    concatenates: the collaborators of the scenarios below. *)
Module testonly.

Definition byte_of_Z (z : Z) : Byte.byte :=
  default Byte.x00 (Byte.of_N (Z.to_N (z mod 256))).

Fixpoint be_bytes (n : nat) (z : Z) : list Byte.byte :=
  match n with
  | O => []
  | S n' => be_bytes n' (z / 256) ++ [byte_of_Z z]
  end.

Fixpoint be_value (l : list Byte.byte) (acc : Z) : Z :=
  match l with
  | [] => acc
  | b :: l' => be_value l' (acc * 256 + Z.of_N (Byte.to_N b))
  end.

(** A stand-in for the binary form of a log root: three big-endian
    [uint64] and the root hash, with a flag for a [nil] hash. *)
Definition MarshalBinary (r : LogRootV1) : bytes :=
  Some (be_bytes 8 (TreeSize r) ++ be_bytes 8 (TimestampNanos r)
        ++ be_bytes 8 (Revision r)
        ++ match RootHash r with None => [Byte.x00] | Some h => Byte.x01 :: h end).

Definition UnmarshalBinary (b : bytes) : result LogRootV1 :=
  match b with
  | None => Err (Errorf "logRootBytes nil")
  | Some l =>
      match drop 24 l with
      | [] => Err (Errorf "log root too short")
      | flag :: h =>
          Ok (mkLogRootV1 (be_value (take 8 l) 0)
                          (if decide (flag = Byte.x00) then None else Some h)
                          (be_value (take 8 (drop 8 l)) 0)
                          (be_value (take 8 (drop 16 l)) 0))
      end
  end.

Definition hasher : LogHasher :=
  mkLogHasher (fun l r => Some (Byte.x01 :: default [] l ++ default [] r))
              (Some [Byte.xee]).

Record Log : Type := mkLog {
  clock : Time;
  latest : SignedLogRoot;
  nodes : list storage.Node;
  queue : list LogLeaf;
  sequenced : list LogLeaf;
  saved : option (SignedLogRoot * list storage.Node * list LogLeaf * list LogLeaf);
  signerFails : bool;
  quotaFails : bool;
  tokens : list (Z * list quota.Spec)
}.

(** The clock answers its time and moves on by one nanosecond. *)
Definition Now (x : Log) : Time * Log :=
  (clock x, mkLog (clock x + 1) (latest x) (nodes x) (queue x) (sequenced x)
                  (saved x) (signerFails x) (quotaFails x) (tokens x)).

Definition withStore (x : Log) (l : SignedLogRoot) (n : list storage.Node)
           (q sq : list LogLeaf)
           (sv : option (SignedLogRoot * list storage.Node * list LogLeaf * list LogLeaf))
  : Log :=
  mkLog (clock x) l n q sq sv (signerFails x) (quotaFails x) (tokens x).

Definition Begin (_ : Tree) (x : Log) : option error * Log :=
  (None, withStore x (latest x) (nodes x) (queue x) (sequenced x)
                   (Some (latest x, nodes x, queue x, sequenced x))).

Definition Commit (x : Log) : option error * Log :=
  (None, withStore x (latest x) (nodes x) (queue x) (sequenced x) None).

Definition Rollback (x : Log) : Log :=
  match saved x with
  | Some (l, n, q, sq) => withStore x l n q sq None
  | None => x
  end.

(** The newest stored node of the given ID that is not newer than [rev]. *)
Definition lookupNode (rev : Z) (ns : list storage.Node) (id : storage.NodeID)
  : list storage.Node :=
  match filter (fun n => storage.Equivalent (storage.NodeID_ n) id = true
                         /\ storage.NodeRevision n <= rev) ns with
  | [] => []
  | n :: _ => [n]
  end.

Definition GetMerkleNodes (rev : Z) (ids : list storage.NodeID) (x : Log)
  : result (list storage.Node) * Log :=
  (Ok (concat (map (lookupNode rev (nodes x)) ids)), x).

(** A leaf may be dequeued when it was queued at or before the cutoff. *)
Definition queuedBefore (cutoff : Time) (leaf : LogLeaf) : bool :=
  match QueueTimestamp leaf with
  | Some ts => Seconds ts * 1000000000 + Nanos ts <=? cutoff
  | None => true
  end.

Definition DequeueLeaves (limit : Z) (cutoff : Time) (x : Log)
  : result (list LogLeaf) * Log :=
  let ready := filter (fun l => queuedBefore cutoff l = true) (queue x) in
  let batch := take (Z.to_nat limit) ready in
  let rest := drop (Z.to_nat limit) ready
              ++ filter (fun l => queuedBefore cutoff l = false) (queue x) in
  (Ok batch, withStore x (latest x) (nodes x) rest (sequenced x) (saved x)).

Definition UpdateSequencedLeaves (leaves : list LogLeaf) (x : Log)
  : option error * Log :=
  (None, withStore x (latest x) (nodes x) (queue x) (sequenced x ++ leaves) (saved x)).

Definition WriteRevision (x : Log) : result Z * Log :=
  match UnmarshalBinary (LogRoot (latest x)) with
  | Ok r => (Ok (Revision r + 1), x)
  | Err e => (Err e, x)
  end.

Definition SetMerkleNodes (ns : list storage.Node) (x : Log) : option error * Log :=
  (None, withStore x (latest x) (ns ++ nodes x) (queue x) (sequenced x) (saved x)).

Definition StoreSignedLogRoot (slr : SignedLogRoot) (x : Log) : option error * Log :=
  (None, withStore x slr (nodes x) (queue x) (sequenced x) (saved x)).

Definition SignLogRoot (r : LogRootV1) (x : Log) : result SignedLogRoot * Log :=
  if signerFails x then (Err (ErrExternal 1), x)
  else (Ok (mkSignedLogRoot (MarshalBinary r) (Some [Byte.x53])), x).

Definition PutTokens (n : Z) (specs : list quota.Spec) (x : Log) : option error * Log :=
  if quotaFails x then (Some (ErrExternal 2), x)
  else (None, mkLog (clock x) (latest x) (nodes x) (queue x) (sequenced x) (saved x)
                    (signerFails x) (quotaFails x) (tokens x ++ [(n, specs)])).

Definition sequencer : Sequencer Log :=
  mkSequencer Log hasher Now
    (mkLogStorage Log Begin
       (mkLogTreeTX Log (fun x => (Ok (latest x), x)) GetMerkleNodes DequeueLeaves
                    UpdateSequencedLeaves WriteRevision SetMerkleNodes
                    StoreSignedLogRoot Commit Rollback))
    SignLogRoot PutTokens.

(** A log as its initialisation leaves it: size 0, the empty root,
    revision 0, signed at time 0; the clock stands at [t]. *)
Definition emptyLog (t : Time) (q : list LogLeaf) : Log :=
  mkLog t (mkSignedLogRoot (MarshalBinary (mkLogRootV1 0 (EmptyRoot hasher) 0 0))
                           (Some [Byte.x53]))
        [] q [] None false false [].

Definition queued (h : Byte.byte) : LogLeaf := mkLogLeaf (Some [h]) 0 None None.

Definition logTree : Tree := mkTree 7 TreeType_LOG.

Definition run (tree : Tree) (limit : Z) (guardWindow maxRootDuration : Duration)
           (w : World Log) : Z * option error * World Log * list Event :=
  IntegrateBatch sequencer UnmarshalBinary tree limit guardWindow maxRootDuration w.

Definition latestRoot (w : World Log) : result LogRootV1 :=
  UnmarshalBinary (LogRoot (latest (ext w))).

Definition after (r : Z * option error * World Log * list Event) : World Log :=
  snd (fst r).

Definition rootOf (w : World Log) : LogRootV1 :=
  match latestRoot w with
  | Ok r => r
  | Err _ => mkLogRootV1 0 None 0 0
  end.

Definition h0 : bytes := Some [Byte.x00].
Definition h1 : bytes := Some [Byte.x01].
Definition h2 : bytes := Some [Byte.x02].
Definition h3 : bytes := Some [Byte.x03].

(** The scenarios: a fresh log with four leaves queued and the default
    [QuotaIncreaseFactor] of 1.1; E1 integrates three of them, E2 the
    fourth, E3 finds nothing to do, E4 is made to sign again. *)
Definition fresh : World Log :=
  mkWorld (emptyLog 100 [queued Byte.x00; queued Byte.x01; queued Byte.x02;
                         queued Byte.x03])
          0x1.199999999999ap+0%float.
Definition E1 := run logTree 3 0 0 fresh.
Definition E2 := run logTree 3 0 0 (after E1).
Definition E3 := run logTree 3 0 0 (after E2).
Definition E4 := run logTree 3 0 1 (after E3).

(** Two more: a log whose signer fails, with one leaf queued, and a log
    that was never initialised, of a tree that is a map. *)
Definition broken : World Log :=
  mkWorld (mkLog 100 (latest (emptyLog 100 [])) [] [queued Byte.x00] [] None true false [])
          0x1.199999999999ap+0%float.
Definition uninitialised : World Log :=
  mkWorld (mkLog 100 (mkSignedLogRoot (MarshalBinary (mkLogRootV1 0 None 0 0))
                                      (Some [Byte.x53]))
                 [] [queued Byte.x00] [] None false false [])
          0x1.199999999999ap+0%float.
Definition mapTree : Tree := mkTree 8 TreeType_MAP.
Definition E5 := run logTree 3 0 0 broken.
Definition E6 := run mapTree 3 0 0 uninitialised.

(** The transaction body of E5, in the transaction that E5 opens. *)
Definition E5begun : Log := snd (Begin logTree (snd (Now (ext broken)))).
Definition E5body :=
  txBody sequencer UnmarshalBinary logTree 3 0 0 100
         (mkWorld E5begun (QuotaIncreaseFactor broken)).

(** E3 once more, after E3. *)
Definition E3again := run logTree 3 0 0 (after E3).

(** A fetch of two leaves for a tree of [2^63 - 1] leaves. *)
Definition overflowing :=
  logSequencingTask_fetch sequencer (mksequencingTaskData 7 (2 ^ 63 - 1)) 3 100
    (mkWorld (emptyLog 100 [queued Byte.x00; queued Byte.x01]) 1%float).

(** The signed log roots and the log roots between the scenarios. *)
Definition sth0 : SignedLogRoot := latest (ext fresh).
Definition sth1 : SignedLogRoot := latest (ext (after E1)).
Definition sth2 : SignedLogRoot := latest (ext (after E2)).
Definition sth3 : SignedLogRoot := latest (ext (after E3)).
Definition sth4 : SignedLogRoot := latest (ext (after E4)).
Definition root0 : LogRootV1 := rootOf fresh.
Definition root1 : LogRootV1 := rootOf (after E1).
Definition root2 : LogRootV1 := rootOf (after E2).
Definition root3 : LogRootV1 := rootOf (after E3).
Definition root4 : LogRootV1 := rootOf (after E4).

(** What the storage of a log holds for good: the latest signed log
    root, the Merkle nodes and the sequenced leaves. *)
Definition stored (x : Log) : SignedLogRoot * list storage.Node * list LogLeaf :=
  (latest x, nodes x, sequenced x).

(** The border nodes of the tree of three leaves, as E1 stored them. *)
Definition borderIDs : list storage.NodeID :=
  [storage.mkNodeID 0 63; storage.mkNodeID 2 64].
Definition borderNodes : list storage.Node :=
  [storage.mkNode (storage.mkNodeID 0 63) (Some [Byte.x01; Byte.x00; Byte.x01]) 1;
   storage.mkNode (storage.mkNodeID 2 64) (Some [Byte.x02]) 1].
End testonly.

(** ** Vocabulary of the properties *)

(** The compact range [r] stands for the tree over [leaves]: it ends at
    their number and holds the hashes of their perfect subtrees. *)
Definition represents (h : LogHasher) (r : compact.Range) (leaves : list bytes) : Prop :=
  compact.End r = Z.of_nat (length leaves)
  /\ compact.hashes r = border (HashChildren h) (EmptyRoot h) leaves.

(** The leaves carry the indices [begin + i], [begin + i + 1], ... as
    [prepareLeaves] checks them. *)
Fixpoint aligned (begin i : Z) (leaves : list LogLeaf) : Prop :=
  match leaves with
  | [] => True
  | leaf :: rest =>
      0 <= LeafIndex leaf /\ LeafIndex leaf = i64 (u64 (begin + u64 i))
      /\ aligned begin (i + 1) rest
  end.

(** The leaves that a batch integrates, given what [DequeueLeaves] answered:
    in a normal log [fetch] numbers them, in a pre-ordered log they are
    taken as they are. *)
Definition withIndex (leaf : LogLeaf) (idx : Z) : LogLeaf :=
  mkLogLeaf (MerkleLeafHash leaf) idx (QueueTimestamp leaf) (IntegrateTimestamp leaf).

Definition withIntegrateTimestamp (ts : Timestamp) (leaf : LogLeaf) : LogLeaf :=
  mkLogLeaf (MerkleLeafHash leaf) (LeafIndex leaf) (QueueTimestamp leaf) (Some ts).

(** The computation of [interval] in the empty-batch check. *)
Definition sinceRoot (now : Time) (root : LogRootV1) : Duration :=
  i64 (UnixNano now - i64 (TimestampNanos root)).

(** The events by which the transaction writes. *)
Definition is_write (e : Event) : bool :=
  match e with
  | EvUpdateSequencedLeaves _ _ | EvSetMerkleNodes _ _ | EvStoreSignedLogRoot _ _ => true
  | _ => false
  end.

(** The events of the quota replenishment and of the counter of sequenced
    leaves. *)
Definition is_after_commit (e : Event) : bool :=
  match e with
  | EvPutTokens _ _ _ | EvIncReplenished _ _ _ | EvMetric seqCounter _ _ => true
  | _ => false
  end.

(** The calls to storage, signer and quota manager in a record, without the
    clock readings and the metrics. *)
Definition is_call (e : Event) : bool :=
  match e with
  | EvNow _ | EvMetric _ _ _ | EvIncReplenished _ _ _ => false
  | _ => true
  end.

Definition calls (tr : list Event) : list Event := List.filter is_call tr.

(** The clock readings of a record, and the one that the empty-batch check
    makes: the second reading after [DequeueLeaves], the first being that of
    the dequeue latency. *)
Fixpoint afterDequeue (tr : list Event) : list Event :=
  match tr with
  | [] => []
  | EvDequeueLeaves _ _ _ :: rest => rest
  | _ :: rest => afterDequeue rest
  end.

Fixpoint readings (tr : list Event) : list Time :=
  match tr with
  | [] => []
  | EvNow t :: rest => t :: readings rest
  | _ :: rest => readings rest
  end.

Definition emptyCheckTime (tr : list Event) : option Time :=
  match readings (afterDequeue tr) with
  | _ :: t :: _ => Some t
  | _ => None
  end.

(** [floor] of a [float64] that is a number. *)
Definition floor_float64 (f : float) : option Z :=
  match Prim2SF f with
  | S754_zero _ => Some 0
  | S754_finite sgn m e =>
      let v := if sgn then Zneg m else Zpos m in
      Some (if 0 <=? e then v * 2 ^ e else v / 2 ^ (- e))
  | _ => None
  end.

(** [max] of two [float64] that are numbers. *)
Definition max_float64 (x y : float) : float := if (x <? y)%float then y else x.

(** The events of a run of [prepareLeaves] after its clock reading. *)
Definition mergeDelays (lbl : Z) (t : list Event) : Prop :=
  Forall (fun e => exists v, e = EvMetric seqMergeDelay lbl v) t.

(** The storage IDs that [initCompactRangeFromStorage] asks for, and what it
    checks of the nodes that it is given. *)
Definition storageIDs (root : LogRootV1) : result (list storage.NodeID) :=
  mapM_result
    (fun id => storage.NewNodeIDForTreeCoords
                 (i64 (compact.Level id)) (i64 (compact.Index id)) maxTreeDepth)
    (compact.RangeNodesForPrefix (TreeSize root)).

Definition rangeChecks (h : LogHasher) (root : LogRootV1) (storIDs : list storage.NodeID)
           (nodes : list storage.Node) : Prop :=
  length nodes = length storIDs
  /\ nodeIDsMatch nodes storIDs = true
  /\ length nodes = OnesCount64 (TreeSize root)
  /\ bytes_Equal
       (from_option id None
          (fst (compact.GetRootHash (HashChildren h) compact.novisit
                  (compact.mkRange (TreeSize root) (map storage.Hash nodes)) tt)))
       (RootHash root) = true.

(** The nodes that the storage gave answer the IDs that were asked for:
    they are as many, and each has an ID equivalent to the ID asked for at
    its place. *)
Definition nodesAnswer (nodes : list storage.Node) (ids : list storage.NodeID) : Prop :=
  Forall2 (fun node id => storage.Equivalent (storage.NodeID_ node) id = true) nodes ids.

(** What [fetch] makes of the answer of [DequeueLeaves], by the type of the
    tree, and the call by which [update] persists the leaves. *)
Definition fetched (tree : Tree) (size : Z) (batch : list LogLeaf) : result (list LogLeaf) :=
  match TreeType_ tree with
  | TreeType_LOG => assignLeafIndices size 0 batch
  | TreeType_PREORDERED_LOG => Ok batch
  | _ => Err (Errorf "IntegrateBatch not supported for TreeType %v")
  end.

Definition updateCalls (tree : Tree) (leaves : list LogLeaf) : list Event :=
  match TreeType_ tree with
  | TreeType_LOG => [EvUpdateSequencedLeaves leaves None]
  | _ => []
  end.

(** The tokens that [replenishQuota] computes. *)
Definition replenishTokens (numLeaves : Z) (factor : float) : Z :=
  int_of_float64 (float64_of_int numLeaves * max_float64 factor 1)%float.

Definition is_PutTokens (e : Event) : bool :=
  match e with
  | EvPutTokens _ _ _ => true
  | _ => false
  end.

(** Whether a record is as it would be if the compact range were rebuilt
    before the batch is fetched: whenever leaves are dequeued, Merkle nodes
    have been read before. [seen] tells whether a read was met already. *)
Fixpoint rebuilt_when_fetching (seen : bool) (tr : list Event) : bool :=
  match tr with
  | [] => true
  | EvGetMerkleNodes _ _ _ :: rest => rebuilt_when_fetching true rest
  | EvDequeueLeaves _ _ _ :: rest => seen && rebuilt_when_fetching seen rest
  | _ :: rest => rebuilt_when_fetching seen rest
  end.

Definition rebuild_before_fetch (tr : list Event) : bool := rebuilt_when_fetching false tr.

(** The events of [txBodyIntegrate], and those of the whole transaction
    body. *)
Definition is_integrate_event (e : Event) : bool :=
  match e with
  | EvNow _ | EvGetMerkleNodes _ _ _ | EvWriteRevision _
  | EvUpdateSequencedLeaves _ _ | EvSetMerkleNodes _ _
  | EvSignLogRoot _ _ | EvStoreSignedLogRoot _ _ => true
  | EvMetric m _ _ =>
      match m with
      | seqCounter => false
      | _ => true
      end
  | _ => false
  end.

Definition is_body_event (e : Event) : bool :=
  match e with
  | EvLatestSignedLogRoot _ | EvDequeueLeaves _ _ _ => true
  | _ => is_integrate_event e
  end.

(** The sequencing task of a normal log, or of a pre-ordered one. *)
Definition taskOf {W : Type} (s : Sequencer W) (normal : bool) (d : sequencingTaskData)
  : sequencingTask :=
  if normal then logSequencingTask s d else preorderedLogSequencingTask s d.

(** Whether an event, if it is a read of Merkle nodes that was answered, was
    answered with the border nodes of the tree over [leaves]. *)
Definition answers_border (h : LogHasher) (leaves : list bytes) (e : Event) : bool :=
  match e with
  | EvGetMerkleNodes _ _ (Ok nodes) =>
      bool_decide (map storage.Hash nodes = border (HashChildren h) (EmptyRoot h) leaves)
  | _ => true
  end.

(** Calls of [IntegrateBatch] one after the other, from one world to
    another, each of which read a latest root, dequeued no leaves and had no
    root to sign again. *)
Inductive skipped_runs {W : Type} (s : Sequencer W) (U : bytes -> result LogRootV1)
          (tree : Tree) (limit : Z) (gw mrd : Duration) : World W -> World W -> Prop :=
| skipped_none (w : World W) : skipped_runs s U tree limit gw mrd w w
| skipped_next (w w1 w2 : World W) (n : Z) (err : option error) (tr : list Event)
               (sth : SignedLogRoot) (old : LogRootV1) (l : Z) (c : Time) :
    IntegrateBatch s U tree limit gw mrd w = (n, err, w1, tr) ->
    In (EvLatestSignedLogRoot (Ok sth)) tr ->
    U (LogRoot sth) = Ok old ->
    In (EvDequeueLeaves l c (Ok [])) tr ->
    (mrd = 0 \/ exists now, emptyCheckTime tr = Some now /\ sinceRoot now old < mrd) ->
    skipped_runs s U tree limit gw mrd w1 w2 ->
    skipped_runs s U tree limit gw mrd w w2.

(** ** Vocabulary of the further properties *)

(** The place of a call in the course of [IntegrateBatch]; what is no call
    has place 0. *)
Definition stage (e : Event) : nat :=
  match e with
  | EvBegin _ => 1
  | EvLatestSignedLogRoot _ => 2
  | EvDequeueLeaves _ _ _ => 3
  | EvGetMerkleNodes _ _ _ => 4
  | EvWriteRevision _ => 5
  | EvUpdateSequencedLeaves _ _ => 6
  | EvSetMerkleNodes _ _ => 7
  | EvSignLogRoot _ _ => 8
  | EvStoreSignedLogRoot _ _ => 9
  | EvCommit _ | EvRollback => 10
  | EvPutTokens _ _ _ => 11
  | _ => 0
  end%nat.

(** Whether a call answered an error. *)
Definition failed (e : Event) : bool :=
  match e with
  | EvBegin (Some _) | EvCommit (Some _)
  | EvLatestSignedLogRoot (Err _) | EvGetMerkleNodes _ _ (Err _)
  | EvDequeueLeaves _ _ (Err _) | EvUpdateSequencedLeaves _ (Some _)
  | EvWriteRevision (Err _) | EvSetMerkleNodes _ (Some _)
  | EvStoreSignedLogRoot _ (Some _) | EvSignLogRoot _ (Err _)
  | EvPutTokens _ _ (Some _) => true
  | _ => false
  end.

Definition is_Rollback (e : Event) : bool :=
  match e with
  | EvRollback => true
  | _ => false
  end.

(** Places in ascending order, each taken once at most and all of them
    after [lo]. *)
Fixpoint ascending (lo : nat) (places : list nat) : bool :=
  match places with
  | [] => true
  | p :: rest => (lo <? p)%nat && ascending p rest
  end.

(** Calls of which none but a rollback follows one that failed. *)
Definition at_most_rollback (cs : list Event) : bool :=
  match cs with
  | [] => true
  | [e] => is_Rollback e
  | _ => false
  end.

Fixpoint fail_stop (cs : list Event) : bool :=
  match cs with
  | [] => true
  | e :: rest => if failed e then at_most_rollback rest else fail_stop rest
  end.

(** The leaves of a batch that were queued with a timestamp that
    [prepareLeaves] looks at: one whose seconds are not zero. *)
Definition queuedAt (leaf : LogLeaf) : option Timestamp :=
  match QueueTimestamp leaf with
  | Some qts => if Seconds qts =? 0 then None else Some qts
  | None => None
  end.

(** What [prepareLeaves] asks of a leaf at place [i] of a batch that begins
    at [begin]. *)
Definition prepared (begin i : Z) (leaf : LogLeaf) : bool :=
  (0 <=? LeafIndex leaf) && (LeafIndex leaf =? i64 (u64 (begin + u64 i)))
  && match queuedAt leaf with
     | Some qts => validateTimestamp qts
     | None => true
     end.

Fixpoint all_prepared (begin i : Z) (leaves : list LogLeaf) : bool :=
  match leaves with
  | [] => true
  | leaf :: rest => prepared begin i leaf && all_prepared begin (i + 1) rest
  end.

(** The merge delays that [prepareLeaves] observes at [now]. *)
Definition mergeDelaysOf (now : Time) (lbl : Z) (leaves : list LogLeaf) : list Event :=
  omap (fun leaf =>
          match queuedAt leaf with
          | Some qts =>
              match ptypes_Timestamp qts with
              | Ok queueTS => Some (EvMetric seqMergeDelay lbl (Time_Sub now queueTS))
              | Err _ => None
              end
          | None => None
          end) leaves.

Definition is_seqCounter (e : Event) : bool :=
  match e with
  | EvMetric seqCounter _ _ => true
  | _ => false
  end.

Definition is_seqBatches (e : Event) : bool :=
  match e with
  | EvMetric seqBatches _ _ => true
  | _ => false
  end.

(** More scenarios on the fresh log: a guard window of five nanoseconds, a
    tree that is a map, and a storage that answers a write revision of 7;
    and after E1, a storage that gives the border nodes in the other
    order. *)
Module testmore.
Definition guarded := testonly.run testonly.logTree 2 5 0 testonly.fresh.
Definition mapped := testonly.run testonly.mapTree 3 0 0 testonly.fresh.

Definition staleSequencer : Sequencer testonly.Log :=
  mkSequencer testonly.Log testonly.hasher testonly.Now
    (mkLogStorage testonly.Log testonly.Begin
       (mkLogTreeTX testonly.Log (fun x => (Ok (testonly.latest x), x))
                    testonly.GetMerkleNodes testonly.DequeueLeaves
                    testonly.UpdateSequencedLeaves (fun x => (Ok 7, x))
                    testonly.SetMerkleNodes testonly.StoreSignedLogRoot
                    testonly.Commit testonly.Rollback))
    testonly.SignLogRoot testonly.PutTokens.
Definition stale :=
  IntegrateBatch staleSequencer testonly.UnmarshalBinary testonly.logTree 3 0 0
                 testonly.fresh.

Definition reorderingSequencer : Sequencer testonly.Log :=
  mkSequencer testonly.Log testonly.hasher testonly.Now
    (mkLogStorage testonly.Log testonly.Begin
       (mkLogTreeTX testonly.Log (fun x => (Ok (testonly.latest x), x))
                    (fun rev ids x =>
                       (Ok (concat (map (testonly.lookupNode rev (testonly.nodes x))
                                        (List.rev ids))), x))
                    testonly.DequeueLeaves testonly.UpdateSequencedLeaves
                    testonly.WriteRevision testonly.SetMerkleNodes
                    testonly.StoreSignedLogRoot testonly.Commit testonly.Rollback))
    testonly.SignLogRoot testonly.PutTokens.
Definition reorderedNodes : list storage.Node :=
  [storage.mkNode (storage.mkNodeID 2 64) (Some [Byte.x02]) 1;
   storage.mkNode (storage.mkNodeID 0 63) (Some [Byte.x01; Byte.x00; Byte.x01]) 1].
Definition reordered :=
  initCompactRangeFromStorage reorderingSequencer testonly.root1
                              (testonly.after testonly.E1).
End testmore.

(** ** The schema script of the test database: [storage/testdb/testdb.go]

    A Go [string] is a sequence of bytes. *)
Module testdb.
Definition gostring : Type := list Byte.byte.

(** [strings.HasPrefix] *)
Fixpoint HasPrefix (s prefix : gostring) {struct prefix} : bool :=
  match prefix, s with
  | [], _ => true
  | p :: prefix', c :: s' => bool_decide (c = p) && HasPrefix s' prefix'
  | _ :: _, [] => false
  end.

(** [strings.Index]: the index of the first instance of [substr] in [s],
    or -1. *)
Fixpoint Index (s substr : gostring) : Z :=
  if HasPrefix s substr then 0
  else match s with
       | [] => -1
       | _ :: s' => let i := Index s' substr in if i =? -1 then -1 else i + 1
       end.

(** [strings.Split] for a separator of one byte, as the file calls it:
    the pieces of [s] between the separators, one more than there are
    separators. *)
Fixpoint Split (s : gostring) (sep : Byte.byte) : list gostring :=
  match s with
  | [] => [[]]
  | c :: s' =>
      if bool_decide (c = sep) then [] :: Split s' sep
      else match Split s' sep with
           | [] => [[c]]
           | piece :: pieces => (c :: piece) :: pieces
           end
  end.

(** White space as Unicode defines it, which is what [unicode.IsSpace]
    tells: the runes U+0009 to U+000D, U+0020, U+0085, U+00A0, U+1680,
    U+2000 to U+200A, U+2028, U+2029, U+202F, U+205F and U+3000, each in
    its UTF-8 form. *)
Definition whiteSpace : list gostring :=
  [ [Byte.x09]; [Byte.x0a]; [Byte.x0b]; [Byte.x0c]; [Byte.x0d]; [Byte.x20];
    [Byte.xc2; Byte.x85]; [Byte.xc2; Byte.xa0];
    [Byte.xe1; Byte.x9a; Byte.x80];
    [Byte.xe2; Byte.x80; Byte.x80]; [Byte.xe2; Byte.x80; Byte.x81];
    [Byte.xe2; Byte.x80; Byte.x82]; [Byte.xe2; Byte.x80; Byte.x83];
    [Byte.xe2; Byte.x80; Byte.x84]; [Byte.xe2; Byte.x80; Byte.x85];
    [Byte.xe2; Byte.x80; Byte.x86]; [Byte.xe2; Byte.x80; Byte.x87];
    [Byte.xe2; Byte.x80; Byte.x88]; [Byte.xe2; Byte.x80; Byte.x89];
    [Byte.xe2; Byte.x80; Byte.x8a];
    [Byte.xe2; Byte.x80; Byte.xa8]; [Byte.xe2; Byte.x80; Byte.xa9];
    [Byte.xe2; Byte.x80; Byte.xaf]; [Byte.xe2; Byte.x81; Byte.x9f];
    [Byte.xe3; Byte.x80; Byte.x80] ].

(** The number of bytes of the rune of [runes] that [s] begins with, 0
    when it begins with none. *)
Definition runeWidth (runes : list gostring) (s : gostring) : nat :=
  match List.find (HasPrefix s) runes with
  | Some r => length r
  | None => 0%nat
  end.

(** [s] without the runes of [runes] that it begins with; [skip] bytes of
    such a rune are still to be dropped. *)
Fixpoint trimStart (runes : list gostring) (skip : nat) (s : gostring) : gostring :=
  match s with
  | [] => []
  | _ :: s' =>
      match skip with
      | S skip' => trimStart runes skip' s'
      | O => match runeWidth runes s with
             | O => s
             | S width' => trimStart runes width' s'
             end
      end
  end.

(** [strings.TrimSpace]: [s] without the white space that it begins with
    and without the white space that it ends with. Invalid UTF-8 is no
    white space. *)
Definition TrimLeft (s : gostring) : gostring := trimStart whiteSpace 0 s.
Definition TrimRight (s : gostring) : gostring :=
  rev (trimStart (map (@rev Byte.byte) whiteSpace) 0 (rev s)).
Definition TrimSpace (s : gostring) : gostring := TrimRight (TrimLeft s).

Definition newline : Byte.byte := Byte.x0a.
Definition hash : Byte.byte := Byte.x23.
Definition dashes : gostring := [Byte.x2d; Byte.x2d].

(** [func sanitize]: the test of a line that is skipped, the step of the
    loop, and the function. *)
Definition skipped (line : gostring) : bool :=
  match line with
  | [] => true
  | c :: _ => bool_decide (c = hash) || (Index line dashes =? 0)
  end.

Definition sanitizeLine (buf line : gostring) : gostring :=
  let line := TrimSpace line in
  if skipped line then buf else (buf ++ line) ++ [newline].

Definition sanitize (script : gostring) : gostring :=
  fold_left sanitizeLine (Split script newline) [].

(** A script of six lines, and what is left of it. *)
Definition script : gostring :=
  list_byte_of_string
    (String.concat (String (Ascii.ascii_of_nat 10) EmptyString)
       ["# schema"%string; "  CREATE TABLE a (x INT);  "%string; ""%string;
        "-- a table"%string; "DROP TABLE a; -- gone"%string; "   "%string]).
Definition sanitized : gostring :=
  list_byte_of_string
    (String.concat (String (Ascii.ascii_of_nat 10) EmptyString)
       ["CREATE TABLE a (x INT);"%string; "DROP TABLE a; -- gone"%string; ""%string]).
End testdb.

(** * Properties *)

(** ** The compact range against the reference Merkle tree hash *)
Section MerkleFacts.
Context {H : Type} (HashChildren : H -> H -> H) (EmptyRoot : H).

Local Abbreviation mth := (merkle_root HashChildren EmptyRoot).
Local Abbreviation border_pos := (border_pos HashChildren EmptyRoot).
Local Abbreviation border := (border HashChildren EmptyRoot).

Lemma split_point_pow2 (k b : nat) :
  (0 < b <= 2 ^ k)%nat -> split_point (2 ^ k + b) = (2 ^ k)%nat.
Proof.
  intros Hb. unfold split_point. f_equal.
  apply Nat.log2_unique; [lia | ].
  rewrite Nat.pow_succ_r'. lia.
Qed.

(** A block of [2^k] leaves followed by at most [2^k] more leaves: the
    reference hash splits exactly between the two. *)
Lemma merkle_root_app (k : nat) (A T : list H) :
  length A = (2 ^ k)%nat -> (0 < length T <= 2 ^ k)%nat ->
  mth (A ++ T) = HashChildren (mth A) (mth T).
Proof.
  intros HA HT.
  assert (Hpos : (0 < 2 ^ k)%nat) by (apply Nat.neq_0_lt_0, Nat.pow_nonzero; lia).
  destruct (A ++ T) as [|x [|y l]] eqn:E.
  - apply (f_equal length) in E. rewrite length_app in E. simpl in E. lia.
  - apply (f_equal length) in E. rewrite length_app in E. simpl in E. lia.
  - simp merkle_root. cbv zeta. rewrite <- E.
    rewrite length_app, HA, (split_point_pow2 k (length T)) by lia.
    rewrite <- HA.
    rewrite take_app_length, drop_app_length. reflexivity.
Qed.

Lemma pow2_pos (k : nat) : (0 < 2 ^ k)%nat.
Proof. apply Nat.neq_0_lt_0, Nat.pow_nonzero; lia. Qed.

(** Folding the border hashes of [front] onto the hash of a short tail
    gives the reference hash of the whole list. *)
Lemma border_pos_foldr (p : positive) : forall (lvl : nat) (front T : list H),
  length front = (Pos.to_nat p * 2 ^ lvl)%nat ->
  (0 < length T <= 2 ^ lvl)%nat ->
  foldr HashChildren (mth T) (border_pos lvl p front) = mth (front ++ T).
Proof.
  induction p as [p IH | p IH | ]; intros lvl front T Hlen HT; simpl.
  - pose proof (pow2_pos lvl) as Hp.
    rewrite Pos2Nat.inj_xI in Hlen.
    set (k := (length front - 2 ^ lvl)%nat).
    rewrite foldr_app. simpl.
    rewrite <- (merkle_root_app lvl) by (rewrite ?length_drop; lia).
    rewrite (IH (S lvl)).
    + rewrite app_assoc, take_drop. reflexivity.
    + rewrite length_take, Nat.pow_succ_r'. lia.
    + rewrite length_app, length_drop, Nat.pow_succ_r'. lia.
  - rewrite Pos2Nat.inj_xO in Hlen.
    apply IH; rewrite ?Nat.pow_succ_r'; lia.
  - symmetry. apply (merkle_root_app lvl); lia.
Qed.

(** The root computed from the border hashes is the reference hash. *)
Lemma border_pos_root (p : positive) : forall (lvl : nat) (leaves : list H),
  length leaves = (Pos.to_nat p * 2 ^ lvl)%nat ->
  exists hs h, border_pos lvl p leaves = hs ++ [h] /\
               foldr HashChildren h hs = mth leaves.
Proof.
  induction p as [p IH | p IH | ]; intros lvl leaves Hlen; simpl.
  - pose proof (pow2_pos lvl) as Hp.
    rewrite Pos2Nat.inj_xI in Hlen.
    set (k := (length leaves - 2 ^ lvl)%nat).
    eexists _, _. split; [reflexivity | ].
    rewrite (border_pos_foldr p (S lvl)).
    + rewrite take_drop. reflexivity.
    + rewrite length_take, Nat.pow_succ_r'. lia.
    + rewrite length_drop, Nat.pow_succ_r'. lia.
  - rewrite Pos2Nat.inj_xO in Hlen.
    apply IH. rewrite Nat.pow_succ_r'. lia.
  - exists [], (mth leaves). split; reflexivity.
Qed.

Section WithVisitor.
Context {S : Type} (visit : compact.NodeID -> H -> S -> S).

Local Abbreviation appendMerge := (compact.appendMerge HashChildren visit).
Local Abbreviation rootLoop := (compact.rootLoop HashChildren visit).

(** The hash that [rootLoop] returns does not depend on the visitor. *)
Lemma rootLoop_hash (lhs : list H) : forall (size : Z) (h : H) (s : S),
  fst (rootLoop lhs size h s) = foldr HashChildren h (reverse lhs).
Proof.
  induction lhs as [|x lhs IH]; intros size h s; simpl; [reflexivity | ].
  rewrite IH, reverse_cons, foldr_app. reflexivity.
Qed.

(** Appending one block of [2^lvl] leaves to the border of [front]. *)
Lemma appendMerge_border (p : positive) :
  forall (lvl fuel : nat) (level : Z) (front c : list H) (s : S),
  length front = (Pos.to_nat p * 2 ^ lvl)%nat ->
  length c = (2 ^ lvl)%nat ->
  (Pos.size_nat p <= fuel)%nat ->
  exists s', appendMerge fuel level (Zpos p)
                         (reverse (border_pos lvl p front)) (mth c) s
             = Ok (border_pos lvl (Pos.succ p) (front ++ c), s').
Proof.
  induction p as [p IH | p IH | ]; intros lvl fuel level front c s Hlen Hc Hfuel;
    pose proof (pow2_pos lvl) as Hp; simpl in Hfuel;
    (destruct fuel as [|fuel]; [lia | ]); simpl.
  - rewrite Pos2Nat.inj_xI in Hlen.
    set (k := (length front - 2 ^ lvl)%nat).
    rewrite reverse_snoc.
    rewrite <- (merkle_root_app lvl) by (rewrite ?length_drop; lia).
    edestruct (IH (Datatypes.S lvl) fuel (level + 1) (take k front) (drop k front ++ c)) as [s' Hs'].
    + rewrite length_take, Nat.pow_succ_r'. lia.
    + rewrite length_app, length_drop, Nat.pow_succ_r'. lia.
    + lia.
    + exists s'. rewrite Hs'. rewrite app_assoc, take_drop. reflexivity.
  - rewrite Pos2Nat.inj_xO in Hlen.
    eexists. rewrite reverse_involutive.
    rewrite length_app, Hc.
    replace (length front + 2 ^ lvl - 2 ^ lvl)%nat with (length front) by lia.
    rewrite take_app_length, drop_app_length. reflexivity.
  - rewrite <- (merkle_root_app lvl) by lia.
    eexists. destruct fuel; simpl; reflexivity.
Qed.
End WithVisitor.
End MerkleFacts.

(** ** Integers *)

Lemma u64_small (z : Z) : 0 <= z < 2 ^ 64 -> u64 z = z.
Proof. intros Hz. unfold u64. apply Z.mod_small. lia. Qed.

Lemma i64_small (z : Z) : - 2 ^ 63 <= z < 2 ^ 63 -> i64 z = z.
Proof. intros Hz. unfold i64. rewrite Z.mod_small; lia. Qed.

Lemma i64_high (z : Z) : 2 ^ 63 <= z < 2 ^ 64 -> i64 z = z - 2 ^ 64.
Proof.
  intros Hz. unfold i64.
  replace (z + 2 ^ 63) with (z - 2 ^ 63 + 1 * 2 ^ 64) by lia.
  rewrite Z.mod_add by lia. rewrite Z.mod_small; lia.
Qed.

Lemma u64_i64 (z : Z) : u64 (i64 z) = u64 z.
Proof.
  unfold u64, i64.
  rewrite <- Zminus_mod_idemp_l.
  rewrite Z.mod_mod by lia.
  rewrite Zminus_mod_idemp_l.
  replace (z + 2 ^ 63 - 2 ^ 63) with z by lia. reflexivity.
Qed.

Lemma u64_range (z : Z) : 0 <= u64 z < 2 ^ 64.
Proof. unfold u64. apply Z.mod_pos_bound. lia. Qed.

Lemma i64_u64_nonneg (z : Z) : 0 <= z < 2 ^ 64 -> 0 <= i64 (u64 z) -> z < 2 ^ 63.
Proof.
  intros Hz Hi. rewrite u64_small in Hi by lia.
  destruct (Z_lt_ge_dec z (2 ^ 63)) as [Hlt | Hge]; [assumption | ].
  rewrite i64_high in Hi by lia. lia.
Qed.

(** ** The compact range stands for the tree of its leaves *)

Lemma size_nat_bound (p : positive) : forall n : nat,
  Zpos p < 2 ^ Z.of_nat n -> (Pos.size_nat p <= n)%nat.
Proof.
  induction p as [p IH | p IH | ]; intros n Hn; simpl;
    (destruct n as [|n]; [simpl in Hn; lia | ]);
    rewrite Nat2Z.inj_succ, Z.pow_succ_r in Hn by lia.
  - apply le_n_S, IH. lia.
  - apply le_n_S, IH. lia.
  - lia.
Qed.

Section RangeFacts.
Context (h : LogHasher).
Context {S : Type} (visit : compact.NodeID -> bytes -> S -> S).

Local Abbreviation mth := (merkle_root (HashChildren h) (EmptyRoot h)).

Lemma represents_empty : represents h compact.NewEmptyRange [].
Proof. split; reflexivity. Qed.

Lemma Append_represents (cr : compact.Range) (L : list bytes) (x : bytes) (st : S) :
  represents h cr L -> compact.End cr < 2 ^ 63 ->
  exists cr' st',
    compact.Append (HashChildren h) visit cr x st = Ok (cr', st')
    /\ represents h cr' (L ++ [x])
    /\ compact.End cr' = compact.End cr + 1.
Proof.
  intros [Hend Hhashes] Hlt. unfold compact.Append. rewrite Hhashes, Hend.
  assert (Hu : u64 (Z.of_nat (length L) + 1) = Z.of_nat (length L) + 1)
    by (apply u64_small; lia).
  unfold border. destruct (Z.of_nat (length L)) as [|p|p] eqn:Hp; [ | | lia].
  - assert (HL : L = []) by (destruct L; [reflexivity | simpl in Hp; lia]).
    subst L. simpl.
    eexists _, _. split; [reflexivity | ]. split; [ | simpl; lia].
    split; [simpl; rewrite Hu; reflexivity | ].
    simpl. unfold border. simpl. simp merkle_root. reflexivity.
  - assert (Hlen : length L = (Pos.to_nat p * 2 ^ 0)%nat) by (simpl; lia).
    destruct (appendMerge_border (HashChildren h) (EmptyRoot h) visit p 0 64 0 L [x] st Hlen)
      as [st' Hst']; [reflexivity | apply size_nat_bound; simpl; lia | ].
    simp merkle_root in Hst'. rewrite Hst'.
    eexists _, _. split; [reflexivity | ]. split; [ | simpl; lia].
    split; simpl.
    + rewrite Hu, length_app. simpl. lia.
    + unfold border. rewrite length_app. simpl.
      replace (Z.of_nat (length L + 1)) with (Zpos (Pos.succ p)) by lia.
      reflexivity.
Qed.

Lemma GetRootHash_represents (cr : compact.Range) (L : list bytes) (st : S) :
  represents h cr L ->
  fst (compact.GetRootHash (HashChildren h) visit cr st)
  = match L with [] => None | _ => Some (mth L) end.
Proof.
  intros [Hend Hhashes]. unfold compact.GetRootHash. rewrite Hhashes.
  unfold border. destruct (Z.of_nat (length L)) as [|p|p] eqn:Hp; [ | | lia].
  - destruct L; [reflexivity | simpl in Hp; lia].
  - assert (Hlen : length L = (Pos.to_nat p * 2 ^ 0)%nat) by (simpl; lia).
    destruct (border_pos_root (HashChildren h) (EmptyRoot h) p 0 L Hlen)
      as (hs & hl & Hb & Hroot).
    rewrite Hb, reverse_snoc.
    pose proof (rootLoop_hash (HashChildren h) visit (reverse hs) (compact.End cr) hl st) as Hloop.
    destruct (compact.rootLoop _ _ _ _ _ _) as [hash st'].
    simpl in *. rewrite Hloop, reverse_involutive, Hroot.
    destruct L; [simpl in Hp; lia | reflexivity].
Qed.
End RangeFacts.

(** ** The helpers of the sequencer *)

Lemma aligned_exact (leaves : list LogLeaf) : forall (begin i : Z),
  0 <= begin -> 0 <= i -> begin + i < 2 ^ 64 ->
  aligned begin i leaves ->
  forall (k : nat) (leaf : LogLeaf), leaves !! k = Some leaf ->
    LeafIndex leaf = begin + i + Z.of_nat k /\ begin + i + Z.of_nat k < 2 ^ 63.
Proof.
  induction leaves as [|l leaves IH]; intros begin i Hb Hi Hlt Hal k leaf Hk;
    [discriminate | ].
  destruct Hal as (Hnn & Hidx & Hrest).
  rewrite (u64_small i) in Hidx by lia.
  assert (Hsmall : begin + i < 2 ^ 63).
  { apply i64_u64_nonneg; [lia | ]. rewrite <- Hidx. exact Hnn. }
  rewrite u64_small, i64_small in Hidx by lia.
  destruct k as [|k]; simpl in Hk.
  - injection Hk as <-. lia.
  - destruct (IH begin (i + 1) Hb ltac:(lia) ltac:(lia) Hrest k leaf Hk). lia.
Qed.

Lemma aligned_app (l1 l2 : list LogLeaf) : forall (begin i : Z),
  aligned begin i (l1 ++ l2) <->
  aligned begin i l1 /\ aligned begin (i + Z.of_nat (length l1)) l2.
Proof.
  induction l1 as [|a l1 IH]; intros begin i; simpl.
  - rewrite Z.add_0_r. tauto.
  - rewrite IH. replace (i + 1 + Z.of_nat (length l1)) with (i + Z.pos (Pos.of_succ_nat (length l1))) by lia.
    tauto.
Qed.

Section HelperFacts.
Context {W : Type} (s : Sequencer W).

Local Abbreviation mth := (merkle_root (HashChildren (hasher s)) (EmptyRoot (hasher s))).

(** The loop of [updateCompactRange] appends the leaf hashes one by one. *)
Lemma updateCompactRangeLoop_represents (batch : list LogLeaf) :
  forall (cr cr' : compact.Range) (L : list bytes) (nm nm' : gmap compact.NodeID bytes),
  represents (hasher s) cr L -> compact.End cr < 2 ^ 64 ->
  updateCompactRangeLoop s cr batch nm = Ok (cr', nm') ->
  represents (hasher s) cr' (L ++ map MerkleLeafHash batch)
  /\ compact.End cr' = compact.End cr + Z.of_nat (length batch)
  /\ compact.End cr' < 2 ^ 64.
Proof.
  induction batch as [|leaf batch IH]; intros cr cr' L nm nm' Hrep Hlt Hrun; simpl in Hrun.
  - injection Hrun as <- <-. rewrite app_nil_r. simpl. split; [assumption | lia].
  - destruct ((LeafIndex leaf <? 0) || negb (LeafIndex leaf =? i64 (compact.End cr))) eqn:Hchk;
      [discriminate | ].
    apply orb_false_iff in Hchk. destruct Hchk as [Hnn Heq].
    apply Z.ltb_ge in Hnn. apply negb_false_iff, Z.eqb_eq in Heq.
    assert (Hend : compact.End cr < 2 ^ 63).
    { destruct Hrep as [He _].
      apply i64_u64_nonneg; [lia | ]. rewrite u64_small by lia. lia. }
    destruct (Append_represents (hasher s) store cr L (MerkleLeafHash leaf)
                (store (compact.NewNodeID 0 (u64 (LeafIndex leaf))) (MerkleLeafHash leaf) nm)
                Hrep Hend) as (cr1 & nm1 & Happ & Hrep1 & Hend1).
    rewrite Happ in Hrun.
    destruct (IH cr1 cr' (L ++ [MerkleLeafHash leaf]) nm1 nm' Hrep1 ltac:(lia) Hrun)
      as (Hrep' & Hend' & Hlt').
    rewrite <- app_assoc in Hrep'. simpl in Hrep'.
    split; [exact Hrep' | ]. simpl length. lia.
Qed.

(** [updateCompactRange] on a range that stands for [L]: the new root is
    the reference hash of [L] followed by the batch. *)
Lemma updateCompactRange_spec (cr cr' : compact.Range) (L : list bytes)
      (batch : list LogLeaf) (nodeMap : gmap compact.NodeID bytes) (newRoot : bytes) :
  represents (hasher s) cr L -> compact.End cr < 2 ^ 64 ->
  updateCompactRange s cr batch = Ok (nodeMap, newRoot, cr') ->
  compact.End cr' = compact.End cr + Z.of_nat (length batch)
  /\ (compact.End cr' <> 0 -> newRoot = mth (L ++ map MerkleLeafHash batch)).
Proof.
  intros Hrep Hlt Hrun. unfold updateCompactRange in Hrun.
  destruct (updateCompactRangeLoop s cr batch ∅) as [[cr1 nm1] | e] eqn:Hloop;
    [ | discriminate].
  destruct (updateCompactRangeLoop_represents batch cr cr1 L ∅ nm1 Hrep Hlt Hloop)
    as (Hrep1 & Hend1 & _).
  pose proof (GetRootHash_represents (hasher s) store cr1 _ nm1 Hrep1) as Hroot.
  destruct (compact.GetRootHash _ _ cr1 nm1) as [hash nm2].
  injection Hrun as <- <- <-. simpl in Hroot.
  split; [exact Hend1 | ].
  intros Hne. rewrite Hroot.
  destruct (L ++ map MerkleLeafHash batch) eqn:HL; [ | reflexivity].
  destruct Hrep1 as [He _]. simpl in He. lia.
Qed.

(** Whatever the range holds, the loop counts the leaves it appends. *)
Lemma updateCompactRangeLoop_End (batch : list LogLeaf) :
  forall (cr cr' : compact.Range) (nm nm' : gmap compact.NodeID bytes),
  0 <= compact.End cr < 2 ^ 64 ->
  updateCompactRangeLoop s cr batch nm = Ok (cr', nm') ->
  compact.End cr' = compact.End cr + Z.of_nat (length batch)
  /\ compact.End cr' < 2 ^ 64.
Proof.
  induction batch as [|leaf batch IH]; intros cr cr' nm nm' Hend Hrun; simpl in Hrun.
  - injection Hrun as <- <-. simpl. lia.
  - destruct ((LeafIndex leaf <? 0) || negb (LeafIndex leaf =? i64 (compact.End cr))) eqn:Hchk;
      [discriminate | ].
    apply orb_false_iff in Hchk. destruct Hchk as [Hnn Heq].
    apply Z.ltb_ge in Hnn. apply negb_false_iff, Z.eqb_eq in Heq.
    assert (Hend63 : compact.End cr < 2 ^ 63).
    { apply i64_u64_nonneg; [lia | ]. rewrite u64_small by lia. lia. }
    unfold compact.Append in Hrun.
    destruct (compact.appendMerge _ _ _ _ _ _ _ _) as [[hs nm1] | e]; [ | discriminate].
    apply IH in Hrun; simpl; [ | rewrite u64_small; lia].
    simpl in Hrun. rewrite u64_small in Hrun by lia.
    simpl length. lia.
Qed.

Lemma updateCompactRange_End (cr cr' : compact.Range) (batch : list LogLeaf)
      (nodeMap : gmap compact.NodeID bytes) (newRoot : bytes) :
  0 <= compact.End cr < 2 ^ 64 ->
  updateCompactRange s cr batch = Ok (nodeMap, newRoot, cr') ->
  compact.End cr' = compact.End cr + Z.of_nat (length batch).
Proof.
  intros Hend Hrun. unfold updateCompactRange in Hrun.
  destruct (updateCompactRangeLoop s cr batch ∅) as [[cr1 nm1] | e] eqn:Hloop;
    [ | discriminate].
  apply updateCompactRangeLoop_End in Hloop; [ | exact Hend].
  destruct (compact.GetRootHash _ _ cr1 nm1) as [hash nm2].
  injection Hrun as <- <- <-. tauto.
Qed.

(** The root hash of a range does not depend on the visitor. *)
Lemma GetRootHash_visitor {S1 S2 : Type} (v1 : compact.NodeID -> bytes -> S1 -> S1)
      (v2 : compact.NodeID -> bytes -> S2 -> S2) (cr : compact.Range) (s1 : S1) (s2 : S2) :
  fst (compact.GetRootHash (HashChildren (hasher s)) v1 cr s1)
  = fst (compact.GetRootHash (HashChildren (hasher s)) v2 cr s2).
Proof.
  unfold compact.GetRootHash. destruct (reverse (compact.hashes cr)) as [|x lhs]; [reflexivity | ].
  pose proof (rootLoop_hash (HashChildren (hasher s)) v1 lhs (compact.End cr) x s1) as H1.
  pose proof (rootLoop_hash (HashChildren (hasher s)) v2 lhs (compact.End cr) x s2) as H2.
  destruct (compact.rootLoop _ v1 _ _ _ _), (compact.rootLoop _ v2 _ _ _ _).
  simpl in *. congruence.
Qed.

(** With no leaves, [updateCompactRange] answers the root of the range as
    it is. *)
Lemma updateCompactRange_nil (cr cr' : compact.Range)
      (nodeMap : gmap compact.NodeID bytes) (newRoot : bytes) :
  updateCompactRange s cr [] = Ok (nodeMap, newRoot, cr') ->
  cr' = cr
  /\ newRoot = from_option id None
                 (fst (compact.GetRootHash (HashChildren (hasher s)) compact.novisit cr tt)).
Proof.
  unfold updateCompactRange. simpl. intros Hrun.
  rewrite (GetRootHash_visitor compact.novisit store cr tt ∅).
  destruct (compact.GetRootHash _ store cr ∅) as [hash nm2].
  injection Hrun as <- <- <-. split; reflexivity.
Qed.

(** [assignLeafIndices] numbers the leaves from the tree size on, and
    fails exactly when one of the numbers is negative as an [int64]. *)
Lemma assignLeafIndices_Ok (batch : list LogLeaf) : forall (size i : Z) (leaves : list LogLeaf),
  assignLeafIndices size i batch = Ok leaves ->
  length leaves = length batch
  /\ forall (k : nat) (leaf : LogLeaf), leaves !! k = Some leaf ->
       exists queued, batch !! k = Some queued
         /\ leaf = withIndex queued (i64 (u64 (size + u64 (i + Z.of_nat k))))
         /\ 0 <= LeafIndex leaf.
Proof.
  induction batch as [|b batch IH]; intros size i leaves Hrun; simpl in Hrun.
  - injection Hrun as <-. split; [reflexivity | ]. intros k leaf Hk. discriminate.
  - destruct (i64 (u64 (size + u64 i)) <? 0) eqn:Hneg; [discriminate | ].
    apply Z.ltb_ge in Hneg.
    destruct (assignLeafIndices size (i + 1) batch) as [rest | e] eqn:Hrest; [ | discriminate].
    injection Hrun as <-.
    destruct (IH size (i + 1) rest Hrest) as [Hlen Hall].
    split; [simpl; lia | ].
    intros [|k] leaf Hk; simpl in Hk.
    + injection Hk as <-. exists b. rewrite Z.add_0_r. simpl. auto.
    + destruct (Hall k leaf Hk) as (q & Hq & Hleaf & Hnn).
      exists q. split; [exact Hq | ]. split; [ | exact Hnn].
      rewrite Hleaf.
      replace (i + 1 + Z.of_nat k) with (i + Z.of_nat (Datatypes.S k)) by lia. reflexivity.
Qed.

Lemma assignLeafIndices_Err (batch : list LogLeaf) : forall (size i : Z),
  (exists e, assignLeafIndices size i batch = Err e) <->
  (exists k : nat, (k < length batch)%nat /\ i64 (u64 (size + u64 (i + Z.of_nat k))) < 0).
Proof.
  induction batch as [|b batch IH]; intros size i; simpl.
  - split; [intros [e He]; discriminate | intros (k & Hk & _); lia].
  - destruct (i64 (u64 (size + u64 i)) <? 0) eqn:Hneg.
    + apply Z.ltb_lt in Hneg. split; [intros _ | eauto].
      exists 0%nat. rewrite Z.add_0_r. split; [lia | exact Hneg].
    + apply Z.ltb_ge in Hneg. specialize (IH size (i + 1)).
      destruct (assignLeafIndices size (i + 1) batch) as [rest | e] eqn:Hrest.
      * split; [intros [e He]; discriminate | ].
        intros ([|k] & Hk & Hnegk).
        -- rewrite Z.add_0_r in Hnegk. lia.
        -- destruct IH as [_ IH]. destruct IH as [e He]; [ | discriminate].
           exists k. split; [lia | ].
           replace (i + 1 + Z.of_nat k) with (i + Z.of_nat (Datatypes.S k)) by lia. exact Hnegk.
      * split; [intros _ | eauto].
        destruct IH as [IH _]. destruct IH as (k & Hk & Hnegk); [eauto | ].
        exists (Datatypes.S k). split; [lia | ].
        replace (i + Z.of_nat (Datatypes.S k)) with (i + 1 + Z.of_nat k) by lia. exact Hnegk.
Qed.
(** [prepareLeaves] reads the clock once and then only observes merge
    delays; when it succeeds the leaves were aligned, and they come back
    stamped. *)
Lemma prepareLeavesLoop_spec (leaves : list LogLeaf) :
  forall (now : Time) (ia : Timestamp) (begin lbl i : Z) (w : World W),
  exists r t,
    prepareLeavesLoop now ia begin lbl i leaves w = (r, w, t)
    /\ mergeDelays lbl t
    /\ forall leaves', r = Ok leaves' ->
         leaves' = map (withIntegrateTimestamp ia) leaves /\ aligned begin i leaves.
Proof.
  induction leaves as [|leaf leaves IH]; intros now ia begin lbl i w; simpl.
  - eexists _, _. split; [reflexivity | ]. split; [constructor | ].
    intros leaves' [= <-]. split; [reflexivity | exact I].
  - destruct ((LeafIndex leaf <? 0) || negb (LeafIndex leaf =? i64 (u64 (begin + u64 i)))) eqn:Hchk.
    + eexists _, _. split; [reflexivity | ]. split; [constructor | ]. intros leaves' [=].
    + apply orb_false_iff in Hchk. destruct Hchk as [Hnn Heq].
      apply Z.ltb_ge in Hnn. apply negb_false_iff, Z.eqb_eq in Heq.
      destruct (IH now ia begin lbl (i + 1) w) as (r & t & Hrun & Ht & Hr).
      unfold mergeDelays in *. unfold bind.
      assert (Hstamp : forall q, QueueTimestamp leaf = q ->
                mkLogLeaf (MerkleLeafHash leaf) (LeafIndex leaf) q (Some ia)
                = withIntegrateTimestamp ia leaf)
        by (intros q <-; reflexivity).
      destruct (QueueTimestamp leaf) as [qts | ] eqn:Hq;
        [destruct (negb (Seconds qts =? 0)); [destruct (ptypes_Timestamp qts) | ] | ];
        cbn [bind ret emit]; rewrite ?Hrun; try rewrite (Hstamp _ eq_refl).
      all: try (destruct r as [rest | e]; cbn [ret app]; rewrite ?app_nil_r;
                eexists _, _; (split; [reflexivity | ]);
                (split; [first [exact Ht | constructor; [eauto | exact Ht]] | ]);
                intros leaves' Hl; [ | discriminate Hl];
                injection Hl as <-; destruct (Hr rest eq_refl) as [-> Hal];
                split; [reflexivity | simpl; auto]).
      eexists _, _. split; [reflexivity | ]. split; [constructor | ]. intros leaves' [=].
Qed.

Lemma prepareLeaves_spec (leaves : list LogLeaf) (begin lbl : Z) (w : World W) :
  exists now x r t,
    timeSource s (ext w) = (now, x)
    /\ prepareLeaves s leaves begin lbl w
       = (r, mkWorld x (QuotaIncreaseFactor w), EvNow now :: t)
    /\ mergeDelays lbl t
    /\ forall leaves', r = Ok leaves' ->
         exists ia, leaves' = map (withIntegrateTimestamp ia) leaves
                    /\ aligned begin 0 leaves.
Proof.
  unfold prepareLeaves, bind, Now, call.
  destruct (timeSource s (ext w)) as [now x] eqn:Hclk.
  exists now, x.
  destruct (TimestampProto now) as [ia | e].
  - destruct (prepareLeavesLoop_spec leaves now ia begin lbl 0
                (mkWorld x (QuotaIncreaseFactor w))) as (r & t & Hrun & Ht & Hr).
    rewrite Hrun. exists r, t. split; [reflexivity | ]. split; [reflexivity | ].
    split; [exact Ht | ]. intros leaves' Hl. exists ia. apply Hr, Hl.
  - eexists _, []. split; [reflexivity | ]. split; [reflexivity | ].
    split; [constructor | ]. intros leaves' [=].
Qed.

(** [initCompactRangeFromStorage]: nothing is read for an empty tree; for
    another tree the border nodes are read once, and the range is only
    answered when the count, the IDs and the root hash are right. *)
Ltac init_fails Hget :=
  eexists; split; [reflexivity | split; [exact Hget | split; [reflexivity | intros ? [=]]]].

Lemma initCompactRangeFromStorage_spec (root : LogRootV1) (w : World W) :
  (TreeSize root = 0
   /\ initCompactRangeFromStorage s root w = (Ok compact.NewEmptyRange, w, []))
  \/ (TreeSize root <> 0
      /\ exists e, initCompactRangeFromStorage s root w = (Err e, w, []))
  \/ (TreeSize root <> 0
      /\ exists storIDs got x r,
           storageIDs root = Ok storIDs
           /\ GetMerkleNodes (Tx (logStorage s)) (i64 (Revision root)) storIDs (ext w) = (got, x)
           /\ initCompactRangeFromStorage s root w
              = (r, mkWorld x (QuotaIncreaseFactor w),
                 [EvGetMerkleNodes (i64 (Revision root)) storIDs got])
           /\ forall cr, r = Ok cr ->
                exists nodes, got = Ok nodes
                  /\ rangeChecks (hasher s) root storIDs nodes
                  /\ cr = compact.mkRange (TreeSize root) (map storage.Hash nodes)).
Proof.
  unfold initCompactRangeFromStorage.
  destruct (TreeSize root =? 0) eqn:Hsize.
  - left. apply Z.eqb_eq in Hsize. split; [exact Hsize | reflexivity].
  - right. apply Z.eqb_neq in Hsize. fold (storageIDs root).
    destruct (storageIDs root) as [storIDs | e] eqn:Hids.
    + right. split; [exact Hsize | ].
      unfold bind, call.
      destruct (GetMerkleNodes (Tx (logStorage s)) (i64 (Revision root)) storIDs (ext w))
        as [got x] eqn:Hget.
      exists storIDs, got, x.
      destruct got as [nodes | e]; [ | init_fails Hget].
      destruct (negb (length nodes =? length storIDs)%nat) eqn:Hlen; [init_fails Hget | ].
      destruct (negb (nodeIDsMatch nodes storIDs)) eqn:Hmatch; [init_fails Hget | ].
      unfold compact.NewRange.
      destruct (decide (length (map storage.Hash nodes) = OnesCount64 (TreeSize root)))
        as [Hcount | Hcount]; [ | init_fails Hget].
      destruct (compact.GetRootHash _ _ _ _) as [hash u] eqn:Hroot.
      destruct (negb (bytes_Equal (from_option id None hash) (RootHash root))) eqn:Heq;
        [init_fails Hget | ].
      eexists. split; [reflexivity | ]. split; [exact Hget | ]. split; [reflexivity | ].
      intros cr [= <-]. exists nodes. split; [reflexivity | ]. split; [ | reflexivity].
      apply negb_false_iff in Hlen, Hmatch, Heq. apply Nat.eqb_eq in Hlen.
      rewrite length_map in Hcount.
      unfold rangeChecks. rewrite Hroot. simpl. auto.
    + left. split; [exact Hsize | ]. eexists. reflexivity.
Qed.
End HelperFacts.

Lemma u64_i64_add (z k : Z) : u64 (i64 z + k) = u64 (z + k).
Proof.
  unfold u64 at 1. rewrite <- Zplus_mod_idemp_l.
  fold (u64 (i64 z)). rewrite u64_i64. unfold u64.
  rewrite Zplus_mod_idemp_l. reflexivity.
Qed.

Lemma assignLeafIndices_hashes (batch : list LogLeaf) : forall (size i : Z) (leaves : list LogLeaf),
  assignLeafIndices size i batch = Ok leaves ->
  map MerkleLeafHash leaves = map MerkleLeafHash batch.
Proof.
  induction batch as [|b batch IH]; intros size i leaves Hrun; simpl in Hrun.
  - injection Hrun as <-. reflexivity.
  - destruct (i64 (u64 (size + u64 i)) <? 0); [discriminate | ].
    destruct (assignLeafIndices size (i + 1) batch) as [rest | e] eqn:Hrest; [ | discriminate].
    injection Hrun as <-. simpl. f_equal. eapply IH, Hrest.
Qed.

Lemma assignLeafIndices_aligned (batch : list LogLeaf) : forall (size i : Z) (leaves : list LogLeaf),
  assignLeafIndices size i batch = Ok leaves -> aligned size i leaves.
Proof.
  induction batch as [|b batch IH]; intros size i leaves Hrun; simpl in Hrun.
  - injection Hrun as <-. exact I.
  - destruct (i64 (u64 (size + u64 i)) <? 0) eqn:Hneg; [discriminate | ].
    apply Z.ltb_ge in Hneg.
    destruct (assignLeafIndices size (i + 1) batch) as [rest | e] eqn:Hrest; [ | discriminate].
    injection Hrun as <-. simpl. split; [exact Hneg | ]. split; [reflexivity | ].
    eapply IH, Hrest.
Qed.

Lemma fetched_facts (tree : Tree) (size : Z) (batch leaves : list LogLeaf) :
  fetched tree size batch = Ok leaves ->
  length leaves = length batch
  /\ map MerkleLeafHash leaves = map MerkleLeafHash batch.
Proof.
  unfold fetched. destruct (TreeType_ tree); try discriminate.
  - intros Hrun. split.
    + apply assignLeafIndices_Ok in Hrun. tauto.
    + eapply assignLeafIndices_hashes, Hrun.
  - intros [= <-]. split; reflexivity.
Qed.

Lemma map_hash_stamped (ia : Timestamp) (leaves : list LogLeaf) :
  map MerkleLeafHash (map (withIntegrateTimestamp ia) leaves) = map MerkleLeafHash leaves.
Proof. rewrite map_map. reflexivity. Qed.

(** [int(f)] is the floor of [f] when that is a non-negative [int]. *)
Lemma int_of_float64_floor (f : float) (t : Z) :
  floor_float64 f = Some t -> 0 <= t <= MaxInt64 -> int_of_float64 f = t.
Proof.
  unfold floor_float64, int_of_float64, MaxInt64, MinInt64.
  destruct (Prim2SF f) as [sg | sg | | sg m e]; try discriminate.
  - intros [= <-] _. reflexivity.
  - intros [= <-] Ht. destruct sg.
    + exfalso. destruct (0 <=? e) eqn:He.
      * apply Z.leb_le in He.
        assert (0 < 2 ^ e) by (apply Z.pow_pos_nonneg; lia). nia.
      * apply Z.leb_gt in He.
        assert (0 < 2 ^ (- e)) by (apply Z.pow_pos_nonneg; lia).
        assert (Z.neg m / 2 ^ (- e) < 0) by (apply Z.div_lt_upper_bound; lia).
        lia.
    + destruct (0 <=? e);
        match goal with |- (if ?c then _ else _) = _ =>
          replace c with true; [reflexivity | ]
        end;
        symmetry; apply andb_true_iff; split; apply Z.leb_le; lia.
Qed.

(** ** Running the sequencer step by step *)

Ltac bool_facts :=
  repeat match goal with
  | H : negb _ = true |- _ => apply negb_true_iff in H
  | H : negb _ = false |- _ => apply negb_false_iff in H
  | H : _ || _ = false |- _ => apply orb_false_iff in H; destruct H
  | H : _ && _ = true |- _ => apply andb_true_iff in H; destruct H
  | H : (_ =? _) = true |- _ => apply Z.eqb_eq in H
  | H : (_ =? _) = false |- _ => apply Z.eqb_neq in H
  | H : (_ <? _) = true |- _ => apply Z.ltb_lt in H
  | H : (_ <? _) = false |- _ => apply Z.ltb_ge in H
  | H : (_ <=? _) = true |- _ => apply Z.leb_le in H
  | H : (_ <=? _) = false |- _ => apply Z.leb_gt in H
  end.

Ltac run_cbn H :=
  repeat progress
    (cbv beta iota zeta
         delta [bind ret emit call Now observeSince
                logSequencingTask_fetch logSequencingTask_update
                preorderedLogSequencingTask_fetch preorderedLogSequencingTask_update
                replenishQuota quotaIncreaseFactor] in H;
     cbn [fetch update taskOf logSequencingTask preorderedLogSequencingTask
          fst snd app ext QuotaIncreaseFactor label treeSize
          TreeSize RootHash TimestampNanos Revision] in H).

(** One step: the next call whose answer decides how the run goes on. The
    helpers that have a lemma of their own are not entered. *)
Ltac run_step H :=
  match type of H with
  | context [prepareLeaves ?s ?l ?b ?lbl ?w] =>
      let now := fresh "now" in
      let x := fresh "x" in
      let r := fresh "prepared" in
      let t := fresh "tprep" in
      let Hclk := fresh "Hclk" in
      let Hrun := fresh "Hprep" in
      let Hmd := fresh "Hmd" in
      let Hres := fresh "Hprepared" in
      destruct (prepareLeaves_spec s l b lbl w) as (now & x & r & t & Hclk & Hrun & Hmd & Hres);
      rewrite Hrun in H; clear Hrun
  | context [initCompactRangeFromStorage ?s ?root ?w] =>
      let Hsz := fresh "Hsize" in
      let Hi := fresh "Hinit" in
      let e := fresh "e" in
      let ids := fresh "storIDs" in
      let got := fresh "got" in
      let x := fresh "x" in
      let r := fresh "range" in
      let Hids := fresh "Hids" in
      let Hget := fresh "Hget" in
      let Hcr := fresh "Hrange" in
      destruct (initCompactRangeFromStorage_spec s root w)
        as [[Hsz Hi] | [[Hsz [e Hi]] | [Hsz (ids & got & x & r & Hids & Hget & Hi & Hcr)]]];
      rewrite Hi in H; clear Hi
  | context [txBodyIntegrate ?s ?tree ?root ?st ?leaves ?w] =>
      let r := fresh "r" in
      let c := fresh "c" in
      let w2 := fresh "w" in
      let t := fresh "tint" in
      let E := fresh "Hint" in
      destruct (txBodyIntegrate s tree root st leaves w) as [[[r c] w2] t] eqn:E
  | context [txBody ?s ?U ?tree ?limit ?gw ?mrd ?start ?w] =>
      let r := fresh "r" in
      let c := fresh "c" in
      let w2 := fresh "w" in
      let t := fresh "tbody" in
      let E := fresh "Hbody" in
      destruct (txBody s U tree limit gw mrd start w) as [[[r c] w2] t] eqn:E
  | context [signer ?s ?r ?w] =>
      let E := fresh "E" in
      destruct (signer s r w) eqn:E
  | context [match ?x with _ => _ end] =>
      lazymatch x with
      | context [match _ with _ => _ end] => fail
      | compact.End _ =? 0 => fail
      | _ => idtac
      end;
      let E := fresh "E" in
      destruct x eqn:E
  end;
  run_cbn H.

Ltac run H := run_cbn H; repeat run_step H.

Ltac end_run H := injection H; clear H; intros; subst.

(** An event looked up in an explicit record. *)
Ltac find_event H :=
  repeat match type of H with
  | In _ (_ ++ _) => apply in_app_or in H; destruct H as [H | H]
  | In _ (_ :: _) => destruct H as [H | H]; [try discriminate H | ]
  | In _ [] => destruct H
  | In ?e ?t =>
      match goal with
      | Hmd : mergeDelays _ t |- _ =>
          let v := fresh "v" in
          let Hv := fresh "Hv" in
          destruct (proj1 (Stdlib.Lists.List.Forall_forall _ _) Hmd _ H) as [v Hv];
          clear H; try discriminate Hv
      | Hkind : Forall (fun e => _ = true) t |- _ =>
          apply (proj1 (Stdlib.Lists.List.Forall_forall _ _) Hkind) in H;
          try discriminate H
      end
  end.

(** No event of a kind in an explicit record. *)
Ltac no_such_event :=
  repeat match goal with
  | |- Forall _ [] => constructor
  | |- Forall _ (_ :: _) => constructor; [reflexivity | ]
  | |- Forall _ (_ ++ _) => apply Forall_app; split
  | Hmd : mergeDelays _ ?t |- Forall _ ?t =>
      eapply Forall_impl; [exact Hmd | intros ? [? ->]; reflexivity]
  | Hkind : Forall _ ?t |- Forall _ ?t =>
      eapply Forall_impl; [exact Hkind | intros [] ?; try discriminate; first [reflexivity | assumption]]
  end.

Section IntegrateFacts.
Context {W : Type} (s : Sequencer W).

Lemma calls_app (t1 t2 : list Event) : calls (t1 ++ t2) = calls t1 ++ calls t2.
Proof. apply List.filter_app. Qed.

Lemma calls_mergeDelays (lbl : Z) (t : list Event) :
  mergeDelays lbl t -> List.filter is_call t = [].
Proof.
  induction 1 as [|e t [v ->] _ IH]; [reflexivity | ]. simpl. exact IH.
Qed.

Lemma In_calls (e : Event) (tr : list Event) :
  In e tr -> is_call e = true -> In e (calls tr).
Proof. intros Hin Hcall. apply List.filter_In. split; assumption. Qed.

(** All that [txBodyIntegrate] does is of its own kind of events, and it
    leaves [QuotaIncreaseFactor] alone. *)
Lemma txBodyIntegrate_events (tree : Tree) (old : LogRootV1) (normal : bool)
      (d : sequencingTaskData) (leaves : list LogLeaf) (w w' : World W)
      (r : option error * Captured) (tr : list Event) :
  txBodyIntegrate s tree old (taskOf s normal d) leaves w = (r, w', tr) ->
  Forall (fun e => is_integrate_event e = true) tr
  /\ QuotaIncreaseFactor w' = QuotaIncreaseFactor w.
Proof.
  intros Hrun. unfold txBodyIntegrate in Hrun. destruct normal.
  all: run Hrun; end_run Hrun.
  all: split; [no_such_event | reflexivity].
Qed.
(** What [txBodyIntegrate] went through when it answers no error. *)
Lemma txBodyIntegrate_success (tree : Tree) (old : LogRootV1) (normal : bool)
      (d : sequencingTaskData) (leaves : list LogLeaf) (w w' : World W)
      (c : Captured) (tr : list Event) :
  txBodyIntegrate s tree old (taskOf s normal d) leaves w = ((None, c), w', tr) ->
  exists cr reads v ia nodeMap newRoot cr' targetNodes now new slr,
    ((TreeSize old = 0 /\ cr = compact.NewEmptyRange /\ reads = [])
     \/ (TreeSize old <> 0
         /\ exists ids nodes,
              storageIDs old = Ok ids
              /\ reads = [EvGetMerkleNodes (i64 (Revision old)) ids (Ok nodes)]
              /\ rangeChecks (hasher s) old ids nodes
              /\ cr = compact.mkRange (TreeSize old) (map storage.Hash nodes)))
    /\ v = i64 (i64 (Revision old) + 1)
    /\ aligned (compact.End cr) 0 leaves
    /\ updateCompactRange s cr (map (withIntegrateTimestamp ia) leaves)
       = Ok (nodeMap, newRoot, cr')
    /\ buildNodesFromNodeMap nodeMap v = Ok targetNodes
    /\ new = mkLogRootV1 (compact.End cr')
                         (if compact.End cr' =? 0 then EmptyRoot (hasher s) else newRoot)
                         (u64 (UnixNano now)) (u64 v)
    /\ TimestampNanos old < TimestampNanos new
    /\ c = (Z.of_nat (length leaves), Some new, Some slr)
    /\ calls tr = reads ++ [EvWriteRevision (Ok v)]
                  ++ (if normal
                      then [EvUpdateSequencedLeaves (map (withIntegrateTimestamp ia) leaves) None]
                      else [])
                  ++ [EvSetMerkleNodes targetNodes None; EvSignLogRoot new (Ok slr);
                      EvStoreSignedLogRoot slr None].
Proof.
  intros Hrun. unfold txBodyIntegrate in Hrun. destruct normal.
  all: run_cbn Hrun; repeat (run_step Hrun; try discriminate Hrun).
  all: end_run Hrun; bool_facts.
  all: repeat match goal with
       | H : forall cr, Ok _ = Ok cr -> exists nodes, _ |- _ =>
           destruct (H _ eq_refl) as (? & -> & ? & ->); clear H
       | H : forall leaves', Ok _ = Ok leaves' -> exists ia, _ |- _ =>
           destruct (H _ eq_refl) as (? & -> & ?); clear H
       end.
  all: do 11 eexists.
  all: split;
         [first [ left; split; [assumption | split; reflexivity]
                | right; split; [assumption | ];
                  eexists _, _; split; [eassumption | ];
                  split; [reflexivity | ]; split; [eassumption | reflexivity] ]
         | ].
  all: split; [eassumption | ].
  all: split; [eassumption | ].
  all: split; [eassumption | ].
  all: split; [eassumption | ].
  all: split; [reflexivity | ].
  all: split; [cbn [TimestampNanos]; eassumption | ].
  all: split; [reflexivity | ].
  all: unfold calls; cbn [List.filter is_call app];
       rewrite ?List.filter_app, ?(calls_mergeDelays _ _ ltac:(eassumption));
       cbn [List.filter is_call app]; reflexivity.
Qed.

(** When [txBodyIntegrate] reads the border nodes, it is for a tree that
    is not empty; and then either the checks of the nodes pass, or it
    answers an error and makes no call that writes. *)
Lemma txBodyIntegrate_reads (tree : Tree) (old : LogRootV1) (normal : bool)
      (d : sequencingTaskData) (leaves : list LogLeaf) (w w' : World W)
      (r : option error) (c : Captured) (tr : list Event)
      (rev : Z) (ids : list storage.NodeID) (got : result (list storage.Node)) :
  txBodyIntegrate s tree old (taskOf s normal d) leaves w = ((r, c), w', tr) ->
  In (EvGetMerkleNodes rev ids got) tr ->
  TreeSize old <> 0
  /\ storageIDs old = Ok ids
  /\ rev = i64 (Revision old)
  /\ ((exists nodes, got = Ok nodes /\ rangeChecks (hasher s) old ids nodes)
      \/ (r <> None /\ Forall (fun e => is_write e = false) tr)).
Proof.
  intros Hrun Hget. unfold txBodyIntegrate in Hrun. destruct normal.
  all: run Hrun; end_run Hrun; find_event Hget.
  all: injection Hget as <- <- <-.
  all: split; [assumption | ]; split; [assumption | ]; split; [reflexivity | ].
  all: first [ left;
               match goal with H : forall cr, Ok _ = Ok cr -> _ |- _ =>
                 destruct (H _ eq_refl) as (nodes & -> & Hc & _) end;
               exists nodes; split; [reflexivity | exact Hc]
             | right; split; [discriminate | ]; no_such_event ].
Qed.
End IntegrateFacts.

Lemma emptyCheckTime_app (t1 t2 : list Event) (x : Time) :
  emptyCheckTime t1 = Some x -> emptyCheckTime (t1 ++ t2) = Some x.
Proof.
  unfold emptyCheckTime.
  assert (Hreadings : forall a b, readings (a ++ b) = readings a ++ readings b).
  { induction a as [|e a IH]; intros b; [reflexivity | ].
    destruct e; simpl; rewrite ?IH; reflexivity. }
  induction t1 as [|e t1 IH]; [discriminate | ].
  destruct e; simpl; try exact IH.
  rewrite Hreadings.
  destruct (readings t1) as [|a [|b rest]]; try discriminate.
  intros [= <-]. reflexivity.
Qed.

(** With which task a call of [txBodyIntegrate] was made. *)
Ltac integrate_fact lemma Hint :=
  lazymatch type of Hint with
  | txBodyIntegrate _ _ _ (logSequencingTask _ _) _ _ = _ =>
      pose proof (lemma _ _ _ true _ _ _ _ _ _ Hint)
  | txBodyIntegrate _ _ _ (preorderedLogSequencingTask _ _) _ _ = _ =>
      pose proof (lemma _ _ _ false _ _ _ _ _ _ Hint)
  end.

(** The record of a run, split at its dequeue. *)
Ltac split_at_dequeue L k :=
  lazymatch L with
  | EvDequeueLeaves ?l ?c (Ok ?b) :: ?rest => k (@nil Event) l c b rest
  | ?x :: ?rest => split_at_dequeue rest ltac:(fun p l c b q => k (x :: p) l c b q)
  end.

Section BodyFacts.
Context {W : Type} (s : Sequencer W) (U : bytes -> result LogRootV1).

(** All that the transaction body does is of its own kind of events, and
    it leaves [QuotaIncreaseFactor] alone. *)
Lemma txBody_events (tree : Tree) (limit : Z) (gw mrd : Duration) (start : Time)
      (w w' : World W) (r : option error * Captured) (tr : list Event) :
  txBody s U tree limit gw mrd start w = (r, w', tr) ->
  Forall (fun e => is_body_event e = true) tr
  /\ QuotaIncreaseFactor w' = QuotaIncreaseFactor w.
Proof.
  intros Hrun. unfold txBody, txBodyMain in Hrun.
  run Hrun; end_run Hrun.
  all: try match goal with Hint : txBodyIntegrate _ _ _ _ _ _ = _ |- _ =>
         integrate_fact (@txBodyIntegrate_events W) Hint
       end.
  all: try match goal with
       | H : Forall _ _ /\ _ |- _ =>
           destruct H as [Hkind Hq]; cbn [QuotaIncreaseFactor] in Hq
       end.
  all: split; [no_such_event | cbn [QuotaIncreaseFactor]; congruence].
Qed.

(** What the transaction body went through when it answers no error:
    either it found nothing to do, or it integrated the batch. *)
Lemma txBody_success (tree : Tree) (limit : Z) (gw mrd : Duration) (start : Time)
      (w w' : World W) (c : Captured) (tr : list Event) :
  txBody s U tree limit gw mrd start w = ((None, c), w', tr) ->
  exists sth old cutoff batch leaves,
    U (LogRoot sth) = Ok old
    /\ fetched tree (TreeSize old) batch = Ok leaves
    /\ fst (fst c) = Z.of_nat (length leaves)
    /\ ((leaves = []
         /\ (exists now, emptyCheckTime tr = Some now
                         /\ (mrd = 0 \/ sinceRoot now old < mrd))
         /\ calls tr = [EvLatestSignedLogRoot (Ok sth);
                        EvDequeueLeaves limit cutoff (Ok batch)])
        \/ (exists cr reads v ia nodeMap newRoot cr' targetNodes now new slr,
              (leaves = [] ->
               exists t, emptyCheckTime tr = Some t /\ mrd <> 0 /\ mrd <= sinceRoot t old)
              /\ ((TreeSize old = 0 /\ cr = compact.NewEmptyRange /\ reads = [])
                  \/ (TreeSize old <> 0
                      /\ exists ids nodes,
                           storageIDs old = Ok ids
                           /\ reads = [EvGetMerkleNodes (i64 (Revision old)) ids (Ok nodes)]
                           /\ rangeChecks (hasher s) old ids nodes
                           /\ cr = compact.mkRange (TreeSize old) (map storage.Hash nodes)))
              /\ v = i64 (i64 (Revision old) + 1)
              /\ aligned (compact.End cr) 0 leaves
              /\ updateCompactRange s cr (map (withIntegrateTimestamp ia) leaves)
                 = Ok (nodeMap, newRoot, cr')
              /\ buildNodesFromNodeMap nodeMap v = Ok targetNodes
              /\ new = mkLogRootV1 (compact.End cr')
                                   (if compact.End cr' =? 0 then EmptyRoot (hasher s)
                                    else newRoot)
                                   (u64 (UnixNano now)) (u64 v)
              /\ TimestampNanos old < TimestampNanos new
              /\ calls tr = [EvLatestSignedLogRoot (Ok sth);
                             EvDequeueLeaves limit cutoff (Ok batch)]
                            ++ reads ++ [EvWriteRevision (Ok v)]
                            ++ updateCalls tree (map (withIntegrateTimestamp ia) leaves)
                            ++ [EvSetMerkleNodes targetNodes None;
                                EvSignLogRoot new (Ok slr);
                                EvStoreSignedLogRoot slr None])).
Proof.
  intros Hrun. unfold txBody, txBodyMain in Hrun.
  run_cbn Hrun; repeat (run_step Hrun; try discriminate Hrun).
  all: end_run Hrun; bool_facts.
  all: try match goal with Hint : txBodyIntegrate _ _ _ _ _ _ = _ |- _ =>
         integrate_fact (@txBodyIntegrate_success W) Hint; clear Hint
       end.
  all: try match goal with
       | H : exists cr, _ |- _ =>
           destruct H as (cr & reads & v & ia & nodeMap & newRoot & cr' & targetNodes & now
                          & new & slr & Hinit & Hv & Hal & Hupd & Hbuild & Hnew & Hts & Hc
                          & Hcalls)
       end.
  all: do 5 eexists; (split; [eassumption | ]);
       (split; [unfold fetched; match goal with H : TreeType_ _ = _ |- _ => rewrite H end;
                first [eassumption | reflexivity] | ]).
  all: try subst c; cbn [fst snd]; (split; [reflexivity | ]).
  all: try solve [left; split;
                  [match goal with
                   | H : Z.of_nat (length ?l) = 0 |- _ => destruct l; [reflexivity | simpl in H; lia]
                   end | ];
                  split;
                  [eexists; split; [reflexivity | unfold sinceRoot; lia] | reflexivity]].
  all: right; exists cr, reads, v, ia, nodeMap, newRoot, cr', targetNodes, now, new, slr.
  all: split;
         [first [ solve [intros Hnil; subst; simpl in *; lia]
                | intros _; eexists; split; [reflexivity | unfold sinceRoot; split; assumption] ]
         | ].
  all: do 7 (split; [assumption | ]).
  all: unfold calls, updateCalls;
       match goal with H : TreeType_ _ = _ |- _ => rewrite H end;
       cbn [List.filter is_call app];
       rewrite ?List.filter_app; fold (calls tint); rewrite Hcalls;
       cbn [List.filter is_call app]; rewrite ?List.app_nil_r; reflexivity.
Qed.

(** A latest root without a root hash: the body answers
    [ErrTreeNeedsInit] before it fetches anything. *)
Lemma txBody_needs_init (tree : Tree) (limit : Z) (gw mrd : Duration) (start : Time)
      (w w' : World W) (r : option error) (c : Captured) (tr : list Event)
      (sth : SignedLogRoot) (old : LogRootV1) :
  txBody s U tree limit gw mrd start w = ((r, c), w', tr) ->
  In (EvLatestSignedLogRoot (Ok sth)) tr ->
  U (LogRoot sth) = Ok old ->
  RootHash old = None ->
  r = Some ErrTreeNeedsInit /\ forall l cut got, ~ In (EvDequeueLeaves l cut got) tr.
Proof.
  intros Hrun Hev HU Hroot. unfold txBody, txBodyMain in Hrun.
  run Hrun; end_run Hrun.
  all: try match goal with Hint : txBodyIntegrate _ _ _ _ _ _ = _ |- _ =>
         integrate_fact (@txBodyIntegrate_events W) Hint;
         match goal with H : Forall _ _ /\ _ |- _ => destruct H as [Hkind _] end
       end.
  all: find_event Hev; try (injection Hev as <-); try congruence.
  all: split; [reflexivity | ].
  all: intros ? ? ? Hin; find_event Hin.
Qed.

(** When the body reads the border nodes, it is for the latest root, of a
    tree that is not empty; and then either the checks of the nodes pass,
    or the body answers an error and makes no call that writes. *)
Lemma txBody_reads (tree : Tree) (limit : Z) (gw mrd : Duration) (start : Time)
      (w w' : World W) (r : option error) (c : Captured) (tr : list Event)
      (sth : SignedLogRoot) (old : LogRootV1)
      (rev : Z) (ids : list storage.NodeID) (got : result (list storage.Node)) :
  txBody s U tree limit gw mrd start w = ((r, c), w', tr) ->
  In (EvLatestSignedLogRoot (Ok sth)) tr ->
  U (LogRoot sth) = Ok old ->
  In (EvGetMerkleNodes rev ids got) tr ->
  TreeSize old <> 0
  /\ storageIDs old = Ok ids
  /\ rev = i64 (Revision old)
  /\ ((exists nodes, got = Ok nodes /\ rangeChecks (hasher s) old ids nodes)
      \/ (r <> None /\ Forall (fun e => is_write e = false) tr)).
Proof.
  intros Hrun Hlatest HU Hget. unfold txBody, txBodyMain in Hrun.
  run Hrun; end_run Hrun; find_event Hget.
  all: match goal with
       | Hint : txBodyIntegrate _ _ _ (logSequencingTask _ _) _ _ = _ |- _ =>
           destruct (txBodyIntegrate_events _ _ _ true _ _ _ _ _ _ Hint) as [Hkind _];
           destruct (txBodyIntegrate_reads _ _ _ true _ _ _ _ _ _ _ _ _ _ Hint Hget)
             as (Hnz & Hids & Hrev & Hchecks)
       | Hint : txBodyIntegrate _ _ _ (preorderedLogSequencingTask _ _) _ _ = _ |- _ =>
           destruct (txBodyIntegrate_events _ _ _ false _ _ _ _ _ _ Hint) as [Hkind _];
           destruct (txBodyIntegrate_reads _ _ _ false _ _ _ _ _ _ _ _ _ _ Hint Hget)
             as (Hnz & Hids & Hrev & Hchecks)
       end.
  all: find_event Hlatest; injection Hlatest as Hsth; subst sth.
  all: match goal with H : U _ = Ok ?r |- _ =>
         rewrite HU in H; injection H as Hr; subst r end.
  all: split; [assumption | ]; split; [assumption | ]; split; [assumption | ].
  all: destruct Hchecks as [Hchecks | [Herr Hnowrite]]; [left; exact Hchecks | right].
  all: split; [exact Herr | no_such_event].
Qed.

(** No leaves dequeued and no root to sign again: the body answers no
    error, has only read the latest root and dequeued, and leaves as it is
    whatever these and the clock leave as it is. *)
Lemma txBody_skip (tree : Tree) (limit : Z) (gw mrd : Duration) (start : Time)
      (w w' : World W) (r : option error) (c : Captured) (tr : list Event)
      (sth : SignedLogRoot) (old : LogRootV1) (l : Z) (cut : Time) :
  txBody s U tree limit gw mrd start w = ((r, c), w', tr) ->
  In (EvLatestSignedLogRoot (Ok sth)) tr ->
  U (LogRoot sth) = Ok old ->
  In (EvDequeueLeaves l cut (Ok [])) tr ->
  (mrd = 0 \/ exists now, emptyCheckTime tr = Some now /\ sinceRoot now old < mrd) ->
  r = None /\ c = (0, None, None)
  /\ calls tr = [EvLatestSignedLogRoot (Ok sth); EvDequeueLeaves l cut (Ok [])]
  /\ Forall (fun e => is_write e = false) tr
  /\ forall (X : Type) (view : W -> X),
       (forall x, view (snd (timeSource s x)) = view x) ->
       (forall x, view (snd (LatestSignedLogRoot (Tx (logStorage s)) x)) = view x) ->
       (forall x, fst (DequeueLeaves (Tx (logStorage s)) l cut x) = Ok [] ->
                  view (snd (DequeueLeaves (Tx (logStorage s)) l cut x)) = view x) ->
       view (ext w') = view (ext w).
Proof.
  intros Hrun Hlatest HU Hdq Hcond. unfold txBody, txBodyMain in Hrun.
  run Hrun; end_run Hrun.
  all: try match goal with Hint : txBodyIntegrate _ _ _ _ _ _ = _ |- _ =>
         integrate_fact (@txBodyIntegrate_events W) Hint;
         match goal with H : Forall _ _ /\ _ |- _ => destruct H as [Hkind _] end
       end.
  all: find_event Hlatest; find_event Hdq.
  all: injection Hlatest as Hsth; subst sth; injection Hdq as Hl Hc Hb; subst l cut.
  all: match goal with H : U _ = Ok ?r |- _ =>
         rewrite HU in H; injection H as Hr; subst r end.
  all: match type of Hb with ?b = [] => subst b end.
  all: repeat match goal with
       | H : assignLeafIndices _ _ [] = Ok _ |- _ => simpl in H; injection H as <-
       | H : assignLeafIndices _ _ [] = Err _ |- _ => discriminate H
       end.
  all: cbn [length Z.of_nat] in *; bool_facts; try lia.
  all: try (exfalso; destruct Hcond as [-> | (tcheck & Hcheck & Hlt)];
            [congruence
            | cbn in Hcheck; injection Hcheck as <-; unfold sinceRoot in Hlt; lia]).
  all: split; [reflexivity | ]; split; [reflexivity | ]; split; [reflexivity | ];
       split; [no_such_event | ].
  all: intros X view Hclock Hread Hdequeue; cbn [ext].
  all: repeat match goal with
       | E : timeSource s ?x = (_, ?y) |- _ =>
           let H := fresh "Hv" in
           pose proof (Hclock x) as H; rewrite E in H; cbn [snd] in H; clear E
       | E : LatestSignedLogRoot (Tx (logStorage s)) ?x = (_, ?y) |- _ =>
           let H := fresh "Hv" in
           pose proof (Hread x) as H; rewrite E in H; cbn [snd] in H; clear E
       | E : DequeueLeaves (Tx (logStorage s)) _ _ ?x = (_, ?y) |- _ =>
           let H := fresh "Hv" in
           pose proof (Hdequeue x) as H; rewrite E in H; cbn [fst snd] in H;
           specialize (H eq_refl); clear E
       end.
  all: congruence.
Qed.

(** In the body the batch is fetched first: a read of Merkle nodes comes
    after the one dequeue, which answered a batch. *)
Lemma txBody_order (tree : Tree) (limit : Z) (gw mrd : Duration) (start : Time)
      (w w' : World W) (r : option error * Captured) (tr : list Event)
      (rev : Z) (ids : list storage.NodeID) (got : result (list storage.Node)) :
  txBody s U tree limit gw mrd start w = (r, w', tr) ->
  In (EvGetMerkleNodes rev ids got) tr ->
  exists pre post l c batch,
    tr = pre ++ EvDequeueLeaves l c (Ok batch) :: post
    /\ In (EvGetMerkleNodes rev ids got) post
    /\ (forall e, In e pre -> is_call e = true -> exists sth, e = EvLatestSignedLogRoot sth)
    /\ (forall l' c' r', ~ In (EvDequeueLeaves l' c' r') post).
Proof.
  intros Hrun Hget. unfold txBody, txBodyMain in Hrun.
  run Hrun; end_run Hrun; find_event Hget.
  all: match goal with Hint : txBodyIntegrate _ _ _ _ _ _ = _ |- _ =>
         integrate_fact (@txBodyIntegrate_events W) Hint;
         match goal with H : Forall _ _ /\ _ |- _ => destruct H as [Hkind _] end
       end.
  all: match goal with
       | |- exists pre post l c batch, ?L = _ /\ _ =>
           split_at_dequeue L ltac:(fun p l c b q => exists p, q, l, c, b)
       end.
  all: split; [reflexivity | ].
  all: split; [repeat (first [right | apply in_or_app; left; exact Hget]) | ].
  all: split; [intros e Hin Hcall; find_event Hin; subst e; try discriminate Hcall; eauto | ].
  all: intros ? ? ? Hin; find_event Hin.
Qed.
End BodyFacts.

(** An event looked up among the calls of a run without error: [Hreads],
    [Hupdc] and [Hquota] tell what the three optional calls are. *)
Ltac find_call H Hreads Hupdc Hquota :=
  find_event H;
  try (apply Hreads in H; destruct H as (? & ? & ? & [=]));
  try (apply Hupdc in H; destruct H as (? & [=]));
  try (apply Hquota in H; destruct H as (? & ? & ? & [=])).


Section SequencerFacts.
Context {W : Type} (s : Sequencer W) (U : bytes -> result LogRootV1).

(** [IntegrateBatch] around its transaction body: the transaction may not
    open; the body may answer an error, and the transaction is rolled
    back; the commit may fail; and only after a commit is the quota
    replenished and are the sequenced leaves counted. *)
Lemma IntegrateBatch_cases (tree : Tree) (limit : Z) (gw mrd : Duration)
      (w w' : World W) (n : Z) (err : option error) (tr : list Event) :
  IntegrateBatch s U tree limit gw mrd w = (n, err, w', tr) ->
  exists start x0 began x1,
    timeSource s (ext w) = (start, x0)
    /\ Begin (logStorage s) tree x0 = (began, x1)
    /\ ((exists e, began = Some e /\ n = 0 /\ err = Some e
                   /\ tr = [EvNow start; EvBegin (Some e)])
        \/ (began = None
            /\ exists r c w2 trb post,
                 txBody s U tree limit gw mrd start (mkWorld x1 (QuotaIncreaseFactor w))
                 = ((r, c), w2, trb)
                 /\ tr = EvNow start :: EvBegin None :: trb ++ post
                 /\ Forall (fun e => is_body_event e = false) post
                 /\ ((exists e, r = Some e /\ n = 0 /\ err = Some e /\ post = [EvRollback])
                     \/ (r = None
                         /\ exists x3 after,
                              Commit (Tx (logStorage s)) (ext w2) = (err, x3)
                              /\ post = EvCommit err :: after
                              /\ (err <> None -> n = 0 /\ after = [] /\ ext w' = x3)
                              /\ (err = None ->
                                  n = fst (fst c)
                                  /\ ((n <= 0 /\ ext w' = x3
                                       /\ after = [EvMetric seqCounter (TreeId tree) n])
                                      \/ (0 < n
                                          /\ exists a,
                                               after
                                               = [EvPutTokens
                                                    (replenishTokens n (QuotaIncreaseFactor w))
                                                    (replenishSpecs (TreeId tree)) a;
                                                  EvIncReplenished
                                                    (replenishTokens n (QuotaIncreaseFactor w))
                                                    (replenishSpecs (TreeId tree))
                                                    (bool_decide (a = None));
                                                  EvMetric seqCounter (TreeId tree) n]))))))).
Proof.
  intros Hrun. unfold IntegrateBatch, ReadWriteTransaction in Hrun.
  run Hrun.
  all: rewrite ?List.app_nil_r, <- ?List.app_assoc in Hrun; cbn [app] in Hrun; end_run Hrun.
  all: eexists _, _, _, _; split; [reflexivity | ]; split; [eassumption | ].
  1: left; eexists; repeat split; reflexivity.
  all: right; split; [reflexivity | ].
  all: match goal with
       | Hbody : txBody _ _ _ _ _ _ _ _ = _ |- _ =>
           destruct (txBody_events _ _ _ _ _ _ _ _ _ _ _ Hbody) as [_ Hq];
           cbn [QuotaIncreaseFactor] in Hq;
           eexists _, _, _, _, _; split; [exact Hbody | ]
       end.
  all: split; [reflexivity | ].
  all: split; [no_such_event | ].
  1: left; eexists; repeat split; reflexivity.
  all: right; split; [reflexivity | ]; eexists _, _; split; [eassumption | ].
  all: split; [reflexivity | ].
  all: split; [intros Hne; first [contradiction | repeat split; reflexivity]
              | intros Heq; try discriminate Heq].
  all: cbn [fst snd]; split; [reflexivity | ]; bool_facts.
  all: first [ left; split; [lia | ]; split; reflexivity
             | right; split; [lia | ]; eexists;
               unfold replenishTokens, max_float64; rewrite <- Hq;
               match goal with H : PrimFloat.ltb _ _ = _ |- _ => rewrite H end;
               reflexivity ].
Qed.

Lemma body_event_not_after_commit (e : Event) :
  is_body_event e = true -> is_after_commit e = false.
Proof.
  intros H. destruct e; try reflexivity; try discriminate H.
  match goal with m : Metric |- _ => destruct m end; try reflexivity; discriminate H.
Qed.

Lemma In_body (e : Event) (start : Time) (b : option error) (trb post : list Event) :
  In e (EvNow start :: EvBegin b :: trb ++ post) ->
  Forall (fun e => is_body_event e = false) post ->
  is_call e = true -> is_body_event e = true ->
  In e trb.
Proof.
  intros Hin Hpost Hcall Hbody.
  destruct Hin as [<- | [<- | Hin]]; try discriminate.
  apply in_app_or in Hin. destruct Hin as [Hin | Hin]; [exact Hin | ].
  apply (proj1 (Stdlib.Lists.List.Forall_forall _ _) Hpost) in Hin. congruence.
Qed.

Lemma readings_app (a b : list Event) : readings (a ++ b) = readings a ++ readings b.
Proof.
  induction a as [|e a IH]; [reflexivity | ].
  destruct e; simpl; rewrite ?IH; reflexivity.
Qed.

Lemma emptyCheckTime_body (start : Time) (b : option error) (trb post : list Event) :
  Forall (fun e => is_body_event e = false) post ->
  emptyCheckTime (EvNow start :: EvBegin b :: trb ++ post) = emptyCheckTime trb.
Proof.
  intros Hpost. unfold emptyCheckTime. cbn [afterDequeue].
  assert (Hrd : readings post = [] /\ afterDequeue post = []).
  { induction Hpost as [|e post He _ [IH1 IH2]]; [split; reflexivity | ].
    destruct e; simpl; try (split; assumption); discriminate He. }
  destruct Hrd as [Hr Hd].
  induction trb as [|e trb IH].
  - simpl. rewrite Hd. reflexivity.
  - destruct e; simpl; try exact IH.
    rewrite readings_app, Hr, List.app_nil_r. reflexivity.
Qed.

Lemma calls_call (start : Time) (b : option error) (trb post : list Event) :
  calls (EvNow start :: EvBegin b :: trb ++ post) = EvBegin b :: calls trb ++ calls post.
Proof. unfold calls. cbn [List.filter is_call]. rewrite List.filter_app. reflexivity. Qed.

(** What a run without error went through. *)
Lemma IntegrateBatch_success (tree : Tree) (limit : Z) (gw mrd : Duration)
      (w w' : World W) (n : Z) (tr : list Event) :
  IntegrateBatch s U tree limit gw mrd w = (n, None, w', tr) ->
  exists sth old cutoff batch leaves,
    U (LogRoot sth) = Ok old
    /\ fetched tree (TreeSize old) batch = Ok leaves
    /\ n = Z.of_nat (length leaves)
    /\ ((leaves = []
         /\ (exists now, emptyCheckTime tr = Some now
                         /\ (mrd = 0 \/ sinceRoot now old < mrd))
         /\ calls tr = [EvBegin None; EvLatestSignedLogRoot (Ok sth);
                        EvDequeueLeaves limit cutoff (Ok batch); EvCommit None])
        \/ (exists cr reads v ia nodeMap newRoot cr' targetNodes now new slr quota,
              (leaves = [] ->
               exists t, emptyCheckTime tr = Some t /\ mrd <> 0 /\ mrd <= sinceRoot t old)
              /\ ((TreeSize old = 0 /\ cr = compact.NewEmptyRange /\ reads = [])
                  \/ (TreeSize old <> 0
                      /\ exists ids nodes,
                           storageIDs old = Ok ids
                           /\ reads = [EvGetMerkleNodes (i64 (Revision old)) ids (Ok nodes)]
                           /\ rangeChecks (hasher s) old ids nodes
                           /\ cr = compact.mkRange (TreeSize old) (map storage.Hash nodes)))
              /\ v = i64 (i64 (Revision old) + 1)
              /\ aligned (compact.End cr) 0 leaves
              /\ updateCompactRange s cr (map (withIntegrateTimestamp ia) leaves)
                 = Ok (nodeMap, newRoot, cr')
              /\ buildNodesFromNodeMap nodeMap v = Ok targetNodes
              /\ new = mkLogRootV1 (compact.End cr')
                                   (if compact.End cr' =? 0 then EmptyRoot (hasher s)
                                    else newRoot)
                                   (u64 (UnixNano now)) (u64 v)
              /\ TimestampNanos old < TimestampNanos new
              /\ ((n <= 0 /\ quota = [])
                  \/ (0 < n
                      /\ exists r,
                           quota = [EvPutTokens (replenishTokens n (QuotaIncreaseFactor w))
                                                (replenishSpecs (TreeId tree)) r]))
              /\ calls tr = [EvBegin None; EvLatestSignedLogRoot (Ok sth);
                             EvDequeueLeaves limit cutoff (Ok batch)]
                            ++ reads ++ [EvWriteRevision (Ok v)]
                            ++ updateCalls tree (map (withIntegrateTimestamp ia) leaves)
                            ++ [EvSetMerkleNodes targetNodes None;
                                EvSignLogRoot new (Ok slr);
                                EvStoreSignedLogRoot slr None; EvCommit None]
                            ++ quota)).
Proof.
  intros Hrun.
  destruct (IntegrateBatch_cases _ _ _ _ _ _ _ _ _ Hrun)
    as (start & x0 & began & x1 & Hclk & Hbegin
        & [(e & _ & _ & [=] & _)
          | (-> & r & c & w2 & trb & post & Hbody & -> & Hpost
             & [(e & _ & _ & [=] & _)
               | (-> & x3 & after & Hcommit & -> & _ & Hok)])]).
  destruct (Hok eq_refl) as [Hn Hquota]. clear Hok.
  destruct (txBody_success s U _ _ _ _ _ _ _ _ _ Hbody)
    as (sth & old & cutoff & batch & leaves & HU & Hfetch & Hlen & Hcases).
  exists sth, old, cutoff, batch, leaves.
  split; [exact HU | ]. split; [exact Hfetch | ]. split; [congruence | ].
  rewrite emptyCheckTime_body by exact Hpost. rewrite calls_call.
  destruct Hcases as [(-> & Hcheck & Hc) | Hint].
  - left. split; [reflexivity | ]. split; [exact Hcheck | ].
    rewrite Hc. simpl in Hlen.
    destruct Hquota as [(_ & _ & ->) | (Hpos & _)]; [reflexivity | lia].
  - right.
    destruct Hint as (cr & reads & v & ia & nodeMap & newRoot & cr' & targetNodes & now & new
                      & slr & Hre & Hinit & Hv & Hal & Hupd & Hbuild & Hnew & Hts & Hc).
    exists cr, reads, v, ia, nodeMap, newRoot, cr', targetNodes, now, new, slr, (calls after).
    do 8 (split; [assumption | ]).
    split; [destruct Hquota as [(Hle & _ & ->) | (Hpos & a & ->)];
            [left; split; [exact Hle | reflexivity]
            | right; split; [exact Hpos | exists a; reflexivity]] | ].
    rewrite Hc. unfold calls at 1. cbn [List.filter is_call]. fold (calls after).
    repeat first [rewrite <- List.app_assoc | progress cbn [app]]. reflexivity.
Qed.

(** A run that ends in an error answers no leaves and has neither
    replenished the quota nor counted sequenced leaves. *)
Lemma IntegrateBatch_failure (tree : Tree) (limit : Z) (gw mrd : Duration)
      (w w' : World W) (n : Z) (e : error) (tr : list Event) :
  IntegrateBatch s U tree limit gw mrd w = (n, Some e, w', tr) ->
  n = 0 /\ Forall (fun ev => is_after_commit ev = false) tr.
Proof.
  intros Hrun.
  destruct (IntegrateBatch_cases _ _ _ _ _ _ _ _ _ Hrun)
    as (start & x0 & began & x1 & Hclk & Hbegin
        & [(e' & _ & -> & _ & ->)
          | (-> & r & c & w2 & trb & post & Hbody & -> & Hpost
             & [(e' & _ & -> & _ & ->)
               | (-> & x3 & after & Hcommit & -> & Herr & _)])]).
  - split; [reflexivity | ]. repeat constructor.
  - split; [reflexivity | ].
    constructor; [reflexivity | ]. constructor; [reflexivity | ].
    apply Forall_app. split; [ | repeat constructor].
    eapply Forall_impl; [eapply txBody_events, Hbody | ].
    intros ev. apply body_event_not_after_commit.
  - destruct (Herr ltac:(discriminate)) as (-> & -> & _).
    split; [reflexivity | ].
    constructor; [reflexivity | ]. constructor; [reflexivity | ].
    apply Forall_app. split; [ | repeat constructor].
    eapply Forall_impl; [eapply txBody_events, Hbody | ].
    intros ev. apply body_event_not_after_commit.
Qed.

(** C2. In a run without error that stores a new signed log root, the
    new revision is the old one plus one (in [uint64], and so over the
    integers unless the old revision is the largest [uint64]), the write
    revision that storage answered is the old revision plus one (in
    [int64]), the new timestamp is strictly greater than the old one, and
    the new tree size is the old one plus the number of leaves dequeued:
    between the old size and the old size plus [limit] for a storage that
    dequeues at most [limit] leaves. *)
Theorem new_root_advances (tree : Tree) (limit : Z) (gw mrd : Duration)
        (w w' : World W) (n : Z) (tr : list Event)
        (sth slr : SignedLogRoot) (old new : LogRootV1) :
  IntegrateBatch s U tree limit gw mrd w = (n, None, w', tr) ->
  In (EvLatestSignedLogRoot (Ok sth)) tr ->
  U (LogRoot sth) = Ok old ->
  In (EvSignLogRoot new (Ok slr)) tr ->
  In (EvStoreSignedLogRoot slr None) tr ->
  Revision new = u64 (Revision old + 1)
  /\ (0 <= Revision old < 2 ^ 64 - 1 -> Revision new = Revision old + 1)
  /\ (forall r, In (EvWriteRevision r) tr -> r = Ok (i64 (i64 (Revision old) + 1)))
  /\ TimestampNanos old < TimestampNanos new
  /\ (0 <= TreeSize old < 2 ^ 64 ->
      forall l c batch, In (EvDequeueLeaves l c (Ok batch)) tr ->
        TreeSize new = TreeSize old + Z.of_nat (length batch)
        /\ (Z.of_nat (length batch) <= limit ->
            TreeSize old <= TreeSize new <= TreeSize old + limit)).
Proof.
  intros Hrun Hlatest HU Hsign Hstore.
  destruct (IntegrateBatch_success _ _ _ _ _ _ _ _ Hrun)
    as (sth0 & old0 & cutoff & batch0 & leaves & HU0 & Hfetch & Hn & Hcases).
  apply In_calls in Hlatest, Hsign, Hstore; try reflexivity.
  destruct Hcases as [(_ & _ & Hcalls) | Hint].
  { rewrite Hcalls in Hsign. find_event Hsign. }
  destruct Hint as (cr & reads & v & ia & nodeMap & newRoot & cr' & targetNodes & now & new0
                    & slr0 & quota & _ & Hinit & Hv & Hal & Hupd & _ & Hnew & Hts & Hquota & Hcalls).
  assert (Hreads : forall e, In e reads -> exists rev ids nodes, e = EvGetMerkleNodes rev ids (Ok nodes)).
  { destruct Hinit as [(_ & _ & ->) | (_ & ids & nodes & _ & -> & _)]; intros e He; find_event He.
    subst e. eauto. }
  assert (Hquota' : forall e, In e quota -> exists t sp r, e = EvPutTokens t sp r).
  { destruct Hquota as [(_ & ->) | (_ & r & ->)]; intros e He; find_event He. subst e. eauto. }
  assert (Hupdc : forall e, In e (updateCalls tree (map (withIntegrateTimestamp ia) leaves)) ->
                    exists l, e = EvUpdateSequencedLeaves l None).
  { unfold updateCalls. destruct (TreeType_ tree); intros e He; find_event He. subst e. eauto. }
  assert (Hold : old0 = old /\ new0 = new).
  { rewrite Hcalls in Hlatest, Hsign. split.
    - find_event Hlatest;
        try (apply Hreads in Hlatest; destruct Hlatest as (? & ? & ? & [=]));
        try (apply Hupdc in Hlatest; destruct Hlatest as (? & [=]));
        try (apply Hquota' in Hlatest; destruct Hlatest as (? & ? & ? & [=])).
      injection Hlatest as <-. congruence.
    - find_event Hsign;
        try (apply Hreads in Hsign; destruct Hsign as (? & ? & ? & [=]));
        try (apply Hupdc in Hsign; destruct Hsign as (? & [=]));
        try (apply Hquota' in Hsign; destruct Hsign as (? & ? & ? & [=])).
      injection Hsign as <- _. reflexivity. }
  destruct Hold as [<- <-]. clear Hlatest Hsign Hstore.
  assert (Hrev : Revision new0 = u64 (Revision old0 + 1)).
  { rewrite Hnew, Hv. cbn [Revision]. rewrite u64_i64. apply u64_i64_add. }
  split; [exact Hrev | ].
  split; [intros Hr; rewrite Hrev; apply u64_small; lia | ].
  split.
  { intros r Hr. apply In_calls in Hr; [ | reflexivity]. rewrite Hcalls in Hr.
    find_event Hr;
      try (apply Hreads in Hr; destruct Hr as (? & ? & ? & [=]));
      try (apply Hupdc in Hr; destruct Hr as (? & [=]));
      try (apply Hquota' in Hr; destruct Hr as (? & ? & ? & [=])).
    injection Hr as <-. rewrite Hv. reflexivity. }
  split; [exact Hts | ].
  intros Hsize l c batch Hdq.
  apply In_calls in Hdq; [ | reflexivity]. rewrite Hcalls in Hdq.
  assert (batch = batch0) as ->.
  { find_event Hdq;
      try (apply Hreads in Hdq; destruct Hdq as (? & ? & ? & [=]));
      try (apply Hupdc in Hdq; destruct Hdq as (? & [=]));
      try (apply Hquota' in Hdq; destruct Hdq as (? & ? & ? & [=])).
    injection Hdq as _ _ <-. reflexivity. }
  destruct (fetched_facts _ _ _ _ Hfetch) as [Hlen _].
  assert (Hend : compact.End cr = TreeSize old0).
  { destruct Hinit as [(-> & -> & _) | (_ & ids & nodes & _ & _ & _ & ->)]; reflexivity. }
  apply updateCompactRange_End in Hupd; [ | lia].
  rewrite length_map, Hlen, Hend in Hupd.
  rewrite Hnew. cbn [TreeSize]. split; lia.
Qed.

(** C1. In a run without error that stores a new signed log root, the
    stored root hash is the reference Merkle tree hash, under the hasher's
    [HashChildren], of all the leaf hashes of the new tree: those of the
    old tree, of which the storage served the border nodes, followed by
    those of the batch. When the new tree is empty, it is the hasher's
    empty root and not the [nil] hash of the compact range. *)
Theorem new_root_hash_is_merkle_root (tree : Tree) (limit : Z) (gw mrd : Duration)
        (w w' : World W) (n : Z) (tr : list Event)
        (sth slr : SignedLogRoot) (old new : LogRootV1)
        (old_leaves : list bytes) (batch : list LogLeaf) (l : Z) (c : Time) :
  IntegrateBatch s U tree limit gw mrd w = (n, None, w', tr) ->
  In (EvLatestSignedLogRoot (Ok sth)) tr ->
  U (LogRoot sth) = Ok old ->
  In (EvDequeueLeaves l c (Ok batch)) tr ->
  In (EvSignLogRoot new (Ok slr)) tr ->
  In (EvStoreSignedLogRoot slr None) tr ->
  Z.of_nat (length old_leaves) = TreeSize old ->
  TreeSize old < 2 ^ 64 ->
  (forall rev ids nodes, In (EvGetMerkleNodes rev ids (Ok nodes)) tr ->
     map storage.Hash nodes
     = border (HashChildren (hasher s)) (EmptyRoot (hasher s)) old_leaves) ->
  TreeSize new = Z.of_nat (length (old_leaves ++ map MerkleLeafHash batch))
  /\ RootHash new
     = merkle_root (HashChildren (hasher s)) (EmptyRoot (hasher s))
                   (old_leaves ++ map MerkleLeafHash batch)
  /\ (TreeSize new = 0 -> RootHash new = EmptyRoot (hasher s)).
Proof.
  intros Hrun Hlatest HU Hdq Hsign Hstore Hlen Hsize Hnodes.
  destruct (IntegrateBatch_success _ _ _ _ _ _ _ _ Hrun)
    as (sth0 & old0 & cutoff & batch0 & leaves & HU0 & Hfetch & Hn & Hcases).
  apply In_calls in Hlatest, Hsign, Hstore, Hdq; try reflexivity.
  destruct Hcases as [(_ & _ & Hcalls) | Hint].
  { rewrite Hcalls in Hsign. find_event Hsign. }
  destruct Hint as (cr & reads & v & ia & nodeMap & newRoot & cr' & targetNodes & now & new0
                    & slr0 & quota & _ & Hinit & Hv & Hal & Hupd & _ & Hnew & Hts & Hquota & Hcalls).
  assert (Hreads : forall e, In e reads -> exists rev ids nodes, e = EvGetMerkleNodes rev ids (Ok nodes)).
  { destruct Hinit as [(_ & _ & ->) | (_ & ids & nodes & _ & -> & _)]; intros e He; find_event He.
    subst e. eauto. }
  assert (Hquota' : forall e, In e quota -> exists t sp r, e = EvPutTokens t sp r).
  { destruct Hquota as [(_ & ->) | (_ & r & ->)]; intros e He; find_event He. subst e. eauto. }
  assert (Hupdc : forall e, In e (updateCalls tree (map (withIntegrateTimestamp ia) leaves)) ->
                    exists l, e = EvUpdateSequencedLeaves l None).
  { unfold updateCalls. destruct (TreeType_ tree); intros e He; find_event He. subst e. eauto. }
  rewrite Hcalls in Hlatest, Hsign, Hdq.
  assert (old0 = old) as ->.
  { find_call Hlatest Hreads Hupdc Hquota'. injection Hlatest as <-. congruence. }
  assert (new0 = new) as ->.
  { find_call Hsign Hreads Hupdc Hquota'. injection Hsign as <- _. reflexivity. }
  assert (batch0 = batch) as ->.
  { find_call Hdq Hreads Hupdc Hquota'. injection Hdq as _ _ <-. reflexivity. }
  clear Hlatest Hsign Hstore Hdq.
  destruct (fetched_facts _ _ _ _ Hfetch) as [Hlenb Hhashes].
  assert (Hrep : represents (hasher s) cr old_leaves /\ compact.End cr = TreeSize old).
  { destruct Hinit as [(Hz & -> & _) | (_ & ids & nodes & _ & -> & _ & ->)].
    - rewrite Hz in Hlen. destruct old_leaves; [ | simpl in Hlen; lia].
      split; [apply represents_empty | simpl; lia].
    - split; [ | reflexivity]. split; simpl; [lia | ].
      apply (Hnodes (i64 (Revision old)) ids nodes).
      apply (List.filter_In is_call _ tr). fold (calls tr). rewrite Hcalls.
      cbn. auto 10. }
  destruct Hrep as [Hrep Hend].
  destruct (updateCompactRange_spec s cr cr' old_leaves _ nodeMap newRoot Hrep ltac:(lia) Hupd)
    as [Hend' Hroot].
  rewrite length_map, Hlenb, Hend in Hend'.
  rewrite map_hash_stamped, Hhashes in Hroot.
  rewrite Hnew. cbn [TreeSize RootHash].
  assert (Htotal : compact.End cr'
                   = Z.of_nat (length (old_leaves ++ map MerkleLeafHash batch))).
  { rewrite length_app, length_map. lia. }
  split; [exact Htotal | ].
  destruct (compact.End cr' =? 0) eqn:Hz.
  - apply Z.eqb_eq in Hz. split; [ | reflexivity].
    rewrite Hz in Htotal.
    destruct (old_leaves ++ map MerkleLeafHash batch); [ | simpl in Htotal; lia].
    simp merkle_root. reflexivity.
  - apply Z.eqb_neq in Hz. split; [apply Hroot, Hz | intros; contradiction].
Qed.

(** C3. In a normal log, [fetch] gives the i-th dequeued leaf the index
    [tree_size + i], computed in [uint64] and read as an [int64], and
    answers an error exactly when one of these is negative; when it
    succeeds the indices are [tree_size + i] over the integers. In either
    mode, the leaves of a run without error carry the indices
    [old.tree_size], [old.tree_size + 1], ...: a run whose leaves do not
    ends in an error. *)
Theorem leaf_indices_are_aligned :
  (forall (d : sequencingTaskData) (limit : Z) (cutoff : Time) (w w' : World W)
          (r : result (list LogLeaf)) (tr : list Event) (batch : list LogLeaf),
     logSequencingTask_fetch s d limit cutoff w = (r, w', tr) ->
     In (EvDequeueLeaves limit cutoff (Ok batch)) tr ->
     ((exists e, r = Err e) <->
      (exists k : nat, (k < length batch)%nat
                       /\ i64 (u64 (treeSize d + u64 (Z.of_nat k))) < 0))
     /\ forall leaves, r = Ok leaves ->
          length leaves = length batch
          /\ forall (k : nat) (leaf : LogLeaf), leaves !! k = Some leaf ->
               exists queued, batch !! k = Some queued
                 /\ leaf = withIndex queued (i64 (u64 (treeSize d + u64 (Z.of_nat k))))
                 /\ (0 <= treeSize d < 2 ^ 64 ->
                     LeafIndex leaf = treeSize d + Z.of_nat k))
  /\ (forall (tree : Tree) (limit : Z) (gw mrd : Duration) (w w' : World W) (n : Z)
             (err : option error) (tr : list Event) (sth : SignedLogRoot)
             (old : LogRootV1) (l : Z) (c : Time) (batch : list LogLeaf),
        IntegrateBatch s U tree limit gw mrd w = (n, err, w', tr) ->
        In (EvLatestSignedLogRoot (Ok sth)) tr ->
        U (LogRoot sth) = Ok old ->
        0 <= TreeSize old < 2 ^ 64 ->
        In (EvDequeueLeaves l c (Ok batch)) tr ->
        (err = None ->
         exists leaves, fetched tree (TreeSize old) batch = Ok leaves
           /\ forall (k : nat) (leaf : LogLeaf), leaves !! k = Some leaf ->
                LeafIndex leaf = TreeSize old + Z.of_nat k)
        /\ (forall leaves (k : nat) (leaf : LogLeaf),
              fetched tree (TreeSize old) batch = Ok leaves ->
              leaves !! k = Some leaf ->
              LeafIndex leaf <> TreeSize old + Z.of_nat k ->
              err <> None)).
Proof.
  split.
  - intros d limit cutoff w w' r tr batch Hrun Hdq.
    unfold logSequencingTask_fetch in Hrun. run_cbn Hrun.
    repeat run_step Hrun; end_run Hrun; find_event Hdq.
    all: injection Hdq as ->.
    + pose proof (assignLeafIndices_Err batch (treeSize d) 0) as Herr.
      pose proof (assignLeafIndices_Ok batch (treeSize d) 0) as Hok.
      pose proof (assignLeafIndices_aligned batch (treeSize d) 0) as Hal.
      destruct (assignLeafIndices (treeSize d) 0 batch) as [leaves | e].
      * split.
        -- rewrite <- Herr. split; intros [e He]; discriminate.
        -- intros leaves' [= <-]. destruct (Hok leaves eq_refl) as [Hlen Hall].
           split; [exact Hlen | ]. intros k leaf Hk.
           destruct (Hall k leaf Hk) as (q & Hq & Hleaf & Hnn).
           exists q. split; [exact Hq | ]. split; [exact Hleaf | ].
           intros Hsize.
           destruct (aligned_exact leaves (treeSize d) 0 ltac:(lia) ltac:(lia) ltac:(lia)
                       (Hal leaves eq_refl) k leaf Hk) as [Hidx _].
           lia.
      * split; [ | intros leaves' [=]].
        rewrite <- Herr. split; eauto.
  - intros tree limit gw mrd w w' n err tr sth old l c batch Hrun Hlatest HU Hsize Hdq.
    assert (Hgood : err = None ->
              exists leaves, fetched tree (TreeSize old) batch = Ok leaves
                /\ forall (k : nat) (leaf : LogLeaf), leaves !! k = Some leaf ->
                     LeafIndex leaf = TreeSize old + Z.of_nat k).
    { intros ->.
      destruct (IntegrateBatch_success _ _ _ _ _ _ _ _ Hrun)
        as (sth0 & old0 & cutoff & batch0 & leaves & HU0 & Hfetch & Hn & Hcases).
      apply In_calls in Hlatest, Hdq; try reflexivity.
      destruct Hcases as [(-> & _ & Hcalls) | Hint].
      { rewrite Hcalls in Hlatest, Hdq. find_event Hlatest. find_event Hdq.
        injection Hlatest as <-. injection Hdq as _ _ <-.
        assert (old0 = old) as -> by congruence.
        exists []. split; [exact Hfetch | ]. intros k leaf Hk. discriminate. }
      destruct Hint as (cr & reads & v & ia & nodeMap & newRoot & cr' & targetNodes & now & new0
                        & slr0 & quota & _ & Hinit & Hv & Hal & Hupd & _ & Hnew & Hts & Hquota & Hcalls).
      assert (Hreads : forall e, In e reads -> exists rev ids nodes, e = EvGetMerkleNodes rev ids (Ok nodes)).
      { destruct Hinit as [(_ & _ & ->) | (_ & ids & nodes & _ & -> & _)]; intros e He; find_event He.
        subst e. eauto. }
      assert (Hquota' : forall e, In e quota -> exists t sp r, e = EvPutTokens t sp r).
      { destruct Hquota as [(_ & ->) | (_ & r & ->)]; intros e He; find_event He. subst e. eauto. }
      assert (Hupdc : forall e, In e (updateCalls tree (map (withIntegrateTimestamp ia) leaves)) ->
                        exists l, e = EvUpdateSequencedLeaves l None).
      { unfold updateCalls. destruct (TreeType_ tree); intros e He; find_event He. subst e. eauto. }
      rewrite Hcalls in Hlatest, Hdq.
      assert (old0 = old) as ->.
      { find_call Hlatest Hreads Hupdc Hquota'. injection Hlatest as <-. congruence. }
      assert (batch0 = batch) as ->.
      { find_call Hdq Hreads Hupdc Hquota'. injection Hdq as _ _ <-. reflexivity. }
      exists leaves. split; [exact Hfetch | ]. intros k leaf Hk.
      assert (Hend : compact.End cr = TreeSize old).
      { destruct Hinit as [(-> & -> & _) | (_ & ids & nodes & _ & _ & _ & ->)]; reflexivity. }
      rewrite Hend in Hal.
      destruct (aligned_exact leaves (TreeSize old) 0 ltac:(lia) ltac:(lia) ltac:(lia)
                  Hal k leaf Hk) as [Hidx _].
      lia. }
    split; [exact Hgood | ].
    intros leaves k leaf Hfetch Hk Hbad ->.
    destruct (Hgood eq_refl) as (leaves' & Hfetch' & Hall).
    rewrite Hfetch in Hfetch'. injection Hfetch' as <-.
    apply Hbad, (Hall k leaf Hk).
Qed.


(** C6. When no leaves were dequeued, [maxRootDurationInterval] is not
    zero, and the time since the old root, as the empty-batch check
    computes it, is at least that duration, then [IntegrateBatch] answers
    0 leaves; and when it answers no error, it has signed and stored a new
    log root with the old tree size, the old root hash (for an empty tree
    this is the empty root, that the root of an empty tree carries), the
    old revision plus one and a strictly greater timestamp. *)
Theorem forced_resign (tree : Tree) (limit : Z) (gw mrd : Duration)
        (w w' : World W) (n : Z) (err : option error) (tr : list Event)
        (sth : SignedLogRoot) (old : LogRootV1) (l : Z) (c now : Time) :
  IntegrateBatch s U tree limit gw mrd w = (n, err, w', tr) ->
  In (EvLatestSignedLogRoot (Ok sth)) tr ->
  U (LogRoot sth) = Ok old ->
  In (EvDequeueLeaves l c (Ok [])) tr ->
  mrd <> 0 ->
  emptyCheckTime tr = Some now ->
  mrd <= sinceRoot now old ->
  (TreeSize old = 0 -> bytes_Equal (EmptyRoot (hasher s)) (RootHash old) = true) ->
  n = 0
  /\ (err = None ->
      exists new slr,
        In (EvSignLogRoot new (Ok slr)) tr
        /\ In (EvStoreSignedLogRoot slr None) tr
        /\ TreeSize new = TreeSize old
        /\ bytes_Equal (RootHash new) (RootHash old) = true
        /\ Revision new = u64 (Revision old + 1)
        /\ TimestampNanos old < TimestampNanos new).
Proof.
  intros Hrun Hlatest HU Hdq Hmrd Hnow Hsince Hempty.
  destruct err as [e | ].
  { apply IntegrateBatch_failure in Hrun. split; [tauto | discriminate]. }
  destruct (IntegrateBatch_success _ _ _ _ _ _ _ _ Hrun)
    as (sth0 & old0 & cutoff & batch0 & leaves & HU0 & Hfetch & Hn & Hcases).
  pose proof Hlatest as Hlatest'. pose proof Hdq as Hdq'.
  apply In_calls in Hlatest', Hdq'; try reflexivity.
  destruct Hcases as [(-> & (now' & Hnow' & Hcond) & Hcalls) | Hint].
  { exfalso. rewrite Hcalls in Hlatest'. find_event Hlatest'. injection Hlatest' as <-.
    assert (old0 = old) as -> by congruence.
    rewrite Hnow in Hnow'. injection Hnow' as <-. lia. }
  destruct Hint as (cr & reads & v & ia & nodeMap & newRoot & cr' & targetNodes & now0 & new0
                    & slr0 & quota & _ & Hinit & Hv & Hal & Hupd & _ & Hnew & Hts & Hquota & Hcalls).
  assert (Hreads : forall e, In e reads -> exists rev ids nodes, e = EvGetMerkleNodes rev ids (Ok nodes)).
  { destruct Hinit as [(_ & _ & ->) | (_ & ids & nodes & _ & -> & _)]; intros e He; find_event He.
    subst e. eauto. }
  assert (Hquota' : forall e, In e quota -> exists t sp r, e = EvPutTokens t sp r).
  { destruct Hquota as [(_ & ->) | (_ & r & ->)]; intros e He; find_event He. subst e. eauto. }
  assert (Hupdc : forall e, In e (updateCalls tree (map (withIntegrateTimestamp ia) leaves)) ->
                    exists l, e = EvUpdateSequencedLeaves l None).
  { unfold updateCalls. destruct (TreeType_ tree); intros e He; find_event He. subst e. eauto. }
  rewrite Hcalls in Hlatest', Hdq'.
  assert (old0 = old) as ->.
  { find_call Hlatest' Hreads Hupdc Hquota'. injection Hlatest' as <-. congruence. }
  assert (batch0 = []) as ->.
  { find_call Hdq' Hreads Hupdc Hquota'. injection Hdq' as _ _ ->. reflexivity. }
  destruct (fetched_facts _ _ _ _ Hfetch) as [Hlen _].
  destruct leaves; [ | discriminate Hlen]. simpl in Hupd.
  split; [exact Hn | ]. intros _.
  assert (Hin : forall e, In e (calls tr) -> In e tr)
    by (intros e He; apply List.filter_In in He; tauto).
  exists new0, slr0.
  split; [apply Hin; rewrite Hcalls; apply in_or_app; right; apply in_or_app; right;
          apply in_or_app; right; apply in_or_app; right; cbn; auto | ].
  split; [apply Hin; rewrite Hcalls; apply in_or_app; right; apply in_or_app; right;
          apply in_or_app; right; apply in_or_app; right; cbn; auto | ].
  destruct (updateCompactRange_nil s cr cr' nodeMap newRoot Hupd) as [-> Hroot].
  assert (Hrev : Revision new0 = u64 (Revision old + 1)).
  { rewrite Hnew, Hv. cbn [Revision]. rewrite u64_i64. apply u64_i64_add. }
  rewrite Hnew. cbn [TreeSize RootHash].
  destruct Hinit as [(Hz & -> & _) | (Hnz & ids & nodes & _ & _ & Hchecks & ->)].
  - cbn. rewrite Hz. split; [reflexivity | ]. split; [auto | ].
    split; [rewrite <- Hrev, Hnew; reflexivity | rewrite Hnew in Hts; exact Hts].
  - cbn [compact.End]. split; [reflexivity | ].
    destruct (TreeSize old =? 0) eqn:Hz0; [apply Z.eqb_eq in Hz0; contradiction | ].
    split; [rewrite Hroot; apply Hchecks | ].
    split; [rewrite <- Hrev, Hnew; reflexivity | rewrite Hnew in Hts; exact Hts].
Qed.

Lemma filter_PutTokens_calls (tr : list Event) :
  List.filter is_PutTokens (calls tr) = List.filter is_PutTokens tr.
Proof.
  induction tr as [|e tr IH]; [reflexivity | ].
  destruct e; simpl; rewrite ?IH; reflexivity.
Qed.

Lemma filter_PutTokens_none (tr : list Event) :
  Forall (fun ev => is_after_commit ev = false) tr -> List.filter is_PutTokens tr = [].
Proof.
  induction 1 as [|e tr He _ IH]; [reflexivity | ].
  destruct e; simpl in *; try exact IH. discriminate He.
Qed.

(** C7. After a run without error that integrated [n > 0] leaves, the
    quota manager was given tokens exactly once: for the four buckets
    tree/read, tree/write, global/read and global/write, and as many as
    the floor of [n] times the greater of [QuotaIncreaseFactor] and 1, the
    product being that of [float64] and its floor an [int]. When no leaves
    are answered, no tokens were put. And a run that put tokens answers no
    error, whatever the quota manager answered. *)
Theorem quota_is_replenished (tree : Tree) (limit : Z) (gw mrd : Duration)
        (w w' : World W) (n : Z) (err : option error) (tr : list Event) :
  IntegrateBatch s U tree limit gw mrd w = (n, err, w', tr) ->
  (err = None -> 0 < n ->
   forall tokens : Z,
     floor_float64 (float64_of_int n * max_float64 (QuotaIncreaseFactor w) 1)%float
     = Some tokens ->
     0 <= tokens <= MaxInt64 ->
     exists r,
       List.filter is_PutTokens tr
       = [EvPutTokens tokens
                      [ quota.mkSpec quota.Tree quota.Read (TreeId tree);
                        quota.mkSpec quota.Tree quota.Write (TreeId tree);
                        quota.mkSpec quota.Global quota.Read 0;
                        quota.mkSpec quota.Global quota.Write 0 ] r])
  /\ (n = 0 -> List.filter is_PutTokens tr = [])
  /\ (forall tokens specs r, In (EvPutTokens tokens specs r) tr -> err = None).
Proof.
  intros Hrun.
  destruct err as [e | ].
  { apply IntegrateBatch_failure in Hrun. destruct Hrun as [-> Hnone].
    split; [discriminate | ]. split; [intros _; apply filter_PutTokens_none, Hnone | ].
    intros tokens specs r Hin. exfalso.
    apply (proj1 (Stdlib.Lists.List.Forall_forall _ _) Hnone) in Hin. discriminate Hin. }
  destruct (IntegrateBatch_success _ _ _ _ _ _ _ _ Hrun)
    as (sth0 & old0 & cutoff & batch0 & leaves & HU0 & Hfetch & Hn & Hcases).
  rewrite <- filter_PutTokens_calls.
  destruct Hcases as [(-> & _ & Hcalls) | Hint].
  { rewrite Hcalls. simpl in Hn. subst n.
    split; [intros _ Hpos; lia | ]. split; [reflexivity | reflexivity]. }
  destruct Hint as (cr & reads & v & ia & nodeMap & newRoot & cr' & targetNodes & now0 & new0
                    & slr0 & quota & _ & Hinit & Hv & Hal & Hupd & _ & Hnew & Hts & Hquota & Hcalls).
  assert (Hfilter : List.filter is_PutTokens (calls tr) = List.filter is_PutTokens quota).
  { rewrite Hcalls. rewrite !List.filter_app.
    assert (List.filter is_PutTokens reads = []) as ->
      by (destruct Hinit as [(_ & _ & ->) | (_ & ids & nodes & _ & -> & _)]; reflexivity).
    assert (List.filter is_PutTokens
              (updateCalls tree (map (withIntegrateTimestamp ia) leaves)) = []) as ->
      by (unfold updateCalls; destruct (TreeType_ tree); reflexivity).
    reflexivity. }
  rewrite Hfilter.
  split; [ | split; [ | reflexivity]].
  - intros _ Hpos tokens Hfloor Hrange.
    destruct Hquota as [(Hle & _) | (_ & r & ->)]; [lia | ].
    exists r. cbn. unfold replenishTokens.
    rewrite (int_of_float64_floor _ tokens Hfloor Hrange). reflexivity.
  - intros Hz. destruct Hquota as [(_ & ->) | (Hpos & _)]; [reflexivity | lia].
Qed.


(** C9. When the transaction body answers an error, at whatever point and
    whatever the number of leaves it had fetched, [IntegrateBatch] answers
    0 leaves and that error; the transaction is rolled back, and the
    record of the call holds no quota replenishment and no update of the
    counter of sequenced leaves. *)
Theorem body_error_answers_zero (tree : Tree) (limit : Z) (gw mrd : Duration)
        (w w2 : World W) (start : Time) (x0 x1 : W) (e : error) (c : Captured)
        (trb : list Event) :
  timeSource s (ext w) = (start, x0) ->
  Begin (logStorage s) tree x0 = (None, x1) ->
  txBody s U tree limit gw mrd start (mkWorld x1 (QuotaIncreaseFactor w))
  = ((Some e, c), w2, trb) ->
  IntegrateBatch s U tree limit gw mrd w
  = ((0, Some e),
     mkWorld (Rollback (Tx (logStorage s)) (ext w2)) (QuotaIncreaseFactor w2),
     EvNow start :: EvBegin None :: trb ++ [EvRollback])
  /\ Forall (fun ev => is_after_commit ev = false)
            (EvNow start :: EvBegin None :: trb ++ [EvRollback]).
Proof.
  intros Hclk Hbegin Hbody.
  split.
  - unfold IntegrateBatch, ReadWriteTransaction.
    cbv beta iota zeta delta [bind ret emit call Now].
    rewrite Hclk. cbn [ext QuotaIncreaseFactor]. rewrite Hbegin.
    cbv beta iota zeta. rewrite Hbody.
    destruct c as [[numLeaves newLogRoot] newSLR].
    cbn [fst snd ext QuotaIncreaseFactor app]. rewrite !List.app_nil_r. reflexivity.
  - constructor; [reflexivity | ]. constructor; [reflexivity | ].
    apply Forall_app. split; [ | repeat constructor].
    eapply Forall_impl; [eapply txBody_events, Hbody | ].
    intros ev. apply body_event_not_after_commit.
Qed.

(** Equivalent IDs are prefixes of the same length with the same bits. *)
Lemma Equivalent_bits (a b : storage.NodeID) :
  storage.Equivalent a b = true
  <-> storage.PrefixLenBits a = storage.PrefixLenBits b
      /\ forall i, 0 <= i ->
            Z.testbit (storage.Path a) (i + (64 - storage.PrefixLenBits a))
            = Z.testbit (storage.Path b) (i + (64 - storage.PrefixLenBits a)).
Proof.
  unfold storage.Equivalent. rewrite andb_true_iff, !Z.eqb_eq. split.
  - intros [Hlen Hbits]. split; [exact Hlen | ]. intros i Hi.
    rewrite <- !Z.shiftr_spec by exact Hi. rewrite Hbits, Hlen. reflexivity.
  - intros [Hlen Hbits]. split; [exact Hlen | ]. rewrite <- Hlen.
    apply Z.bits_inj'. intros i Hi. rewrite !Z.shiftr_spec by exact Hi.
    apply Hbits, Hi.
Qed.

(** The loop over the IDs passes when the nodes answer the IDs, and only
    then. *)
Lemma nodeIDsMatch_answer (nodes : list storage.Node) :
  forall ids : list storage.NodeID,
    length nodes = length ids ->
    (nodeIDsMatch nodes ids = true <-> nodesAnswer nodes ids).
Proof.
  unfold nodesAnswer.
  induction nodes as [|node nodes IH]; intros [|id ids] Hlen; try discriminate Hlen.
  - split; [constructor | reflexivity].
  - simpl. rewrite andb_true_iff, (IH ids) by (injection Hlen as Hlen; exact Hlen).
    split.
    + intros [Hid Hrest]. constructor; assumption.
    + intros Hall. inversion Hall; subst. split; assumption.
Qed.

(** C4. For a tree of size 0, [initCompactRangeFromStorage] reads
    nothing, checks nothing and answers the empty range. For another tree
    it answers a range only when the storage gave as many nodes as were
    asked for, each with an ID equivalent to the one asked for at its
    place, and the root hash computed from their hashes equals the old
    root hash as bytes; when the storage gave nodes of which one of these
    does not hold, it answers an error. And a run of
    [IntegrateBatch] that read the border nodes either had these checks
    pass or ends in an error with no leaves and without a call that
    writes. *)
Theorem compact_range_is_checked :
  (forall (root : LogRootV1) (w : World W),
     TreeSize root = 0 ->
     initCompactRangeFromStorage s root w = (Ok compact.NewEmptyRange, w, []))
  /\ (forall (root : LogRootV1) (w w' : World W) (r : result compact.Range)
             (t : list Event),
        TreeSize root <> 0 ->
        initCompactRangeFromStorage s root w = (r, w', t) ->
        (forall cr, r = Ok cr ->
           exists ids nodes,
             storageIDs root = Ok ids
             /\ t = [EvGetMerkleNodes (i64 (Revision root)) ids (Ok nodes)]
             /\ length nodes = length ids
             /\ nodesAnswer nodes ids
             /\ bytes_Equal
                  (from_option id None
                     (fst (compact.GetRootHash (HashChildren (hasher s)) compact.novisit
                             (compact.mkRange (TreeSize root) (map storage.Hash nodes)) tt)))
                  (RootHash root) = true
             /\ cr = compact.mkRange (TreeSize root) (map storage.Hash nodes))
        /\ (forall rev ids nodes,
              In (EvGetMerkleNodes rev ids (Ok nodes)) t ->
              ~ (length nodes = length ids
                 /\ nodesAnswer nodes ids
                 /\ bytes_Equal
                      (from_option id None
                         (fst (compact.GetRootHash (HashChildren (hasher s)) compact.novisit
                                 (compact.mkRange (TreeSize root) (map storage.Hash nodes))
                                 tt)))
                      (RootHash root) = true) ->
              exists e, r = Err e))
  /\ (forall (tree : Tree) (limit : Z) (gw mrd : Duration) (w w' : World W) (n : Z)
             (err : option error) (tr : list Event) (sth : SignedLogRoot)
             (old : LogRootV1) (rev : Z) (ids : list storage.NodeID)
             (got : result (list storage.Node)),
        IntegrateBatch s U tree limit gw mrd w = (n, err, w', tr) ->
        In (EvLatestSignedLogRoot (Ok sth)) tr ->
        U (LogRoot sth) = Ok old ->
        In (EvGetMerkleNodes rev ids got) tr ->
        TreeSize old <> 0
        /\ storageIDs old = Ok ids
        /\ rev = i64 (Revision old)
        /\ ((exists nodes,
               got = Ok nodes
               /\ length nodes = length ids
               /\ nodesAnswer nodes ids
               /\ bytes_Equal
                    (from_option id None
                       (fst (compact.GetRootHash (HashChildren (hasher s)) compact.novisit
                               (compact.mkRange (TreeSize old) (map storage.Hash nodes)) tt)))
                    (RootHash old) = true)
            \/ (n = 0 /\ err <> None /\ Forall (fun e => is_write e = false) tr))).
Proof.
  split; [ | split].
  - intros root w Hz.
    destruct (initCompactRangeFromStorage_spec s root w)
      as [[_ Hi] | [[Hnz _] | [Hnz _]]]; [exact Hi | contradiction | contradiction].
  - intros root w w' r t Hnz Hrun.
    destruct (initCompactRangeFromStorage_spec s root w)
      as [[Hz _] | [[_ [e Hi]] | [_ (ids & got & x & r0 & Hids & Hget & Hi & Hcr)]]];
      [contradiction | | ].
    { rewrite Hi in Hrun. injection Hrun as <- _ <-.
      split; [discriminate | intros rev ids nodes []]. }
    rewrite Hi in Hrun. injection Hrun as <- _ <-.
    split.
    + intros cr ->.
      destruct (Hcr cr eq_refl) as (nodes & -> & (Hlen & Hmatch & _ & Heq) & ->).
      exists ids, nodes.
      split; [exact Hids | ]. split; [reflexivity | ]. split; [exact Hlen | ].
      split; [apply nodeIDsMatch_answer; assumption | ]. split; [exact Heq | reflexivity].
    + intros rev ids' nodes [[= <- <- ->] | []] Hbad.
      destruct r0 as [cr | e]; [exfalso | exists e; reflexivity].
      destruct (Hcr cr eq_refl) as (nodes' & [= <-] & (Hlen & Hmatch & _ & Heq) & _).
      apply Hbad. split; [exact Hlen | ].
      split; [apply nodeIDsMatch_answer; assumption | exact Heq].
  - intros tree limit gw mrd w w' n err tr sth old rev ids got Hrun Hlatest HU Hget.
    destruct (IntegrateBatch_cases _ _ _ _ _ _ _ _ _ Hrun)
      as (start & x0 & began & x1 & Hclk & Hbegin
          & [(e & _ & _ & _ & ->)
            | (-> & r & c & w2 & trb & post & Hbody & -> & Hpost & Hcases)]).
    { find_event Hlatest. }
    apply In_body in Hlatest; [ | exact Hpost | reflexivity | reflexivity].
    apply In_body in Hget; [ | exact Hpost | reflexivity | reflexivity].
    destruct (txBody_reads s U _ _ _ _ _ _ _ _ _ _ _ _ _ _ _ Hbody Hlatest HU Hget)
      as (Hnz & Hids & Hrev & Hchecks).
    split; [exact Hnz | ]. split; [exact Hids | ]. split; [exact Hrev | ].
    destruct Hchecks as [(nodes & Hgot & Hlen & Hmatch & _ & Heq) | [Herr Hnw]].
    { left. exists nodes. split; [exact Hgot | ]. split; [exact Hlen | ].
      split; [apply nodeIDsMatch_answer; assumption | exact Heq]. }
    right.
    destruct Hcases as [(e & -> & -> & -> & ->) | (-> & _)]; [ | contradiction].
    split; [reflexivity | ]. split; [discriminate | ].
    constructor; [reflexivity | ]. constructor; [reflexivity | ].
    apply Forall_app. split; [exact Hnw | repeat constructor].
Qed.

(** A call that dequeued no leaves and had no root to sign again: it
    answers 0 leaves, its transaction held only the reading of the latest
    root and the dequeue and was committed, no call writes, and the call
    leaves as it is whatever its reads leave as it is. *)
Lemma IntegrateBatch_skip (tree : Tree) (limit : Z) (gw mrd : Duration)
      (w w' : World W) (n : Z) (err : option error) (tr : list Event)
      (sth : SignedLogRoot) (old : LogRootV1) (l : Z) (c : Time) :
  IntegrateBatch s U tree limit gw mrd w = (n, err, w', tr) ->
  In (EvLatestSignedLogRoot (Ok sth)) tr ->
  U (LogRoot sth) = Ok old ->
  In (EvDequeueLeaves l c (Ok [])) tr ->
  (mrd = 0 \/ exists now, emptyCheckTime tr = Some now /\ sinceRoot now old < mrd) ->
  n = 0
  /\ calls tr = [EvBegin None; EvLatestSignedLogRoot (Ok sth);
                 EvDequeueLeaves l c (Ok []); EvCommit err]
  /\ Forall (fun e => is_write e = false) tr
  /\ forall (X : Type) (view : W -> X),
       (forall x, view (snd (timeSource s x)) = view x) ->
       (forall x, view (snd (Begin (logStorage s) tree x)) = view x) ->
       (forall x, view (snd (LatestSignedLogRoot (Tx (logStorage s)) x)) = view x) ->
       (forall x, fst (DequeueLeaves (Tx (logStorage s)) l c x) = Ok [] ->
                  view (snd (DequeueLeaves (Tx (logStorage s)) l c x)) = view x) ->
       (forall x, view (snd (Commit (Tx (logStorage s)) x)) = view x) ->
       view (ext w') = view (ext w).
Proof.
  intros Hrun Hlatest HU Hdq Hcond.
  destruct (IntegrateBatch_cases _ _ _ _ _ _ _ _ _ Hrun)
    as (start & x0 & began & x1 & Hclk & Hbegin
        & [(e & _ & _ & _ & ->)
          | (-> & r & cap & w2 & trb & post & Hbody & -> & Hpost & Hcases)]).
  { find_event Hlatest. }
  rewrite emptyCheckTime_body in Hcond by exact Hpost.
  apply In_body in Hlatest; [ | exact Hpost | reflexivity | reflexivity].
  apply In_body in Hdq; [ | exact Hpost | reflexivity | reflexivity].
  destruct (txBody_skip s U _ _ _ _ _ _ _ _ _ _ _ _ _ _ Hbody Hlatest HU Hdq Hcond)
    as (-> & -> & Hcalls & Hnw & Hframe).
  destruct Hcases as [(e & [=] & _) | (_ & x3 & after & Hcommit & -> & Herr & Hok)].
  assert (Hend : n = 0 /\ calls after = [] /\ Forall (fun e => is_write e = false) after
                 /\ ext w' = x3).
  { destruct err as [e | ].
    - destruct (Herr ltac:(discriminate)) as (Hn & Hafter & Hx). subst after.
      repeat split; [exact Hn | constructor | exact Hx].
    - destruct (Hok eq_refl) as [Hn [(_ & Hx & Hafter) | (Hpos & _)]];
        cbn [fst] in Hn; [ | lia].
      subst after. repeat split; [exact Hn | repeat constructor | exact Hx]. }
  destruct Hend as (Hn & Hafter & Hnw' & Hx).
  split; [exact Hn | ].
  split; [rewrite calls_call, Hcalls; unfold calls at 1; cbn [List.filter is_call];
          fold (calls after); rewrite Hafter; reflexivity | ].
  split.
  { constructor; [reflexivity | ]. constructor; [reflexivity | ].
    apply Forall_app. split; [exact Hnw | ]. constructor; [reflexivity | exact Hnw']. }
  intros X view Hclock Hbeg Hread Hdequeue Hcommit'.
  rewrite Hx.
  pose proof (Hcommit' (ext w2)) as H1. rewrite Hcommit in H1. cbn [snd] in H1.
  pose proof (Hframe X view Hclock Hread Hdequeue) as H2. cbn [ext] in H2.
  pose proof (Hbeg x0) as H3. rewrite Hbegin in H3. cbn [snd] in H3.
  pose proof (Hclock (ext w)) as H4. rewrite Hclk in H4. cbn [snd] in H4.
  congruence.
Qed.


(** C5. When no leaves were dequeued and either [maxRootDurationInterval]
    is zero or the time since the old root, as the empty-batch check
    computes it, is less than that duration, [IntegrateBatch] answers 0
    leaves. The transaction held only the reading of the latest root and
    the dequeue, and was committed: its error, if any, is the one
    answered. Nothing was signed and no call writes. And whatever view of
    the outside world is left as it is by reading the clock, by opening
    and committing a transaction, by reading the latest root and by a
    dequeue that answers no leaves (the stored root with its revision,
    size, hash and timestamp, and the Merkle nodes, in a storage that
    keeps to this), is the same after any number of such calls one after
    the other. *)
Theorem empty_batch_is_skipped :
  (forall (tree : Tree) (limit : Z) (gw mrd : Duration) (w w' : World W) (n : Z)
          (err : option error) (tr : list Event) (sth : SignedLogRoot)
          (old : LogRootV1) (l : Z) (c : Time),
     IntegrateBatch s U tree limit gw mrd w = (n, err, w', tr) ->
     In (EvLatestSignedLogRoot (Ok sth)) tr ->
     U (LogRoot sth) = Ok old ->
     In (EvDequeueLeaves l c (Ok [])) tr ->
     (mrd = 0 \/ exists now, emptyCheckTime tr = Some now /\ sinceRoot now old < mrd) ->
     n = 0
     /\ calls tr = [EvBegin None; EvLatestSignedLogRoot (Ok sth);
                    EvDequeueLeaves l c (Ok []); EvCommit err]
     /\ Forall (fun e => is_write e = false) tr)
  /\ (forall (tree : Tree) (limit : Z) (gw mrd : Duration) (X : Type) (view : W -> X),
        (forall x, view (snd (timeSource s x)) = view x) ->
        (forall x, view (snd (Begin (logStorage s) tree x)) = view x) ->
        (forall x, view (snd (LatestSignedLogRoot (Tx (logStorage s)) x)) = view x) ->
        (forall l c x, fst (DequeueLeaves (Tx (logStorage s)) l c x) = Ok [] ->
                       view (snd (DequeueLeaves (Tx (logStorage s)) l c x)) = view x) ->
        (forall x, view (snd (Commit (Tx (logStorage s)) x)) = view x) ->
        forall w w' : World W,
          skipped_runs s U tree limit gw mrd w w' -> view (ext w') = view (ext w)).
Proof.
  split.
  - intros tree limit gw mrd w w' n err tr sth old l c Hrun Hlatest HU Hdq Hcond.
    destruct (IntegrateBatch_skip _ _ _ _ _ _ _ _ _ _ _ _ _ Hrun Hlatest HU Hdq Hcond)
      as (Hn & Hcalls & Hnw & _).
    split; [exact Hn | ]. split; [exact Hcalls | exact Hnw].
  - intros tree limit gw mrd X view Hclock Hbeg Hread Hdequeue Hcommit w w' Hruns.
    induction Hruns as [w | w w1 w2 n err tr sth old l c Hrun Hlatest HU Hdq Hcond _ IH];
      [reflexivity | ].
    destruct (IntegrateBatch_skip _ _ _ _ _ _ _ _ _ _ _ _ _ Hrun Hlatest HU Hdq Hcond)
      as (_ & _ & _ & Hframe).
    rewrite IH. apply Hframe; auto.
Qed.

Lemma rebuilt_when_fetching_dequeue (pre post : list Event) (l : Z) (c : Time)
      (r : result (list LogLeaf)) :
  (forall rev ids got, ~ In (EvGetMerkleNodes rev ids got) pre) ->
  rebuilt_when_fetching false (pre ++ EvDequeueLeaves l c r :: post) = false.
Proof.
  induction pre as [|e pre IH]; intros Hno; [reflexivity | ].
  destruct e; simpl;
    first [ apply IH; intros rev' ids' got' Hin; apply (Hno rev' ids' got'); right; exact Hin
          | reflexivity
          | exfalso; eapply Hno; left; reflexivity ].
Qed.

(** C8, as the code has it. In every run the batch is fetched first: a
    read of Merkle nodes, by which the compact range is rebuilt, comes
    after the one dequeue of the run, and that dequeue answered a batch;
    no Merkle nodes are read before it, so that the record is not one of a
    rebuild before the fetch. *)
Theorem fetch_precedes_rebuild (tree : Tree) (limit : Z) (gw mrd : Duration)
        (w w' : World W) (n : Z) (err : option error) (tr : list Event)
        (rev : Z) (ids : list storage.NodeID) (got : result (list storage.Node)) :
  IntegrateBatch s U tree limit gw mrd w = (n, err, w', tr) ->
  In (EvGetMerkleNodes rev ids got) tr ->
  (exists pre post l c batch,
     tr = pre ++ EvDequeueLeaves l c (Ok batch) :: post
     /\ In (EvGetMerkleNodes rev ids got) post
     /\ (forall rev' ids' got', ~ In (EvGetMerkleNodes rev' ids' got') pre)
     /\ (forall l' c' r', ~ In (EvDequeueLeaves l' c' r') pre)
     /\ (forall l' c' r', ~ In (EvDequeueLeaves l' c' r') post))
  /\ rebuild_before_fetch tr = false.
Proof.
  intros Hrun Hget.
  destruct (IntegrateBatch_cases _ _ _ _ _ _ _ _ _ Hrun)
    as (start & x0 & began & x1 & Hclk & Hbegin
        & [(e & _ & _ & _ & ->)
          | (-> & r & cap & w2 & trb & post & Hbody & -> & Hpost & _)]).
  { find_event Hget. }
  apply In_body in Hget; [ | exact Hpost | reflexivity | reflexivity].
  destruct (txBody_order s U _ _ _ _ _ _ _ _ _ _ _ _ Hbody Hget)
    as (pre & post0 & l & c & batch & -> & Hin & Hpre & Hpost0).
  assert (Hnoget : forall rev' ids' got',
             ~ In (EvGetMerkleNodes rev' ids' got') (EvNow start :: EvBegin None :: pre)).
  { intros rev' ids' got' [[=] | [[=] | Hin']]. destruct (Hpre _ Hin' eq_refl) as [? [=]]. }
  assert (Hshape : EvNow start :: EvBegin None
                   :: (pre ++ EvDequeueLeaves l c (Ok batch) :: post0) ++ post
                   = (EvNow start :: EvBegin None :: pre)
                     ++ EvDequeueLeaves l c (Ok batch) :: post0 ++ post).
  { cbn [app]. rewrite <- List.app_assoc. reflexivity. }
  split.
  - exists (EvNow start :: EvBegin None :: pre), (post0 ++ post), l, c, batch.
    split; [exact Hshape | ].
    split; [apply in_or_app; left; exact Hin | ].
    split; [exact Hnoget | ].
    split; [intros l' c' r' [[=] | [[=] | Hin']];
            destruct (Hpre _ Hin' eq_refl) as [? [=]] | ].
    intros l' c' r' Hin'. apply in_app_or in Hin'.
    destruct Hin' as [Hin' | Hin']; [exact (Hpost0 _ _ _ Hin') | ].
    apply (proj1 (Stdlib.Lists.List.Forall_forall _ _) Hpost) in Hin'. discriminate Hin'.
  - unfold rebuild_before_fetch. rewrite Hshape.
    apply rebuilt_when_fetching_dequeue, Hnoget.
Qed.

(** C10. When the latest signed log root decodes to a root without a root
    hash, [IntegrateBatch] answers [storage.ErrTreeNeedsInit] and no
    leaves, whatever the type of the tree: the batch is not even fetched,
    and an unsupported tree type is not reported. *)
Theorem fresh_log_needs_init (tree : Tree) (limit : Z) (gw mrd : Duration)
        (w w' : World W) (n : Z) (err : option error) (tr : list Event)
        (sth : SignedLogRoot) (old : LogRootV1) :
  IntegrateBatch s U tree limit gw mrd w = (n, err, w', tr) ->
  In (EvLatestSignedLogRoot (Ok sth)) tr ->
  U (LogRoot sth) = Ok old ->
  RootHash old = None ->
  n = 0 /\ err = Some ErrTreeNeedsInit
  /\ forall l c r, ~ In (EvDequeueLeaves l c r) tr.
Proof.
  intros Hrun Hev HU Hroot.
  destruct (IntegrateBatch_cases _ _ _ _ _ _ _ _ _ Hrun)
    as (start & x0 & began & x1 & Hclk & Hbegin
        & [(e & _ & _ & _ & ->)
          | (-> & r & cap & w2 & trb & post & Hbody & -> & Hpost & Hcases)]).
  { find_event Hev. }
  apply In_body in Hev; [ | exact Hpost | reflexivity | reflexivity].
  destruct (txBody_needs_init s U _ _ _ _ _ _ _ _ _ _ _ _ Hbody Hev HU Hroot)
    as [-> Hnodq].
  destruct Hcases as [(e & [= <-] & -> & -> & ->) | ([=] & _)].
  split; [reflexivity | ]. split; [reflexivity | ].
  intros l c r [[=] | [[=] | Hin]]. apply in_app_or in Hin.
  destruct Hin as [Hin | [[=] | []]]. exact (Hnodq _ _ _ Hin).
Qed.
End SequencerFacts.

(** ** The scenarios of the specification, run on the in-memory log *)

Lemma answers_border_spec (h : LogHasher) (leaves : list bytes) (tr : list Event) :
  forallb (answers_border h leaves) tr = true ->
  forall rev ids nodes, In (EvGetMerkleNodes rev ids (Ok nodes)) tr ->
    map storage.Hash nodes = border (HashChildren h) (EmptyRoot h) leaves.
Proof.
  intros H rev ids nodes Hin. rewrite forallb_forall in H.
  specialize (H _ Hin). simpl in H. exact (bool_decide_eq_true_1 _ H).
Qed.

Example E1_root :
  fst (fst (fst testonly.E1)) = 3
  /\ testonly.latestRoot (testonly.after testonly.E1)
     = Ok (mkLogRootV1 3
             (HashChildren testonly.hasher
                (HashChildren testonly.hasher testonly.h0 testonly.h1) testonly.h2)
             115 1).
Proof. vm_compute. split; reflexivity. Qed.

Example E2_root :
  fst (fst (fst testonly.E2)) = 1
  /\ testonly.latestRoot (testonly.after testonly.E2)
     = Ok (mkLogRootV1 4
             (HashChildren testonly.hasher
                (HashChildren testonly.hasher testonly.h0 testonly.h1)
                (HashChildren testonly.hasher testonly.h2 testonly.h3))
             133 2).
Proof. vm_compute. split; reflexivity. Qed.

(** The product of [replenishQuota] is that of [float64]: 20 leaves at a
    factor of 1.15 give 23 tokens, the factor being the nearest [float64]
    below 1.15. *)
Example tokens_of_twenty :
  floor_float64 (float64_of_int 20 * max_float64 0x1.2666666666666p+0 1)%float = Some 23.
Proof. vm_compute. reflexivity. Qed.

(** A hypothesis about a scenario is discharged by running the scenario;
    the record of a run is searched for an event. *)
Ltac in_record := cbn [In]; repeat (first [left; reflexivity | right]).
Ltac by_running := vm_compute; first [reflexivity | discriminate | solve [in_record]].
Ltac in_range := vm_compute; split; first [reflexivity | discriminate].

Lemma new_root_hash_is_merkle_root_witness :
  TreeSize testonly.root2
  = Z.of_nat (length ([testonly.h0; testonly.h1; testonly.h2]
                      ++ map MerkleLeafHash [testonly.queued Byte.x03]))
  /\ RootHash testonly.root2
     = merkle_root (HashChildren (hasher testonly.sequencer))
                   (EmptyRoot (hasher testonly.sequencer))
                   ([testonly.h0; testonly.h1; testonly.h2]
                    ++ map MerkleLeafHash [testonly.queued Byte.x03]).
Proof.
  pose proof (new_root_hash_is_merkle_root testonly.sequencer testonly.UnmarshalBinary
                testonly.logTree 3 0 0 (testonly.after testonly.E1)
                (testonly.after testonly.E2) 1 (snd testonly.E2)
                testonly.sth1 testonly.sth2 testonly.root1 testonly.root2
                [testonly.h0; testonly.h1; testonly.h2] [testonly.queued Byte.x03] 3 118
                ltac:(by_running) ltac:(by_running) ltac:(by_running) ltac:(by_running)
                ltac:(by_running) ltac:(by_running) ltac:(by_running) ltac:(by_running)
                (answers_border_spec (hasher testonly.sequencer)
                   [testonly.h0; testonly.h1; testonly.h2] (snd testonly.E2)
                   ltac:(by_running)))
    as H.
  exact (conj (proj1 H) (proj1 (proj2 H))).
Defined.

Lemma new_root_advances_witness :
  Revision testonly.root2 = Revision testonly.root1 + 1
  /\ TimestampNanos testonly.root1 < TimestampNanos testonly.root2
  /\ TreeSize testonly.root1 <= TreeSize testonly.root2 <= TreeSize testonly.root1 + 3.
Proof.
  pose proof (new_root_advances testonly.sequencer testonly.UnmarshalBinary
                testonly.logTree 3 0 0 (testonly.after testonly.E1)
                (testonly.after testonly.E2) 1 (snd testonly.E2)
                testonly.sth1 testonly.sth2 testonly.root1 testonly.root2
                ltac:(by_running) ltac:(by_running) ltac:(by_running) ltac:(by_running)
                ltac:(by_running))
    as H.
  exact (conj (proj1 (proj2 H) ltac:(in_range))
           (conj (proj1 (proj2 (proj2 (proj2 H))))
              (proj2 (proj2 (proj2 (proj2 (proj2 H))) ltac:(in_range)
                        3 118 [testonly.queued Byte.x03] ltac:(by_running))
                     ltac:(by_running)))).
Defined.

Lemma leaf_indices_are_aligned_witness :
  (exists k : nat,
      (k < length [testonly.queued Byte.x00; testonly.queued Byte.x01])%nat
      /\ i64 (u64 (treeSize (mksequencingTaskData 7 (2 ^ 63 - 1)) + u64 (Z.of_nat k))) < 0)
  /\ exists leaves,
       fetched testonly.logTree (TreeSize testonly.root1) [testonly.queued Byte.x03]
       = Ok leaves
       /\ forall (k : nat) (leaf : LogLeaf), leaves !! k = Some leaf ->
            LeafIndex leaf = TreeSize testonly.root1 + Z.of_nat k.
Proof.
  pose proof (leaf_indices_are_aligned testonly.sequencer testonly.UnmarshalBinary) as H.
  pose proof (proj1 H (mksequencingTaskData 7 (2 ^ 63 - 1)) 3 100
                (mkWorld (testonly.emptyLog 100 [testonly.queued Byte.x00;
                                                 testonly.queued Byte.x01]) 1%float)
                (snd (fst testonly.overflowing)) (fst (fst testonly.overflowing))
                (snd testonly.overflowing)
                [testonly.queued Byte.x00; testonly.queued Byte.x01]
                ltac:(by_running) ltac:(by_running))
    as Hfetch.
  pose proof (proj2 H testonly.logTree 3 0 0 (testonly.after testonly.E1)
                (testonly.after testonly.E2) 1 None (snd testonly.E2)
                testonly.sth1 testonly.root1 3 118 [testonly.queued Byte.x03]
                ltac:(by_running) ltac:(by_running) ltac:(by_running) ltac:(in_range)
                ltac:(by_running))
    as Hbatch.
  exact (conj (proj1 (proj1 Hfetch)
                 (ex_intro (fun e => fst (fst testonly.overflowing) = Err e)
                           (Errorf "%v: leaf index overflow: %d") ltac:(by_running)))
              (proj1 Hbatch eq_refl)).
Defined.

Lemma compact_range_is_checked_witness :
  (storageIDs testonly.root1 = Ok testonly.borderIDs
   /\ length testonly.borderNodes = length testonly.borderIDs
   /\ nodesAnswer testonly.borderNodes testonly.borderIDs
   /\ bytes_Equal
        (from_option id None
           (fst (compact.GetRootHash (HashChildren (hasher testonly.sequencer))
                   compact.novisit
                   (compact.mkRange (TreeSize testonly.root1)
                                    (map storage.Hash testonly.borderNodes)) tt)))
        (RootHash testonly.root1) = true)
  /\ exists e, fst (fst testmore.reordered) = Err e.
Proof.
  pose proof (proj2 (proj2 (compact_range_is_checked testonly.sequencer
                              testonly.UnmarshalBinary))
                testonly.logTree 3 0 0 (testonly.after testonly.E1)
                (testonly.after testonly.E2) 1 None (snd testonly.E2)
                testonly.sth1 testonly.root1 1 testonly.borderIDs (Ok testonly.borderNodes)
                ltac:(by_running) ltac:(by_running) ltac:(by_running) ltac:(by_running))
    as (_ & Hids & _ & Hchecks).
  assert (Hsize : TreeSize testonly.root1 <> 0) by by_running.
  assert (Hrun : initCompactRangeFromStorage testmore.reorderingSequencer testonly.root1
                   (testonly.after testonly.E1)
                 = (fst (fst testmore.reordered), snd (fst testmore.reordered),
                    snd testmore.reordered)) by (vm_compute; reflexivity).
  assert (Hread : In (EvGetMerkleNodes 1 testonly.borderIDs (Ok testmore.reorderedNodes))
                     (snd testmore.reordered)) by (vm_compute; in_record).
  pose proof (proj2 (proj1 (proj2 (compact_range_is_checked testmore.reorderingSequencer
                                     testonly.UnmarshalBinary))
                       testonly.root1 (testonly.after testonly.E1)
                       (snd (fst testmore.reordered)) (fst (fst testmore.reordered))
                       (snd testmore.reordered) Hsize Hrun)
                1 testonly.borderIDs testmore.reorderedNodes Hread)
    as Hrefused.
  split.
  - destruct Hchecks as [(nodes & Hnodes & Hc) | (Hn & _)]; [ | discriminate Hn].
    injection Hnodes as <-. exact (conj Hids Hc).
  - apply Hrefused. intros (_ & Hanswer & _).
    inversion Hanswer as [|node0 id0 nodes0 ids0 Hfirst _]. discriminate Hfirst.
Defined.

Lemma empty_batch_is_skipped_witness :
  (fst (fst (fst testonly.E3)) = 0
   /\ calls (snd testonly.E3)
      = [EvBegin None; EvLatestSignedLogRoot (Ok testonly.sth2);
         EvDequeueLeaves 3 136 (Ok []); EvCommit (snd (fst (fst testonly.E3)))]
   /\ Forall (fun e => is_write e = false) (snd testonly.E3))
  /\ testonly.stored (ext (testonly.after testonly.E3again))
     = testonly.stored (ext (testonly.after testonly.E2)).
Proof.
  pose proof (empty_batch_is_skipped testonly.sequencer testonly.UnmarshalBinary) as H.
  refine (conj (proj1 H testonly.logTree 3 0 0 (testonly.after testonly.E2)
                  (testonly.after testonly.E3) (fst (fst (fst testonly.E3)))
                  (snd (fst (fst testonly.E3))) (snd testonly.E3)
                  testonly.sth2 testonly.root2 3 136
                  ltac:(by_running) ltac:(by_running) ltac:(by_running) ltac:(by_running)
                  (or_introl eq_refl))
               (proj2 H testonly.logTree 3 0 0 _ testonly.stored
                  (fun x => eq_refl) (fun x => eq_refl) (fun x => eq_refl)
                  (fun l c x _ => eq_refl) (fun x => eq_refl)
                  (testonly.after testonly.E2) (testonly.after testonly.E3again)
                  (skipped_next testonly.sequencer testonly.UnmarshalBinary
                     testonly.logTree 3 0 0
                     (testonly.after testonly.E2) (testonly.after testonly.E3)
                     (testonly.after testonly.E3again)
                     (fst (fst (fst testonly.E3))) (snd (fst (fst testonly.E3)))
                     (snd testonly.E3) testonly.sth2 testonly.root2 3 136
                     ltac:(by_running) ltac:(by_running) ltac:(by_running)
                     ltac:(by_running) (or_introl eq_refl)
                     (skipped_next testonly.sequencer testonly.UnmarshalBinary
                        testonly.logTree 3 0 0
                        (testonly.after testonly.E3) (testonly.after testonly.E3again)
                        (testonly.after testonly.E3again)
                        (fst (fst (fst testonly.E3again)))
                        (snd (fst (fst testonly.E3again)))
                        (snd testonly.E3again) testonly.sth3 testonly.root3 3 143
                        ltac:(by_running) ltac:(by_running) ltac:(by_running)
                        ltac:(by_running) (or_introl eq_refl)
                        (skipped_none testonly.sequencer testonly.UnmarshalBinary
                           testonly.logTree 3 0 0 (testonly.after testonly.E3again)))))).
Defined.

Lemma forced_resign_witness :
  fst (fst (fst testonly.E4)) = 0
  /\ exists new slr,
       In (EvSignLogRoot new (Ok slr)) (snd testonly.E4)
       /\ In (EvStoreSignedLogRoot slr None) (snd testonly.E4)
       /\ TreeSize new = TreeSize testonly.root3
       /\ bytes_Equal (RootHash new) (RootHash testonly.root3) = true
       /\ Revision new = u64 (Revision testonly.root3 + 1)
       /\ TimestampNanos testonly.root3 < TimestampNanos new.
Proof.
  pose proof (forced_resign testonly.sequencer testonly.UnmarshalBinary
                testonly.logTree 3 0 1 (testonly.after testonly.E3)
                (testonly.after testonly.E4) (fst (fst (fst testonly.E4))) None
                (snd testonly.E4) testonly.sth3 testonly.root3 3 143 148
                ltac:(by_running) ltac:(by_running) ltac:(by_running) ltac:(by_running)
                ltac:(by_running) ltac:(by_running) ltac:(by_running) ltac:(by_running))
    as H.
  exact (conj (proj1 H) (proj2 H eq_refl)).
Defined.

Lemma quota_is_replenished_witness :
  exists r,
    List.filter is_PutTokens (snd testonly.E1)
    = [EvPutTokens 3
                   [ quota.mkSpec quota.Tree quota.Read (TreeId testonly.logTree);
                     quota.mkSpec quota.Tree quota.Write (TreeId testonly.logTree);
                     quota.mkSpec quota.Global quota.Read 0;
                     quota.mkSpec quota.Global quota.Write 0 ] r].
Proof.
  pose proof (quota_is_replenished testonly.sequencer testonly.UnmarshalBinary
                testonly.logTree 3 0 0 testonly.fresh (testonly.after testonly.E1)
                3 None (snd testonly.E1) ltac:(by_running))
    as H.
  exact (proj1 H eq_refl ltac:(by_running) 3 ltac:(by_running) ltac:(in_range)).
Defined.

Lemma fetch_precedes_rebuild_witness :
  (exists pre post l c batch,
      snd testonly.E2 = pre ++ EvDequeueLeaves l c (Ok batch) :: post
      /\ In (EvGetMerkleNodes 1 testonly.borderIDs (Ok testonly.borderNodes)) post
      /\ (forall rev' ids' got', ~ In (EvGetMerkleNodes rev' ids' got') pre)
      /\ (forall l' c' r', ~ In (EvDequeueLeaves l' c' r') pre)
      /\ (forall l' c' r', ~ In (EvDequeueLeaves l' c' r') post))
  /\ rebuild_before_fetch (snd testonly.E2) = false.
Proof.
  exact (fetch_precedes_rebuild testonly.sequencer testonly.UnmarshalBinary
           testonly.logTree 3 0 0 (testonly.after testonly.E1)
           (testonly.after testonly.E2) 1 None (snd testonly.E2)
           1 testonly.borderIDs (Ok testonly.borderNodes)
           ltac:(by_running) ltac:(by_running)).
Defined.

(** C8 as it is stated does not hold of E2, a run without error that
    integrated one leaf into a tree of three: its record is not one of a
    rebuild before the fetch. *)
Lemma rebuild_follows_fetch_in_E2 :
  fst (fst testonly.E2) = (1, None) /\ rebuild_before_fetch (snd testonly.E2) = false.
Proof. vm_compute. split; reflexivity. Qed.

Lemma body_error_answers_zero_witness :
  fst (fst (snd (fst (fst testonly.E5body)))) = 1
  /\ IntegrateBatch testonly.sequencer testonly.UnmarshalBinary testonly.logTree 3 0 0
                    testonly.broken
     = ((0, Some (Wrapf "%v: signer failed to sign root: %v" (ErrExternal 1))),
        mkWorld (Rollback (Tx (logStorage testonly.sequencer))
                          (ext (snd (fst testonly.E5body))))
                (QuotaIncreaseFactor (snd (fst testonly.E5body))),
        EvNow 100 :: EvBegin None :: snd testonly.E5body ++ [EvRollback])
  /\ Forall (fun ev => is_after_commit ev = false)
            (EvNow 100 :: EvBegin None :: snd testonly.E5body ++ [EvRollback]).
Proof.
  pose proof (body_error_answers_zero testonly.sequencer testonly.UnmarshalBinary
                testonly.logTree 3 0 0 testonly.broken (snd (fst testonly.E5body)) 100
                (snd (testonly.Now (ext testonly.broken))) testonly.E5begun
                (Wrapf "%v: signer failed to sign root: %v" (ErrExternal 1))
                (snd (fst (fst testonly.E5body))) (snd testonly.E5body)
                ltac:(by_running) ltac:(by_running) ltac:(by_running))
    as H.
  split; [by_running | exact H].
Defined.

Lemma fresh_log_needs_init_witness :
  fst (fst (fst testonly.E6)) = 0
  /\ snd (fst (fst testonly.E6)) = Some ErrTreeNeedsInit
  /\ forall l c r, ~ In (EvDequeueLeaves l c r) (snd testonly.E6).
Proof.
  exact (fresh_log_needs_init testonly.sequencer testonly.UnmarshalBinary
           testonly.mapTree 3 0 0 testonly.uninitialised (testonly.after testonly.E6)
           (fst (fst (fst testonly.E6))) (snd (fst (fst testonly.E6))) (snd testonly.E6)
           (testonly.latest (ext testonly.uninitialised)) (mkLogRootV1 0 None 0 0)
           ltac:(by_running) ltac:(by_running) ltac:(by_running) ltac:(by_running)).
Defined.

(** * Further properties of the sequencer *)

(** The calls of an explicit record. *)
Ltac explicit_calls :=
  unfold calls; cbn [List.filter is_call app];
  rewrite ?List.filter_app;
  repeat match goal with
         | Hmd : mergeDelays _ ?t |- context [List.filter is_call ?t] =>
             rewrite (calls_mergeDelays _ _ Hmd)
         end;
  cbn [List.filter is_call app].

(** The answer of the storage to a read of border nodes that went well. *)
Ltac read_answer :=
  repeat match goal with
         | H : forall cr, Ok _ = Ok cr -> exists nodes, _ |- _ =>
             destruct (H _ eq_refl) as (? & -> & ? & ->); clear H
         | H : forall cr, Err _ = Ok cr -> _ |- _ => clear H
         end.

Section PipelineFacts.
Context {W : Type} (s : Sequencer W) (U : bytes -> result LogRootV1).

Lemma ascending_weaken (ps : list nat) (lo hi : nat) :
  (lo <= hi)%nat -> ascending hi ps = true -> ascending lo ps = true.
Proof.
  destruct ps as [|p rest]; [reflexivity | ]. simpl. intros Hle H.
  apply andb_true_iff in H. destruct H as [Hlt Hrest].
  apply andb_true_iff. split; [ | exact Hrest].
  apply Nat.ltb_lt in Hlt. apply Nat.ltb_lt. lia.
Qed.

Lemma ascending_app (l1 l2 : list nat) (lo hi : nat) :
  (lo <= hi)%nat ->
  ascending lo l1 = true ->
  forallb (fun p => (p <=? hi)%nat) l1 = true ->
  ascending hi l2 = true ->
  ascending lo (l1 ++ l2) = true.
Proof.
  revert lo. induction l1 as [|p l1 IH]; intros lo Hle H1 Hhi H2.
  - exact (ascending_weaken _ _ _ Hle H2).
  - simpl in *.
    apply andb_true_iff in H1. destruct H1 as [Hlt Hrest].
    apply andb_true_iff in Hhi. destruct Hhi as [Hp Hhi].
    apply Nat.leb_le in Hp.
    apply andb_true_iff. split; [exact Hlt | ]. apply IH; assumption.
Qed.

Lemma ascending_sorted (ps : list nat) (lo : nat) :
  ascending lo ps = true -> StronglySorted lt ps /\ Forall (lt lo) ps.
Proof.
  revert lo. induction ps as [|p ps IH]; intros lo H; [split; constructor | ].
  simpl in H. apply andb_true_iff in H. destruct H as [Hlt Hrest].
  apply Nat.ltb_lt in Hlt. destruct (IH p Hrest) as [Hs Hall].
  split.
  - constructor; assumption.
  - constructor; [exact Hlt | ].
    eapply Forall_impl; [exact Hall | ]. intros q Hq. simpl in Hq. lia.
Qed.

Lemma fail_stop_app (l1 l2 : list Event) :
  fail_stop l1 = true ->
  forallb (fun e => negb (is_Rollback e)) l1 = true ->
  (if existsb failed l1 then at_most_rollback l2 else fail_stop l2) = true ->
  fail_stop (l1 ++ l2) = true.
Proof.
  induction l1 as [|e l1 IH]; intros H1 Hnr H2; [exact H2 | ].
  simpl in *. apply andb_true_iff in Hnr. destruct Hnr as [_ Hnr].
  destruct (failed e); simpl in H2.
  - destruct l1 as [|e1 l1]; [exact H2 | ].
    destruct l1; [ | discriminate H1].
    simpl in H1, Hnr. rewrite H1 in Hnr. discriminate Hnr.
  - apply IH; assumption.
Qed.

Lemma fail_stop_spec (cs pre post : list Event) (e : Event) :
  fail_stop cs = true -> cs = pre ++ e :: post -> failed e = true ->
  post = [] \/ post = [EvRollback].
Proof.
  intros H -> He. induction pre as [|e0 pre IH]; simpl in H.
  - rewrite He in H. destruct post as [|e1 [|e2 post]]; simpl in H.
    + left. reflexivity.
    + right. destruct e1; try discriminate H. reflexivity.
    + discriminate H.
  - destruct (failed e0) eqn:H0; [ | exact (IH H)].
    destruct pre as [|e1 pre]; simpl in H.
    + destruct post; simpl in H; [ | discriminate H].
      destruct e; try discriminate H. discriminate He.
    + destruct pre; discriminate H.
Qed.

(** In its second half the body makes its calls in their order, none of
    them after one that failed, and it answers an error when one failed. *)
Lemma txBodyIntegrate_pipeline (tree : Tree) (old : LogRootV1) (normal : bool)
      (d : sequencingTaskData) (leaves : list LogLeaf) (w w' : World W)
      (r : option error) (c : Captured) (tr : list Event) :
  txBodyIntegrate s tree old (taskOf s normal d) leaves w = ((r, c), w', tr) ->
  ascending 3 (map stage (calls tr)) = true
  /\ forallb (fun p => (p <=? 9)%nat) (map stage (calls tr)) = true
  /\ forallb (fun e => negb (is_Rollback e)) (calls tr) = true
  /\ fail_stop (calls tr) = true
  /\ (r = None -> existsb failed (calls tr) = false).
Proof.
  intros Hrun. unfold txBodyIntegrate in Hrun. destruct normal.
  all: run Hrun; end_run Hrun; read_answer.
  all: try match goal with got : result (list storage.Node) |- _ => destruct got end.
  all: explicit_calls.
  all: repeat split; try reflexivity; intros [=].
Qed.

Lemma txBody_pipeline (tree : Tree) (limit : Z) (gw mrd : Duration) (start : Time)
      (w w' : World W) (r : option error) (c : Captured) (tr : list Event) :
  txBody s U tree limit gw mrd start w = ((r, c), w', tr) ->
  ascending 1 (map stage (calls tr)) = true
  /\ forallb (fun p => (p <=? 9)%nat) (map stage (calls tr)) = true
  /\ forallb (fun e => negb (is_Rollback e)) (calls tr) = true
  /\ fail_stop (calls tr) = true
  /\ (r = None -> existsb failed (calls tr) = false).
Proof.
  intros Hrun. unfold txBody, txBodyMain in Hrun.
  run Hrun; end_run Hrun.
  all: try match goal with
       | Hint : txBodyIntegrate _ _ _ (logSequencingTask _ _) _ _ = _ |- _ =>
           destruct (txBodyIntegrate_pipeline _ _ true _ _ _ _ _ _ _ Hint)
             as (Hasc & Hhi & Hnr & Hfs & Hok); clear Hint
       | Hint : txBodyIntegrate _ _ _ (preorderedLogSequencingTask _ _) _ _ = _ |- _ =>
           destruct (txBodyIntegrate_pipeline _ _ false _ _ _ _ _ _ _ Hint)
             as (Hasc & Hhi & Hnr & Hfs & Hok); clear Hint
       end.
  all: explicit_calls; rewrite ?List.app_nil_r.
  all: try fold (calls tint).
  all: try solve [repeat split; try reflexivity; intros [=]].
  all: cbn [map stage ascending forallb fail_stop failed existsb is_Rollback negb
            Nat.ltb Nat.leb andb orb].
  all: repeat split; try assumption.
Qed.
End PipelineFacts.

Section FurtherFacts.
Context {W : Type} (s : Sequencer W) (U : bytes -> result LogRootV1).

Lemma stage_of_body_call (e : Event) :
  (2 <= stage e <= 9)%nat -> is_call e = true /\ is_body_event e = true.
Proof. destruct e; simpl; intros H; try lia; split; reflexivity. Qed.

(** A call of the second half of the body is a call of a run of
    [txBodyIntegrate]: on the root that the body read, with the task of
    the tree's type, and on the leaves that the task fetched. *)
Lemma txBody_integrates (tree : Tree) (limit : Z) (gw mrd : Duration) (start : Time)
      (w w' : World W) (r : option error) (c : Captured) (tr : list Event) (e : Event) :
  txBody s U tree limit gw mrd start w = ((r, c), w', tr) ->
  In e tr -> (4 <= stage e)%nat ->
  exists sth old normal cutoff batch leaves w1 w2 tint,
    In (EvLatestSignedLogRoot (Ok sth)) tr
    /\ U (LogRoot sth) = Ok old
    /\ TreeType_ tree = (if normal : bool then TreeType_LOG else TreeType_PREORDERED_LOG)
    /\ In (EvDequeueLeaves limit cutoff (Ok batch)) tr
    /\ fetched tree (TreeSize old) batch = Ok leaves
    /\ txBodyIntegrate s tree old
         (taskOf s normal (mksequencingTaskData (TreeId tree) (TreeSize old))) leaves w1
       = ((r, c), w2, tint)
    /\ In e tint
    /\ (forall e', In e' tint -> In e' tr)
    /\ (forall e', In e' tr -> (4 <= stage e')%nat -> In e' tint).
Proof.
  intros Hrun Hin Hstage. unfold txBody, txBodyMain in Hrun.
  run Hrun; end_run Hrun; find_event Hin; try (subst e; simpl in Hstage; lia).
  all: match goal with
       | Hint : txBodyIntegrate _ _ ?old (logSequencingTask _ _) ?leaves ?w1 = _,
         Hd : DequeueLeaves _ _ ?cutoff _ = (Ok ?batch, _),
         Hl : LatestSignedLogRoot _ _ = (Ok ?sth, _) |- _ =>
           exists sth, old, true, cutoff, batch, leaves, w1
       | Hint : txBodyIntegrate _ _ ?old (preorderedLogSequencingTask _ _) ?leaves ?w1 = _,
         Hd : DequeueLeaves _ _ ?cutoff _ = (Ok ?batch, _),
         Hl : LatestSignedLogRoot _ _ = (Ok ?sth, _) |- _ =>
           exists sth, old, false, cutoff, batch, leaves, w1
       end.
  all: eexists _, _.
  all: split; [cbn [In]; auto 10 | ].
  all: split; [assumption | ].
  all: split; [first [assumption | reflexivity] | ].
  all: split; [cbn [In]; auto 10 | ].
  all: split; [unfold fetched; match goal with H : TreeType_ _ = _ |- _ => rewrite H end;
               first [assumption | reflexivity] | ].
  all: split; [eassumption | ].
  all: split; [assumption | ].
  all: split; [intros e' He'; cbn [In]; repeat right; apply in_or_app; left; exact He' | ].
  all: intros e' He' Hst'; find_event He'; try (subst e'; simpl in Hst'; lia).
  all: exact He'.
Qed.
End FurtherFacts.

Section PrepareFacts.
Context {W : Type} (s : Sequencer W).

Lemma prepareLeavesLoop_exact (leaves : list LogLeaf) :
  forall (now : Time) (ia : Timestamp) (begin lbl i : Z) (w : World W),
  exists r t,
    prepareLeavesLoop now ia begin lbl i leaves w = (r, w, t)
    /\ ((all_prepared begin i leaves = true
         /\ r = Ok (map (withIntegrateTimestamp ia) leaves)
         /\ t = mergeDelaysOf now lbl leaves)
        \/ (all_prepared begin i leaves = false /\ exists e, r = Err e)).
Proof.
  induction leaves as [|leaf leaves IH]; intros now ia begin lbl i w.
  - eexists _, _. split; [reflexivity | ]. left. repeat split.
  - destruct (IH now ia begin lbl (i + 1) w) as (r & t & Hrun & Hr).
    cbn [prepareLeavesLoop all_prepared mergeDelaysOf omap].
    fold (mergeDelaysOf now lbl leaves).
    unfold prepared, queuedAt.
    replace (0 <=? LeafIndex leaf) with (negb (LeafIndex leaf <? 0))
      by (destruct (Z.ltb_spec (LeafIndex leaf) 0), (Z.leb_spec 0 (LeafIndex leaf));
          first [reflexivity | lia]).
    destruct (LeafIndex leaf <? 0); cbn [negb orb andb];
      [eexists _, _; split; [reflexivity | right; split; [reflexivity | eauto]] | ].
    destruct (LeafIndex leaf =? i64 (u64 (begin + u64 i))); cbn [negb andb];
      [ | eexists _, _; split; [reflexivity | right; split; [reflexivity | eauto]]].
    unfold bind.
    destruct (QueueTimestamp leaf) as [qts | ] eqn:Hq;
      [destruct (Seconds qts =? 0) eqn:Hs; cbn [negb];
       [ | unfold ptypes_Timestamp; destruct (validateTimestamp qts) eqn:Hv] | ];
      cbn [bind ret emit andb]; rewrite ?Hrun.
    all: try solve [eexists _, _; split; [reflexivity | right; split; [reflexivity | eauto]]].
    all: destruct Hr as [(Hall & -> & ->) | (Hall & e & ->)]; rewrite Hall;
         cbn [ret app]; rewrite ?List.app_nil_r;
         eexists _, _; (split; [reflexivity | ]);
         [left; split; [reflexivity | ] | right; split; [reflexivity | eauto]].
    all: split;
           [cbn [map];
            change (withIntegrateTimestamp ia leaf)
              with (mkLogLeaf (MerkleLeafHash leaf) (LeafIndex leaf) (QueueTimestamp leaf)
                              (Some ia));
            rewrite Hq; reflexivity
           | unfold mergeDelaysOf; simpl; unfold queuedAt, ptypes_Timestamp;
             rewrite Hq, ?Hs, ?Hv; reflexivity].
Qed.

(** What a run of [prepareLeaves] does, in full. *)
Lemma prepareLeaves_run (leaves : list LogLeaf) (begin lbl : Z) (w : World W) :
  exists now x r t,
    timeSource s (ext w) = (now, x)
    /\ prepareLeaves s leaves begin lbl w
       = (r, mkWorld x (QuotaIncreaseFactor w), EvNow now :: t)
    /\ mergeDelays lbl t
    /\ ((exists ia, TimestampProto now = Ok ia
                    /\ all_prepared begin 0 leaves = true
                    /\ r = Ok (map (withIntegrateTimestamp ia) leaves)
                    /\ t = mergeDelaysOf now lbl leaves)
        \/ ((exists e, r = Err e)
            /\ ((exists e, TimestampProto now = Err e)
                \/ all_prepared begin 0 leaves = false))).
Proof.
  destruct (prepareLeaves_spec s leaves begin lbl w)
    as (now & x & r & t & Hclk & Hrun & Hmd & _).
  exists now, x, r, t. split; [exact Hclk | ]. split; [exact Hrun | ].
  split; [exact Hmd | ].
  revert Hrun. unfold prepareLeaves, Now, call, bind. rewrite Hclk.
  destruct (TimestampProto now) as [ia | e] eqn:Hproto.
  - destruct (prepareLeavesLoop_exact leaves now ia begin lbl 0
                (mkWorld x (QuotaIncreaseFactor w))) as (r' & t' & Hrun' & Hr).
    rewrite Hrun'. cbn [app]. intros [= <- <-].
    destruct Hr as [(Hall & -> & ->) | (Hall & e & ->)].
    + left. exists ia. auto.
    + right. split; [eauto | right; exact Hall].
  - cbn [ret app]. intros [= <- <-]. right. split; eauto.
Qed.

Lemma mergeDelaysOf_mergeDelays (now : Time) (lbl : Z) (leaves : list LogLeaf) :
  mergeDelays lbl (mergeDelaysOf now lbl leaves).
Proof.
  unfold mergeDelays, mergeDelaysOf. induction leaves as [|leaf leaves IH]; [constructor | ].
  simpl. destruct (queuedAt leaf) as [qts | ]; [ | exact IH].
  destruct (ptypes_Timestamp qts); [ | exact IH].
  constructor; [eauto | exact IH].
Qed.

(** X1. [prepareLeaves] reads the clock once. It answers an error when the
    time read is no valid timestamp (also for no leaves at all), when a leaf
    does not carry the index of its place, from [begin] on, or carries a
    negative one, and when a queue timestamp with seconds other than zero
    is not valid; a queue timestamp of zero seconds is not looked at.
    Otherwise it gives every leaf the timestamp of the time read as its
    integrate timestamp, changes nothing else of the leaves, and observes
    one merge delay for each leaf queued at seconds other than zero. *)
Theorem prepareLeaves_exact (leaves : list LogLeaf) (begin lbl : Z) (w : World W) :
  exists now x r t,
    timeSource s (ext w) = (now, x)
    /\ prepareLeaves s leaves begin lbl w
       = (r, mkWorld x (QuotaIncreaseFactor w), EvNow now :: t)
    /\ mergeDelays lbl t
    /\ ((exists ia, TimestampProto now = Ok ia
                    /\ all_prepared begin 0 leaves = true
                    /\ r = Ok (map (withIntegrateTimestamp ia) leaves)
                    /\ t = mergeDelaysOf now lbl leaves)
        \/ ((exists e, r = Err e)
            /\ ((exists e, TimestampProto now = Err e)
                \/ all_prepared begin 0 leaves = false))).
Proof. exact (prepareLeaves_run leaves begin lbl w). Qed.
End PrepareFacts.

(** [prepareLeaves] met in a run: by its exact description. *)
Ltac prep_step H :=
  match type of H with
  | context [prepareLeaves ?s ?l ?b ?lbl ?w] =>
      let now := fresh "now" in
      let x := fresh "x" in
      let r := fresh "prepared" in
      let t := fresh "tprep" in
      let ia := fresh "ia" in
      let e := fresh "e" in
      let Hclk := fresh "Hclk" in
      let Hrun := fresh "Hprep" in
      let Hres := fresh "Hprepared" in
      let Hproto := fresh "Hproto" in
      let Hall := fresh "Hall" in
      let Hmd := fresh "Hmd" in
      destruct (prepareLeaves_run s l b lbl w)
        as (now & x & r & t & Hclk & Hrun & Hmd & Hres);
      rewrite Hrun in H; clear Hrun;
      destruct Hres as [(ia & Hproto & Hall & -> & ->) | ((e & ->) & _)]
  end;
  run_cbn H.

Ltac run_exact H := run_cbn H; repeat first [prep_step H | run_step H].

(** An event shown in an explicit record. *)
Ltac show_in := repeat first [left; reflexivity | right | apply in_or_app; right].

Section WriteFacts.
Context {W : Type} (s : Sequencer W).

Lemma mapM_result_Forall {A B : Type} (f : A -> result B) (P : B -> Prop) (l : list A)
      (bs : list B) :
  (forall a b, f a = Ok b -> P b) -> mapM_result f l = Ok bs -> Forall P bs.
Proof.
  intros Hf. revert bs. induction l as [|a l IH]; intros bs H; simpl in H.
  - injection H as <-. constructor.
  - destruct (f a) as [b | e] eqn:Ha; [ | discriminate H].
    destruct (mapM_result f l) as [bs' | e]; [ | discriminate H].
    injection H as <-. constructor; [exact (Hf _ _ Ha) | exact (IH _ eq_refl)].
Qed.

Lemma buildNodesFromNodeMap_revision (nodeMap : gmap compact.NodeID bytes) (v : Z)
      (nodes : list storage.Node) :
  buildNodesFromNodeMap nodeMap v = Ok nodes ->
  Forall (fun node => storage.NodeRevision node = v) nodes.
Proof.
  apply mapM_result_Forall. intros [id hash] node.
  destruct (storage.NewNodeIDForTreeCoords _ _ _); intros [= <-]. reflexivity.
Qed.

(** What the second half of the body signs, stores and writes. *)
Lemma txBodyIntegrate_writes (tree : Tree) (old : LogRootV1) (normal : bool)
      (d : sequencingTaskData) (leaves : list LogLeaf) (w w' : World W)
      (r : option error) (c : Captured) (tr : list Event) :
  txBodyIntegrate s tree old (taskOf s normal d) leaves w = ((r, c), w', tr) ->
  (forall new res, In (EvSignLogRoot new res) tr ->
     TimestampNanos old < TimestampNanos new
     /\ Revision new = u64 (i64 (i64 (Revision old) + 1))
     /\ exists now, In (EvNow now) tr /\ TimestampNanos new = u64 (UnixNano now))
  /\ (forall slr res, In (EvStoreSignedLogRoot slr res) tr ->
        exists new, In (EvSignLogRoot new (Ok slr)) tr)
  /\ (forall nodes res, In (EvSetMerkleNodes nodes res) tr ->
        In (EvWriteRevision (Ok (i64 (i64 (Revision old) + 1)))) tr
        /\ Forall (fun node => storage.NodeRevision node = i64 (i64 (Revision old) + 1))
                  nodes)
  /\ (forall ls res, In (EvUpdateSequencedLeaves ls res) tr ->
        normal = true
        /\ exists now ia, In (EvNow now) tr /\ TimestampProto now = Ok ia
                          /\ ls = map (withIntegrateTimestamp ia) leaves).
Proof.
  intros Hrun. unfold txBodyIntegrate in Hrun. destruct normal.
  all: run_exact Hrun; end_run Hrun; read_answer; bool_facts; subst.
  all: split; [intros new res Hin; find_event Hin | ].
  all: try (injection Hin as <- <-; cbn [TimestampNanos Revision];
            split; [lia | ]; split; [reflexivity | ];
            eexists; split; [ | reflexivity]; show_in).
  all: split; [intros slr res Hin; find_event Hin | ].
  all: try (injection Hin as <- <-; eexists; show_in).
  all: split; [intros nodes res Hin; find_event Hin | ].
  all: try (injection Hin as <- <-; split; [show_in | ];
            eapply buildNodesFromNodeMap_revision; eassumption).
  all: intros ls res Hin; find_event Hin.
  all: injection Hin as <- <-; split; [reflexivity | ].
  all: match goal with Hproto : TimestampProto ?now = Ok ?ia |- _ =>
         exists now, ia; split; [show_in | split; [exact Hproto | reflexivity]]
       end.
Qed.

(** The write revision that the storage answers is the revision of the
    latest root plus one, or [txBodyIntegrate] answers an error after it
    and goes no further. *)
Lemma txBodyIntegrate_revision (tree : Tree) (old : LogRootV1) (normal : bool)
      (d : sequencingTaskData) (leaves : list LogLeaf) (w w' : World W)
      (r : option error) (c : Captured) (tr : list Event) (res : result Z) :
  txBodyIntegrate s tree old (taskOf s normal d) leaves w = ((r, c), w', tr) ->
  In (EvWriteRevision res) tr ->
  res = Ok (i64 (i64 (Revision old) + 1))
  \/ (r = Some match res with
               | Ok _ => Errorf "%v: got writeRevision of %v, but expected %v"
               | Err e => e
               end
      /\ Forall (fun e => (stage e <= 5)%nat) tr).
Proof.
  intros Hrun Hin. unfold txBodyIntegrate in Hrun. destruct normal.
  all: run Hrun; end_run Hrun; bool_facts; find_event Hin.
  all: injection Hin as <-.
  all: first [ left; f_equal; assumption
             | right; split; [reflexivity | ];
               repeat first [ apply Forall_app; split
                            | match goal with
                              | Hmd : mergeDelays _ ?t |- Forall _ ?t =>
                                  eapply Forall_impl; [ | exact Hmd];
                                  intros ? [? ->]; simpl; lia
                              end
                            | constructor; [simpl; lia | ]
                            | constructor ] ].
Qed.
End WriteFacts.

Section CallFacts.
Context {W : Type} (s : Sequencer W) (U : bytes -> result LogRootV1).

Lemma IntegrateBatch_pipeline (tree : Tree) (limit : Z) (gw mrd : Duration)
      (w w' : World W) (n : Z) (err : option error) (tr : list Event) :
  IntegrateBatch s U tree limit gw mrd w = (n, err, w', tr) ->
  ascending 0 (map stage (calls tr)) = true /\ fail_stop (calls tr) = true.
Proof.
  intros Hrun.
  destruct (IntegrateBatch_cases _ _ _ _ _ _ _ _ _ _ _ Hrun)
    as (start & x0 & began & x1 & Hclk & Hbegin
        & [(e & _ & _ & _ & ->)
          | (-> & r & c & w2 & trb & post & Hbody & -> & Hpost & Hcases)]).
  { split; reflexivity. }
  destruct (txBody_pipeline s U _ _ _ _ _ _ _ _ _ _ Hbody)
    as (Hasc & Hhi & Hnr & Hfs & Hok).
  rewrite calls_call.
  assert (Hend : ascending 9 (map stage (calls post)) = true
                 /\ (if existsb failed (calls trb) then at_most_rollback (calls post)
                     else fail_stop (calls post)) = true).
  { destruct Hcases as [(e & -> & _ & _ & ->)
                       | (-> & x3 & after & Hcommit & -> & Herr & Hgood)].
    - split; [reflexivity | ]. destruct (existsb failed (calls trb)); reflexivity.
    - rewrite (Hok eq_refl).
      destruct err as [e | ].
      + destruct (Herr ltac:(discriminate)) as (_ & -> & _). split; reflexivity.
      + destruct (Hgood eq_refl) as [_ [(_ & _ & ->) | (_ & a & ->)]];
          [split; reflexivity | ].
        destruct a; split; reflexivity. }
  destruct Hend as [Hasc' Hfs'].
  split.
  - cbn [map stage ascending Nat.ltb Nat.leb andb]. rewrite map_app.
    apply (ascending_app _ _ 1 9); [lia | exact Hasc | exact Hhi | exact Hasc'].
  - cbn [fail_stop failed]. apply fail_stop_app; assumption.
Qed.

(** X2. [IntegrateBatch] makes its calls in one order and each of them once
    at most: it opens the transaction, reads the latest root, dequeues,
    reads the border nodes, asks for the write revision, updates the
    sequenced leaves, sets the Merkle nodes, has the root signed, stores
    it, commits or rolls back, and puts tokens. *)
Theorem calls_in_order (tree : Tree) (limit : Z) (gw mrd : Duration) (w : World W) :
  StronglySorted lt
    (map stage (calls (snd (IntegrateBatch s U tree limit gw mrd w)))).
Proof.
  destruct (IntegrateBatch s U tree limit gw mrd w) as [[[n err] w'] tr] eqn:Hrun.
  destruct (IntegrateBatch_pipeline _ _ _ _ _ _ _ _ _ Hrun) as [Hasc _].
  exact (proj1 (ascending_sorted _ _ Hasc)).
Qed.

(** X3. After a call that answered an error [IntegrateBatch] makes no other
    call than the rollback of the transaction. And but for the quota
    manager's, the error of a call is never passed over: the run answers
    an error and no leaves. *)
Theorem first_error_stops_the_run (tree : Tree) (limit : Z) (gw mrd : Duration)
        (w w' : World W) (n : Z) (err : option error) (tr : list Event)
        (pre post : list Event) (e : Event) :
  IntegrateBatch s U tree limit gw mrd w = (n, err, w', tr) ->
  calls tr = pre ++ e :: post ->
  failed e = true ->
  (post = [] \/ post = [EvRollback])
  /\ (is_PutTokens e = false -> n = 0 /\ err <> None).
Proof.
  intros Hrun Hcalls He.
  destruct (IntegrateBatch_pipeline _ _ _ _ _ _ _ _ _ Hrun) as [_ Hfs].
  split; [exact (fail_stop_spec _ _ _ _ Hfs Hcalls He) | ].
  intros Hnq.
  destruct err as [e' | ];
    [split; [exact (proj1 (IntegrateBatch_failure s U _ _ _ _ _ _ _ _ _ Hrun))
            | discriminate] | ].
  exfalso.
  assert (Hin : In e (calls tr)) by (rewrite Hcalls; apply in_or_app; right; left; reflexivity).
  destruct (IntegrateBatch_cases _ _ _ _ _ _ _ _ _ _ _ Hrun)
    as (start & x0 & began & x1 & Hclk & Hbegin
        & [(e0 & _ & _ & [=] & _)
          | (-> & r & c & w2 & trb & post0 & Hbody & -> & Hpost
             & [(e0 & _ & _ & [=] & _)
               | (-> & x3 & after & Hcommit & -> & _ & Hgood)])]).
  destruct (txBody_pipeline s U _ _ _ _ _ _ _ _ _ _ Hbody) as (_ & _ & _ & _ & Hok).
  rewrite calls_call in Hin.
  destruct Hin as [<- | Hin]; [discriminate He | ].
  apply in_app_or in Hin. destruct Hin as [Hin | Hin].
  - specialize (Hok eq_refl).
    assert (Hex : existsb failed (calls trb) = true)
      by (apply existsb_exists; exists e; split; assumption).
    congruence.
  - destruct (Hgood eq_refl) as [_ [(_ & _ & ->) | (_ & a & ->)]];
      cbn in Hin; destruct Hin as [<- | Hin]; try discriminate He; try contradiction.
    destruct Hin as [<- | []]. discriminate Hnq.
Qed.

(** A call of the second half of the transaction body, in a run. *)
Lemma IntegrateBatch_integrates (tree : Tree) (limit : Z) (gw mrd : Duration)
      (w w' : World W) (n : Z) (err : option error) (tr : list Event) (e : Event) :
  IntegrateBatch s U tree limit gw mrd w = (n, err, w', tr) ->
  In e tr -> (4 <= stage e <= 9)%nat ->
  exists sth old normal cutoff batch leaves w1 w2 r c tint,
    In (EvLatestSignedLogRoot (Ok sth)) tr
    /\ U (LogRoot sth) = Ok old
    /\ TreeType_ tree = (if normal : bool then TreeType_LOG else TreeType_PREORDERED_LOG)
    /\ In (EvDequeueLeaves limit cutoff (Ok batch)) tr
    /\ fetched tree (TreeSize old) batch = Ok leaves
    /\ txBodyIntegrate s tree old
         (taskOf s normal (mksequencingTaskData (TreeId tree) (TreeSize old))) leaves w1
       = ((r, c), w2, tint)
    /\ In e tint
    /\ (forall e', In e' tint -> In e' tr)
    /\ (forall e', In e' tr -> (4 <= stage e' <= 9)%nat -> In e' tint)
    /\ (forall e0, r = Some e0 -> n = 0 /\ err = Some e0).
Proof.
  intros Hrun Hin Hstage.
  destruct (IntegrateBatch_cases _ _ _ _ _ _ _ _ _ _ _ Hrun)
    as (start & x0 & began & x1 & Hclk & Hbegin
        & [(e0 & _ & _ & _ & ->)
          | (-> & r & c & w2 & trb & post & Hbody & -> & Hpost & Hcases)]).
  { destruct Hin as [<- | [<- | []]]; simpl in Hstage; lia. }
  destruct (stage_of_body_call e ltac:(lia)) as [Hcall Hkind].
  apply In_body in Hin; [ | exact Hpost | exact Hcall | exact Hkind].
  destruct (txBody_integrates s U _ _ _ _ _ _ _ _ _ _ _ Hbody Hin ltac:(lia))
    as (sth & old & normal & cutoff & batch & leaves & w1 & w3 & tint
        & Hl & HU & Htype & Hdq & Hfetch & Hint & Hie & Hsub & Hsup).
  assert (Hback : forall e', In e' (EvNow start :: EvBegin None :: trb ++ post) ->
                             (4 <= stage e' <= 9)%nat -> In e' tint).
  { intros e' He' Hst'. destruct (stage_of_body_call e' ltac:(lia)) as [Hcall' Hkind'].
    apply In_body in He'; [ | exact Hpost | exact Hcall' | exact Hkind'].
    apply Hsup; [exact He' | lia]. }
  assert (Herr : forall e0, r = Some e0 -> n = 0 /\ err = Some e0).
  { intros e0 ->.
    destruct Hcases as [(e1 & [= <-] & -> & -> & _) | ([=] & _)]. split; reflexivity. }
  assert (Hlift : forall e', In e' trb -> In e' (EvNow start :: EvBegin None :: trb ++ post))
    by (intros e' He'; right; right; apply in_or_app; left; exact He').
  exists sth, old, normal, cutoff, batch, leaves, w1, w3, r, c, tint.
  split; [exact (Hlift _ Hl) | ]. split; [exact HU | ]. split; [exact Htype | ].
  split; [exact (Hlift _ Hdq) | ]. split; [exact Hfetch | ]. split; [exact Hint | ].
  split; [exact Hie | ]. split; [intros e' He'; exact (Hlift _ (Hsub _ He')) | ].
  split; [exact Hback | exact Herr].
Qed.
End CallFacts.

Section RunFacts.
Context {W : Type} (s : Sequencer W) (U : bytes -> result LogRootV1).

Ltac integrated Hrun Hin :=
  let Hst := fresh "Hst" in
  match type of Hin with
  | In ?e _ => assert (Hst : (4 <= stage e <= 9)%nat) by (simpl; lia)
  end;
  destruct (IntegrateBatch_integrates s U _ _ _ _ _ _ _ _ _ _ Hrun Hin Hst)
    as (sth & old & normal & cutoff & batch & leaves & w1 & w2 & r & c & tint
        & Hlatest & HU & Htype & Hdq & Hfetch & Hint & Hie & Hsub & Hsup & Herr);
  destruct (txBodyIntegrate_writes s _ _ _ _ _ _ _ _ _ _ Hint)
    as (Hsigns & Hstores & Hnodes & Hupdates).

(** X4. The signer is asked for no other root than one that advances:
    its timestamp is a time that the run read off the clock and is greater
    than that of the latest root, its revision is the one of the latest
    root plus one. This holds of a run that fails later on as well. *)
Theorem signs_only_advancing_roots (tree : Tree) (limit : Z) (gw mrd : Duration)
        (w w' : World W) (n : Z) (err : option error) (tr : list Event)
        (new : LogRootV1) (res : result SignedLogRoot) :
  IntegrateBatch s U tree limit gw mrd w = (n, err, w', tr) ->
  In (EvSignLogRoot new res) tr ->
  exists sth old now,
    In (EvLatestSignedLogRoot (Ok sth)) tr
    /\ U (LogRoot sth) = Ok old
    /\ In (EvNow now) tr
    /\ TimestampNanos new = u64 (UnixNano now)
    /\ TimestampNanos old < TimestampNanos new
    /\ Revision new = u64 (Revision old + 1).
Proof.
  intros Hrun Hin. integrated Hrun Hin.
  destruct (Hsigns _ _ Hie) as (Hts & Hrev & now & Hnow & Hstamp).
  exists sth, old, now.
  split; [exact Hlatest | ]. split; [exact HU | ]. split; [exact (Hsub _ Hnow) | ].
  split; [exact Hstamp | ]. split; [exact Hts | ].
  rewrite Hrev, u64_i64. apply u64_i64_add.
Qed.

(** X5. Nothing is stored as the signed log root but what the signer
    answered in the same run. *)
Theorem stores_what_was_signed (tree : Tree) (limit : Z) (gw mrd : Duration)
        (w w' : World W) (n : Z) (err : option error) (tr : list Event)
        (slr : SignedLogRoot) (res : option error) :
  IntegrateBatch s U tree limit gw mrd w = (n, err, w', tr) ->
  In (EvStoreSignedLogRoot slr res) tr ->
  exists new, In (EvSignLogRoot new (Ok slr)) tr.
Proof.
  intros Hrun Hin. integrated Hrun Hin.
  destruct (Hstores _ _ Hie) as (new & Hnew).
  exists new. exact (Hsub _ Hnew).
Qed.

(** X6. The Merkle nodes that a run sets all carry the write revision that
    the storage answered, which is the revision of the latest root plus
    one. *)
Theorem nodes_carry_the_write_revision (tree : Tree) (limit : Z) (gw mrd : Duration)
        (w w' : World W) (n : Z) (err : option error) (tr : list Event)
        (nodes : list storage.Node) (res : option error) :
  IntegrateBatch s U tree limit gw mrd w = (n, err, w', tr) ->
  In (EvSetMerkleNodes nodes res) tr ->
  exists sth old,
    In (EvLatestSignedLogRoot (Ok sth)) tr
    /\ U (LogRoot sth) = Ok old
    /\ In (EvWriteRevision (Ok (i64 (i64 (Revision old) + 1)))) tr
    /\ Forall (fun node => storage.NodeRevision node = i64 (i64 (Revision old) + 1)) nodes.
Proof.
  intros Hrun Hin. integrated Hrun Hin.
  destruct (Hnodes _ _ Hie) as (Hwr & Hall).
  exists sth, old. auto.
Qed.

(** X7. Sequenced leaves are updated in a normal log only, never in a
    pre-ordered one. The leaves of the update are those that were dequeued,
    numbered from the size of the latest root on, each with the one
    integrate timestamp of a time that the run read off the clock; nothing
    else of them is changed. *)
Theorem updates_the_fetched_leaves (tree : Tree) (limit : Z) (gw mrd : Duration)
        (w w' : World W) (n : Z) (err : option error) (tr : list Event)
        (ls : list LogLeaf) (res : option error) :
  IntegrateBatch s U tree limit gw mrd w = (n, err, w', tr) ->
  In (EvUpdateSequencedLeaves ls res) tr ->
  TreeType_ tree = TreeType_LOG
  /\ exists sth old cutoff batch numbered now ia,
       In (EvLatestSignedLogRoot (Ok sth)) tr
       /\ U (LogRoot sth) = Ok old
       /\ In (EvDequeueLeaves limit cutoff (Ok batch)) tr
       /\ assignLeafIndices (TreeSize old) 0 batch = Ok numbered
       /\ In (EvNow now) tr
       /\ TimestampProto now = Ok ia
       /\ ls = map (withIntegrateTimestamp ia) numbered.
Proof.
  intros Hrun Hin. integrated Hrun Hin.
  destruct (Hupdates _ _ Hie) as (-> & now & ia & Hnow & Hproto & Hls).
  split; [exact Htype | ].
  unfold fetched in Hfetch. rewrite Htype in Hfetch.
  exists sth, old, cutoff, batch, leaves, now, ia.
  repeat split; auto.
Qed.

(** X8. The write revision that the storage answers is the revision of the
    latest root plus one; or else the run answers an error and no leaves,
    the error of the storage as it is, and has made no call that writes
    and has had no root signed. *)
Theorem write_revision_is_checked (tree : Tree) (limit : Z) (gw mrd : Duration)
        (w w' : World W) (n : Z) (err : option error) (tr : list Event)
        (res : result Z) :
  IntegrateBatch s U tree limit gw mrd w = (n, err, w', tr) ->
  In (EvWriteRevision res) tr ->
  exists sth old,
    In (EvLatestSignedLogRoot (Ok sth)) tr
    /\ U (LogRoot sth) = Ok old
    /\ (res = Ok (i64 (i64 (Revision old) + 1))
        \/ (n = 0
            /\ err = Some match res with
                          | Ok _ => Errorf "%v: got writeRevision of %v, but expected %v"
                          | Err e => e
                          end
            /\ Forall (fun e => is_write e = false) tr
            /\ forall new signed, ~ In (EvSignLogRoot new signed) tr)).
Proof.
  intros Hrun Hin. integrated Hrun Hin.
  exists sth, old. split; [exact Hlatest | ]. split; [exact HU | ].
  destruct (txBodyIntegrate_revision s _ _ _ _ _ _ _ _ _ _ _ Hint Hie) as [Hres | [Hr Hlow]];
    [left; exact Hres | right].
  destruct (Herr _ Hr) as [Hn He].
  split; [exact Hn | ]. split; [exact He | ].
  assert (Hnone : forall e', In e' tr -> (6 <= stage e' <= 9)%nat -> False).
  { intros e' He' Hst'.
    pose proof (proj1 (Stdlib.Lists.List.Forall_forall _ _) Hlow _ (Hsup _ He' ltac:(lia)))
      as Hle.
    cbv beta in Hle. lia. }
  split.
  - apply Stdlib.Lists.List.Forall_forall. intros e' He'.
    destruct (is_write e') eqn:Hw; [exfalso | reflexivity].
    apply (Hnone _ He'). destruct e'; try discriminate Hw; simpl; lia.
  - intros new signed Hs. apply (Hnone _ Hs). simpl. lia.
Qed.
End RunFacts.

Section BodyRunFacts.
Context {W : Type} (s : Sequencer W) (U : bytes -> result LogRootV1).

Lemma txBodyIntegrate_batches (tree : Tree) (old : LogRootV1) (normal : bool)
      (d : sequencingTaskData) (leaves : list LogLeaf) (w w' : World W)
      (r : option error * Captured) (tr : list Event) :
  txBodyIntegrate s tree old (taskOf s normal d) leaves w = (r, w', tr) ->
  List.filter is_seqBatches tr = [] /\ List.filter is_seqCounter tr = [].
Proof.
  intros Hrun. unfold txBodyIntegrate in Hrun. destruct normal.
  all: run Hrun; end_run Hrun.
  all: cbn [List.filter is_seqBatches is_seqCounter app]; rewrite ?List.filter_app.
  all: repeat match goal with
       | Hmd : mergeDelays _ ?t |- context [List.filter ?f ?t] =>
           replace (List.filter f t) with (@nil Event)
             by (clear - Hmd; induction Hmd as [|? ? [? ->] _ IH]; [reflexivity | exact IH])
       end.
  all: split; reflexivity.
Qed.

Local Ltac dequeued :=
  split; [reflexivity | ]; split; [reflexivity | ];
  eexists _, _; split; [cbn [In]; auto 10 | ];
  split; [eassumption | ]; split; [congruence | auto].

(** What the body fetches, what it makes of a tree of another type, and
    its count of batches. *)
Lemma txBody_fetches (tree : Tree) (limit : Z) (gw mrd : Duration) (start : Time)
      (w w' : World W) (r : option error) (c : Captured) (tr : list Event) :
  txBody s U tree limit gw mrd start w = ((r, c), w', tr) ->
  (forall l cut res, In (EvDequeueLeaves l cut res) tr ->
     l = limit /\ cut = Time_Add start (i64 (- gw))
     /\ exists sth old,
          In (EvLatestSignedLogRoot (Ok sth)) tr
          /\ U (LogRoot sth) = Ok old
          /\ RootHash old <> None
          /\ (TreeType_ tree = TreeType_LOG \/ TreeType_ tree = TreeType_PREORDERED_LOG))
  /\ (forall sth old, In (EvLatestSignedLogRoot (Ok sth)) tr ->
        U (LogRoot sth) = Ok old -> RootHash old <> None ->
        TreeType_ tree <> TreeType_LOG -> TreeType_ tree <> TreeType_PREORDERED_LOG ->
        r = Some (Errorf "IntegrateBatch not supported for TreeType %v")
        /\ calls tr = [EvLatestSignedLogRoot (Ok sth)])
  /\ List.filter is_seqBatches tr = [EvMetric seqBatches (TreeId tree) 1]
  /\ List.filter is_seqCounter tr = [].
Proof.
  intros Hrun. unfold txBody, txBodyMain in Hrun.
  run Hrun; end_run Hrun.
  all: try match goal with
       | Hint : txBodyIntegrate _ _ _ (logSequencingTask _ _) _ _ = _ |- _ =>
           destruct (txBodyIntegrate_events _ _ _ true _ _ _ _ _ _ Hint) as [Hkind _];
           destruct (txBodyIntegrate_batches _ _ true _ _ _ _ _ _ Hint) as [Hb Hc]
       | Hint : txBodyIntegrate _ _ _ (preorderedLogSequencingTask _ _) _ _ = _ |- _ =>
           destruct (txBodyIntegrate_events _ _ _ false _ _ _ _ _ _ Hint) as [Hkind _];
           destruct (txBodyIntegrate_batches _ _ false _ _ _ _ _ _ Hint) as [Hb Hc]
       end.
  all: split; [intros lim0 cut0 res0 Hin; find_event Hin;
               injection Hin as <- <- _; dequeued | ].
  all: split;
         [intros sth0 old0 Hin HU Hroot Hlog Hpre; find_event Hin;
          try (injection Hin as <-);
          repeat match goal with
                 | H : U _ = _ |- _ => rewrite HU in H; try discriminate H;
                                       injection H as H; subst
                 end;
          try congruence; split; reflexivity | ].
  all: cbn [List.filter is_seqBatches is_seqCounter app]; rewrite ?List.filter_app, ?Hb, ?Hc.
  all: split; reflexivity.
Qed.

(** X9. The batch is dequeued with the limit that [IntegrateBatch] was
    given, and with a cutoff of the guard window before the start of the
    run, the start being the first time that the run reads off the
    clock. *)
Theorem dequeues_before_the_guard_window (tree : Tree) (limit : Z) (gw mrd : Duration)
        (w w' : World W) (n : Z) (err : option error) (tr : list Event)
        (l : Z) (cut : Time) (res : result (list LogLeaf)) :
  IntegrateBatch s U tree limit gw mrd w = (n, err, w', tr) ->
  In (EvDequeueLeaves l cut res) tr ->
  l = limit
  /\ exists start rest, tr = EvNow start :: rest /\ cut = Time_Add start (i64 (- gw)).
Proof.
  intros Hrun Hin.
  destruct (IntegrateBatch_cases _ _ _ _ _ _ _ _ _ _ _ Hrun)
    as (start & x0 & began & x1 & Hclk & Hbegin
        & [(e0 & _ & _ & _ & ->)
          | (-> & r & c & w2 & trb & post & Hbody & -> & Hpost & _)]).
  { find_event Hin. }
  apply In_body in Hin; [ | exact Hpost | reflexivity | reflexivity].
  destruct (txBody_fetches _ _ _ _ _ _ _ _ _ _ Hbody) as (Hdq & _).
  destruct (Hdq _ _ _ Hin) as (-> & -> & _).
  split; [reflexivity | ]. eexists _, _. split; reflexivity.
Qed.

(** X10. Leaves are dequeued only after the latest root was read and
    understood: it has a root hash, and the tree is a log or a pre-ordered
    log. *)
Theorem dequeues_only_for_a_log_with_a_root (tree : Tree) (limit : Z) (gw mrd : Duration)
        (w w' : World W) (n : Z) (err : option error) (tr : list Event)
        (l : Z) (cut : Time) (res : result (list LogLeaf)) :
  IntegrateBatch s U tree limit gw mrd w = (n, err, w', tr) ->
  In (EvDequeueLeaves l cut res) tr ->
  exists sth old,
    In (EvLatestSignedLogRoot (Ok sth)) tr
    /\ U (LogRoot sth) = Ok old
    /\ RootHash old <> None
    /\ (TreeType_ tree = TreeType_LOG \/ TreeType_ tree = TreeType_PREORDERED_LOG).
Proof.
  intros Hrun Hin.
  destruct (IntegrateBatch_cases _ _ _ _ _ _ _ _ _ _ _ Hrun)
    as (start & x0 & began & x1 & Hclk & Hbegin
        & [(e0 & _ & _ & _ & ->)
          | (-> & r & c & w2 & trb & post & Hbody & -> & Hpost & _)]).
  { find_event Hin. }
  apply In_body in Hin; [ | exact Hpost | reflexivity | reflexivity].
  destruct (txBody_fetches _ _ _ _ _ _ _ _ _ _ Hbody) as (Hdq & _).
  destruct (Hdq _ _ _ Hin) as (_ & _ & sth & old & Hl & HU & Hroot & Htype).
  exists sth, old. split; [right; right; apply in_or_app; left; exact Hl | auto].
Qed.

(** X11. For a tree that is neither a log nor a pre-ordered log, and a
    latest root that has a root hash, [IntegrateBatch] answers the error
    of a tree type that is not supported and no leaves; it has read the
    latest root and nothing else, and rolls back. *)
Theorem other_tree_types_are_refused (tree : Tree) (limit : Z) (gw mrd : Duration)
        (w w' : World W) (n : Z) (err : option error) (tr : list Event)
        (sth : SignedLogRoot) (old : LogRootV1) :
  IntegrateBatch s U tree limit gw mrd w = (n, err, w', tr) ->
  In (EvLatestSignedLogRoot (Ok sth)) tr ->
  U (LogRoot sth) = Ok old ->
  RootHash old <> None ->
  TreeType_ tree <> TreeType_LOG ->
  TreeType_ tree <> TreeType_PREORDERED_LOG ->
  n = 0
  /\ err = Some (Errorf "IntegrateBatch not supported for TreeType %v")
  /\ calls tr = [EvBegin None; EvLatestSignedLogRoot (Ok sth); EvRollback].
Proof.
  intros Hrun Hin HU Hroot Hlog Hpre.
  destruct (IntegrateBatch_cases _ _ _ _ _ _ _ _ _ _ _ Hrun)
    as (start & x0 & began & x1 & Hclk & Hbegin
        & [(e0 & _ & _ & _ & ->)
          | (-> & r & c & w2 & trb & post & Hbody & -> & Hpost & Hcases)]).
  { find_event Hin. }
  apply In_body in Hin; [ | exact Hpost | reflexivity | reflexivity].
  destruct (txBody_fetches _ _ _ _ _ _ _ _ _ _ Hbody) as (_ & Htype & _).
  destruct (Htype _ _ Hin HU Hroot Hlog Hpre) as [-> Hcalls].
  destruct Hcases as [(e & [= <-] & -> & -> & ->) | ([=] & _)].
  split; [reflexivity | ]. split; [reflexivity | ].
  rewrite calls_call, Hcalls. reflexivity.
Qed.

(** X12. A run counts one batch when its transaction was opened, and none
    otherwise, whether or not the run fails. It counts sequenced leaves
    when it answers no error only, and then as many as it answers; that
    many leaves were dequeued, by the one dequeue of the run. A run that
    answers an error answers no leaves. *)
Theorem counts_batches_and_leaves (tree : Tree) (limit : Z) (gw mrd : Duration)
        (w w' : World W) (n : Z) (err : option error) (tr : list Event) :
  IntegrateBatch s U tree limit gw mrd w = (n, err, w', tr) ->
  (exists began,
      In (EvBegin began) tr
      /\ List.filter is_seqBatches tr
         = match began with
           | None => [EvMetric seqBatches (TreeId tree) 1]
           | Some _ => []
           end)
  /\ List.filter is_seqCounter tr
     = match err with
       | None => [EvMetric seqCounter (TreeId tree) n]
       | Some _ => []
       end
  /\ match err with
     | None => exists cutoff batch,
                 In (EvDequeueLeaves limit cutoff (Ok batch)) tr
                 /\ n = Z.of_nat (length batch)
     | Some _ => n = 0
     end.
Proof.
  intros Hrun.
  assert (Hcount : match err with
                   | None => exists cutoff batch,
                               In (EvDequeueLeaves limit cutoff (Ok batch)) tr
                               /\ n = Z.of_nat (length batch)
                   | Some _ => n = 0
                   end).
  { destruct err as [e | ];
      [exact (proj1 (IntegrateBatch_failure s U _ _ _ _ _ _ _ _ _ Hrun)) | ].
    destruct (IntegrateBatch_success s U _ _ _ _ _ _ _ _ Hrun)
      as (sth & old & cutoff & batch & leaves & HU & Hfetch & Hn & Hcases).
    exists cutoff, batch. split.
    - apply (List.filter_In is_call). fold (calls tr).
      destruct Hcases as [(_ & _ & ->)
                         | (cr & reads & v & ia & nodeMap & newRoot & cr' & targetNodes
                            & now & new & slr & quota & _ & _ & _ & _ & _ & _ & _ & _ & _
                            & ->)]; cbn [In app]; auto.
    - rewrite Hn. f_equal. exact (proj1 (fetched_facts _ _ _ _ Hfetch)). }
  destruct (IntegrateBatch_cases _ _ _ _ _ _ _ _ _ _ _ Hrun)
    as (start & x0 & began & x1 & Hclk & Hbegin
        & [(e0 & -> & _ & -> & ->)
          | (-> & r & c & w2 & trb & post & Hbody & -> & Hpost & Hcases)]).
  { split; [eexists; split; [right; left; reflexivity | reflexivity] | ].
    split; [reflexivity | exact Hcount]. }
  destruct (txBody_fetches _ _ _ _ _ _ _ _ _ _ Hbody) as (_ & _ & Hb & Hc).
  assert (Hpost' : List.filter is_seqBatches post = []
                   /\ List.filter is_seqCounter post
                      = match err with
                        | None => [EvMetric seqCounter (TreeId tree) n]
                        | Some _ => []
                        end).
  { destruct Hcases as [(e & -> & _ & -> & ->)
                       | (-> & x3 & after & Hcommit & -> & Herr & Hgood)];
      [split; reflexivity | ].
    destruct err as [e | ].
    - destruct (Herr ltac:(discriminate)) as (_ & -> & _). split; reflexivity.
    - destruct (Hgood eq_refl) as [_ [(_ & _ & ->) | (_ & a & ->)]]; split; reflexivity. }
  destruct Hpost' as [Hpb Hpc].
  split; [exists None; split; [right; left; reflexivity | ];
          cbn [List.filter is_seqBatches]; rewrite List.filter_app, Hb, Hpb; reflexivity | ].
  split; [cbn [List.filter is_seqCounter]; rewrite List.filter_app, Hc, Hpc; reflexivity
         | exact Hcount].
Qed.

(** X13. [quotaIncreaseFactor] answers the greater of [QuotaIncreaseFactor]
    and 1 and leaves the variable at what it answers: a factor below 1 is
    set to 1 for good. So a run that answers leaves, and only such a run,
    leaves the variable at the greater of its value and 1, which is not
    below 1. *)
Theorem factor_is_normalised_for_good :
  (forall w : World W,
      quotaIncreaseFactor w
      = (max_float64 (QuotaIncreaseFactor w) 1,
         mkWorld (ext w) (max_float64 (QuotaIncreaseFactor w) 1), [])
      /\ (max_float64 (QuotaIncreaseFactor w) 1 <? 1)%float = false)
  /\ (forall (tree : Tree) (limit : Z) (gw mrd : Duration) (w : World W),
        QuotaIncreaseFactor (snd (fst (IntegrateBatch s U tree limit gw mrd w)))
        = if 0 <? fst (fst (fst (IntegrateBatch s U tree limit gw mrd w)))
          then max_float64 (QuotaIncreaseFactor w) 1
          else QuotaIncreaseFactor w).
Proof.
  split.
  - intros [x q]. unfold quotaIncreaseFactor, max_float64. cbn [QuotaIncreaseFactor ext].
    destruct (q <? 1)%float eqn:Hq; split; try reflexivity; exact Hq.
  - intros tree limit gw mrd w.
    destruct (IntegrateBatch s U tree limit gw mrd w) as [[[n err] w'] tr] eqn:Hrun.
    cbn [fst snd].
    unfold IntegrateBatch, ReadWriteTransaction in Hrun.
    run Hrun; end_run Hrun.
    all: try match goal with
         | Hbody : txBody _ _ _ _ _ _ _ _ = _ |- _ =>
             destruct (txBody_events _ _ _ _ _ _ _ _ _ _ _ Hbody) as [_ Hq];
             cbn [QuotaIncreaseFactor] in Hq
         end.
    all: cbn [QuotaIncreaseFactor]; unfold max_float64.
    all: repeat match goal with
         | H : (0 <? _) = _ |- _ => rewrite H
         | H : PrimFloat.ltb _ _ = _ |- _ => rewrite Hq in H; rewrite H
         end.
    all: try reflexivity; try assumption.
Qed.

(** X14. What is reported as replenished is what the quota manager was
    given: the same tokens for the same buckets, as a success when the
    quota manager answered no error, and as a failure otherwise. *)
Theorem replenishment_is_reported (tree : Tree) (limit : Z) (gw mrd : Duration)
        (w w' : World W) (n : Z) (err : option error) (tr : list Event)
        (tokens : Z) (specs : list quota.Spec) (success : bool) :
  IntegrateBatch s U tree limit gw mrd w = (n, err, w', tr) ->
  In (EvIncReplenished tokens specs success) tr
  <-> exists a, In (EvPutTokens tokens specs a) tr /\ success = bool_decide (a = None).
Proof.
  intros Hrun.
  destruct (IntegrateBatch_cases _ _ _ _ _ _ _ _ _ _ _ Hrun)
    as (start & x0 & began & x1 & Hclk & Hbegin
        & [(e0 & _ & _ & _ & ->)
          | (-> & r & c & w2 & trb & post & Hbody & -> & Hpost & Hcases)]).
  { split; [intros Hin; find_event Hin | intros (a & Hin & _); find_event Hin]. }
  destruct (txBody_events _ _ _ _ _ _ _ _ _ _ _ Hbody) as [Hkind _].
  assert (Hpost' : post = [EvRollback]
                   \/ (exists cerr, post = [EvCommit cerr])
                   \/ (exists cerr m, post = [EvCommit cerr; EvMetric seqCounter (TreeId tree) m])
                   \/ (exists cerr t sp a m,
                         post = [EvCommit cerr; EvPutTokens t sp a;
                                 EvIncReplenished t sp (bool_decide (a = None));
                                 EvMetric seqCounter (TreeId tree) m])).
  { destruct Hcases as [(e & _ & _ & _ & ->)
                       | (-> & x3 & after & Hcommit & -> & Herr & Hgood)];
      [left; reflexivity | right].
    destruct err as [e | ].
    - destruct (Herr ltac:(discriminate)) as (_ & -> & _). left. eauto.
    - destruct (Hgood eq_refl) as [_ [(_ & _ & ->) | (_ & a & ->)]];
        right; [left | right]; eauto 10. }
  split.
  - intros Hin. destruct Hin as [Hin | [Hin | Hin]]; try discriminate Hin.
    apply in_app_or in Hin. destruct Hin as [Hin | Hin];
      [apply (proj1 (Stdlib.Lists.List.Forall_forall _ _) Hkind) in Hin; discriminate Hin | ].
    destruct Hpost' as [-> | [(cerr & ->) | [(cerr & m & ->) | (cerr & t & sp & a & m & ->)]]];
      find_event Hin.
    injection Hin as <- <- <-. exists a. split; [ | reflexivity].
    right; right; apply in_or_app; right. right; left; reflexivity.
  - intros (a & Hin & ->). destruct Hin as [Hin | [Hin | Hin]]; try discriminate Hin.
    apply in_app_or in Hin. destruct Hin as [Hin | Hin];
      [apply (proj1 (Stdlib.Lists.List.Forall_forall _ _) Hkind) in Hin; discriminate Hin | ].
    destruct Hpost' as [-> | [(cerr & ->) | [(cerr & m & ->) | (cerr & t & sp & a' & m & ->)]]];
      find_event Hin.
    injection Hin as <- <- <-.
    right; right; apply in_or_app; right. right; right; left; reflexivity.
Qed.
End BodyRunFacts.

Section NodeFacts.

Lemma mapM_result_Ok {A B : Type} (f : A -> result B) (l : list A) :
  forall bs : list B,
    mapM_result f l = Ok bs ->
    length bs = length l
    /\ forall b, In b bs <-> exists a, In a l /\ f a = Ok b.
Proof.
  induction l as [|a l IH]; intros bs H; simpl in H.
  - injection H as <-. split; [reflexivity | ].
    intros b. split; [intros [] | intros (a & [] & _)].
  - destruct (f a) as [b0 | e] eqn:Ha; [ | discriminate H].
    destruct (mapM_result f l) as [bs' | e]; [ | discriminate H].
    injection H as <-. destruct (IH _ eq_refl) as [Hlen Hin].
    split; [simpl; congruence | ].
    intros b. simpl. rewrite Hin. split.
    + intros [<- | (a' & Ha' & Hb)]; [exists a; auto | exists a'; auto].
    + intros (a' & [<- | Ha'] & Hb); [left; congruence | right; exists a'; auto].
Qed.

Lemma mapM_result_Err {A B : Type} (f : A -> result B) (l : list A) (e : error) :
  mapM_result f l = Err e -> exists a, In a l /\ f a = Err e.
Proof.
  induction l as [|a l IH]; intros H; simpl in H; [discriminate H | ].
  destruct (f a) as [b0 | e0] eqn:Ha.
  - destruct (mapM_result f l) as [bs' | e1]; [discriminate H | ].
    injection H as <-. destruct (IH eq_refl) as (a' & Ha' & He).
    exists a'. split; [right; exact Ha' | exact He].
  - injection H as <-. exists a. split; [left; reflexivity | exact Ha].
Qed.

(** X15. [buildNodesFromNodeMap] answers one node for each entry of the node
    map and no other: the node of an entry has the storage ID of the
    coordinates of its key, its hash, and the new version as its revision.
    It answers an error only when the coordinates of some key have no
    storage ID, and then that error. *)
Theorem buildNodesFromNodeMap_covers (nodeMap : gmap compact.NodeID bytes) (newVersion : Z) :
  match buildNodesFromNodeMap nodeMap newVersion with
  | Ok nodes =>
      length nodes = size nodeMap
      /\ forall node,
           In node nodes
           <-> exists id hash nodeID,
                 nodeMap !! id = Some hash
                 /\ storage.NewNodeIDForTreeCoords
                      (i64 (compact.Level id)) (i64 (compact.Index id)) maxTreeDepth
                    = Ok nodeID
                 /\ node = storage.mkNode nodeID hash newVersion
  | Err err =>
      exists id hash,
        nodeMap !! id = Some hash
        /\ storage.NewNodeIDForTreeCoords
             (i64 (compact.Level id)) (i64 (compact.Index id)) maxTreeDepth
           = Err err
  end.
Proof.
  unfold buildNodesFromNodeMap.
  destruct (mapM_result _ (map_to_list nodeMap)) as [nodes | err] eqn:Hrun.
  - destruct (mapM_result_Ok _ _ _ Hrun) as [Hlen Hin].
    split; [rewrite Hlen; apply length_map_to_list | ].
    intros node. rewrite Hin. split.
    + intros ([id hash] & Hentry & Hnode).
      apply list_elem_of_In, elem_of_map_to_list in Hentry.
      destruct (storage.NewNodeIDForTreeCoords _ _ _) as [nodeID | e] eqn:Hid;
        [ | discriminate Hnode].
      injection Hnode as <-. exists id, hash, nodeID. auto.
    + intros (id & hash & nodeID & Hentry & Hid & ->).
      exists (id, hash). split; [apply list_elem_of_In, elem_of_map_to_list, Hentry | ].
      cbv beta iota. rewrite Hid. reflexivity.
  - destruct (mapM_result_Err _ _ _ Hrun) as ([id hash] & Hentry & Hid).
    apply list_elem_of_In, elem_of_map_to_list in Hentry.
    exists id, hash. split; [exact Hentry | ].
    destruct (storage.NewNodeIDForTreeCoords _ _ _) as [nodeID | e];
      [discriminate Hid | congruence].
Qed.
End NodeFacts.

(** ** The schema script of the test database *)

Section SanitizeFacts.
Import testdb.





(** *** [strings.Split] *)




(** *** [strings.TrimSpace] *)

Section Trim.
Variable runes : list gostring.
Hypothesis runes_not_empty : Forall (fun r => r <> []) runes.






End Trim.







(** *** [sanitize] *)







Example sanitize_script : sanitize script = sanitized.
Proof. vm_compute. reflexivity. Qed.
End SanitizeFacts.

(** ** The further properties on the scenarios *)

Lemma first_error_stops_the_run_witness :
  drop 7 (calls (snd testonly.E5)) = [] \/ drop 7 (calls (snd testonly.E5)) = [EvRollback].
Proof.
  pose proof (first_error_stops_the_run testonly.sequencer testonly.UnmarshalBinary
                testonly.logTree 3 0 0 testonly.broken (testonly.after testonly.E5) 0
                (Some (Wrapf "%v: signer failed to sign root: %v" (ErrExternal 1)))
                (snd testonly.E5)
                (take 6 (calls (snd testonly.E5)))
                (drop 7 (calls (snd testonly.E5)))
                (EvSignLogRoot (mkLogRootV1 1 testonly.h0 115 1) (Err (ErrExternal 1)))
                ltac:(by_running) ltac:(by_running) ltac:(by_running))
    as H.
  exact (proj1 H).
Defined.

Lemma signs_only_advancing_roots_witness :
  exists sth old now,
    In (EvLatestSignedLogRoot (Ok sth)) (snd testonly.E2)
    /\ testonly.UnmarshalBinary (LogRoot sth) = Ok old
    /\ In (EvNow now) (snd testonly.E2)
    /\ TimestampNanos testonly.root2 = u64 (UnixNano now)
    /\ TimestampNanos old < TimestampNanos testonly.root2
    /\ Revision testonly.root2 = u64 (Revision old + 1).
Proof.
  exact (signs_only_advancing_roots testonly.sequencer testonly.UnmarshalBinary
           testonly.logTree 3 0 0 (testonly.after testonly.E1)
           (testonly.after testonly.E2) 1 None (snd testonly.E2)
           testonly.root2 (Ok testonly.sth2)
           ltac:(by_running) ltac:(by_running)).
Defined.

Lemma stores_what_was_signed_witness :
  exists new, In (EvSignLogRoot new (Ok testonly.sth2)) (snd testonly.E2).
Proof.
  exact (stores_what_was_signed testonly.sequencer testonly.UnmarshalBinary
           testonly.logTree 3 0 0 (testonly.after testonly.E1)
           (testonly.after testonly.E2) 1 None (snd testonly.E2)
           testonly.sth2 None
           ltac:(by_running) ltac:(by_running)).
Defined.

Lemma nodes_carry_the_write_revision_witness :
  exists sth old,
    In (EvLatestSignedLogRoot (Ok sth)) (snd testonly.E2)
    /\ testonly.UnmarshalBinary (LogRoot sth) = Ok old
    /\ In (EvWriteRevision (Ok (i64 (i64 (Revision old) + 1)))) (snd testonly.E2)
    /\ Forall (fun node => storage.NodeRevision node = i64 (i64 (Revision old) + 1))
              [storage.mkNode (storage.mkNodeID 3 64) testonly.h3 2;
               storage.mkNode (storage.mkNodeID 0 62) (RootHash testonly.root2) 2;
               storage.mkNode (storage.mkNodeID 2 63)
                              (HashChildren testonly.hasher testonly.h2 testonly.h3) 2].
Proof.
  exact (nodes_carry_the_write_revision testonly.sequencer testonly.UnmarshalBinary
           testonly.logTree 3 0 0 (testonly.after testonly.E1)
           (testonly.after testonly.E2) 1 None (snd testonly.E2)
           [storage.mkNode (storage.mkNodeID 3 64) testonly.h3 2;
            storage.mkNode (storage.mkNodeID 0 62) (RootHash testonly.root2) 2;
            storage.mkNode (storage.mkNodeID 2 63)
                           (HashChildren testonly.hasher testonly.h2 testonly.h3) 2]
           None
           ltac:(by_running) ltac:(by_running)).
Defined.

Lemma updates_the_fetched_leaves_witness :
  TreeType_ testonly.logTree = TreeType_LOG
  /\ exists sth old cutoff batch numbered now ia,
       In (EvLatestSignedLogRoot (Ok sth)) (snd testonly.E2)
       /\ testonly.UnmarshalBinary (LogRoot sth) = Ok old
       /\ In (EvDequeueLeaves 3 cutoff (Ok batch)) (snd testonly.E2)
       /\ assignLeafIndices (TreeSize old) 0 batch = Ok numbered
       /\ In (EvNow now) (snd testonly.E2)
       /\ TimestampProto now = Ok ia
       /\ [mkLogLeaf testonly.h3 3 None (Some (mkTimestamp 0 126))]
          = map (withIntegrateTimestamp ia) numbered.
Proof.
  exact (updates_the_fetched_leaves testonly.sequencer testonly.UnmarshalBinary
           testonly.logTree 3 0 0 (testonly.after testonly.E1)
           (testonly.after testonly.E2) 1 None (snd testonly.E2)
           [mkLogLeaf testonly.h3 3 None (Some (mkTimestamp 0 126))] None
           ltac:(by_running) ltac:(by_running)).
Defined.

Lemma dequeues_before_the_guard_window_witness :
  exists start rest,
    snd testmore.guarded = EvNow start :: rest /\ 95 = Time_Add start (i64 (- 5)).
Proof.
  refine (proj2 (dequeues_before_the_guard_window testonly.sequencer testonly.UnmarshalBinary
           testonly.logTree 2 5 0 testonly.fresh (testonly.after testmore.guarded) 2 None
           (snd testmore.guarded)
           2 95 (Ok [testonly.queued Byte.x00; testonly.queued Byte.x01])
           ltac:(by_running) ltac:(by_running))).
Defined.

Lemma other_tree_types_are_refused_witness :
  calls (snd testmore.mapped)
  = [EvBegin None; EvLatestSignedLogRoot (Ok testonly.sth0); EvRollback].
Proof.
  refine (proj2 (proj2 (other_tree_types_are_refused testonly.sequencer testonly.UnmarshalBinary
           testonly.mapTree 3 0 0 testonly.fresh (testonly.after testmore.mapped) 0
           (Some (Errorf "IntegrateBatch not supported for TreeType %v"))
           (snd testmore.mapped) testonly.sth0 testonly.root0
           ltac:(by_running) ltac:(by_running) ltac:(by_running) ltac:(by_running)
           ltac:(by_running) ltac:(by_running)))).
Defined.

Lemma counts_batches_and_leaves_witness :
  (exists began,
      In (EvBegin began) (snd testonly.E1)
      /\ List.filter is_seqBatches (snd testonly.E1)
         = match began with
           | None => [EvMetric seqBatches (TreeId testonly.logTree) 1]
           | Some _ => []
           end)
  /\ List.filter is_seqCounter (snd testonly.E1)
     = [EvMetric seqCounter (TreeId testonly.logTree) 3]
  /\ exists cutoff batch,
       In (EvDequeueLeaves 3 cutoff (Ok batch)) (snd testonly.E1)
       /\ 3 = Z.of_nat (length batch).
Proof.
  exact (counts_batches_and_leaves testonly.sequencer testonly.UnmarshalBinary
           testonly.logTree 3 0 0 testonly.fresh (testonly.after testonly.E1) 3 None
           (snd testonly.E1) ltac:(by_running)).
Defined.

Lemma write_revision_is_checked_witness :
  exists sth old,
    In (EvLatestSignedLogRoot (Ok sth)) (snd testmore.stale)
    /\ testonly.UnmarshalBinary (LogRoot sth) = Ok old
    /\ (Ok 7 = Ok (i64 (i64 (Revision old) + 1))
        \/ (0 = 0
            /\ Some (Errorf "%v: got writeRevision of %v, but expected %v")
               = Some (Errorf "%v: got writeRevision of %v, but expected %v")
            /\ Forall (fun e => is_write e = false) (snd testmore.stale)
            /\ forall new signed, ~ In (EvSignLogRoot new signed) (snd testmore.stale))).
Proof.
  exact (write_revision_is_checked testmore.staleSequencer testonly.UnmarshalBinary
           testonly.logTree 3 0 0 testonly.fresh (snd (fst testmore.stale)) 0
           (Some (Errorf "%v: got writeRevision of %v, but expected %v"))
           (snd testmore.stale) (Ok 7)
           ltac:(by_running) ltac:(by_running)).
Defined.

Lemma dequeues_only_for_a_log_with_a_root_witness :
  exists sth old,
    In (EvLatestSignedLogRoot (Ok sth)) (snd testonly.E2)
    /\ testonly.UnmarshalBinary (LogRoot sth) = Ok old
    /\ RootHash old <> None
    /\ (TreeType_ testonly.logTree = TreeType_LOG
        \/ TreeType_ testonly.logTree = TreeType_PREORDERED_LOG).
Proof.
  exact (dequeues_only_for_a_log_with_a_root testonly.sequencer testonly.UnmarshalBinary
           testonly.logTree 3 0 0 (testonly.after testonly.E1)
           (testonly.after testonly.E2) 1 None (snd testonly.E2)
           3 118 (Ok [testonly.queued Byte.x03])
           ltac:(by_running) ltac:(by_running)).
Defined.

Lemma replenishment_is_reported_witness :
  In (EvIncReplenished 3 (replenishSpecs 7) true) (snd testonly.E1)
  <-> exists a, In (EvPutTokens 3 (replenishSpecs 7) a) (snd testonly.E1)
                /\ true = bool_decide (a = None).
Proof.
  exact (replenishment_is_reported testonly.sequencer testonly.UnmarshalBinary
           testonly.logTree 3 0 0 testonly.fresh (testonly.after testonly.E1) 3 None
           (snd testonly.E1) 3 (replenishSpecs 7) true
           ltac:(by_running)).
Defined.
